(** * python-configuration: the flat store and the layered view

    A shallow embedding of [config/__init__.py]: the boolean cast [as_bool],
    the class [Configuration] (a dictionary from dotted key paths to values)
    and the class [ConfigurationSet] (an ordered list of such stores), with
    the properties of their read, write and delete operations.

    Conventions of the embedding.
    - A Python [str] is a [string] whose characters are code points below
      256; [lower] and [strip] follow Python on that range.
    - A Python [dict] with string keys is a [gmap string _] when it is a
      store, and a list of items in insertion order when it is a nested
      mapping handed to a constructor.
    - A call either returns or raises: [pyresult]. *)

From stdpp Require Import gmap strings list fin_maps pretty sorting.
From Stdlib Require Import ZArith Ascii.

Set Warnings "-register-all,-clear-no-such-hyp".

(** ** Python strings *)

Module PyStr.

(** [s.startswith(p)] *)
Fixpoint startswith (s p : string) {struct p} : bool :=
  match p with
  | EmptyString => true
  | String a p' =>
      match s with
      | EmptyString => false
      | String b s' => if bool_decide (a = b) then startswith s' p' else false
      end
  end.

(** [s[n:]] *)
Fixpoint slice_from (n : nat) (s : string) : string :=
  match n with
  | O => s
  | S n' => match s with
            | EmptyString => EmptyString
            | String _ s' => slice_from n' s'
            end
  end.

(** [s.split(sep)] for a one-character separator: never the empty list. *)
Fixpoint split (sep : ascii) (s : string) : list string :=
  match s with
  | EmptyString => [EmptyString]
  | String c s' =>
      if bool_decide (c = sep) then EmptyString :: split sep s'
      else match split sep s' with
           | h :: t => String c h :: t
           | [] => [String c EmptyString]
           end
  end.

(** [sep.join(l)] *)
Fixpoint join (sep : string) (l : list string) : string :=
  match l with
  | [] => EmptyString
  | [x] => x
  | x :: rest => x +:+ sep +:+ join sep rest
  end.

(** One character of [str.lower()]: A-Z, and the upper-case letters of the
    Latin-1 supplement (U+00C0 to U+00DE, the multiplication sign U+00D7
    apart), move up by 32. *)
Definition lower_char (c : ascii) : ascii :=
  let n := N_of_ascii c in
  if ((65 <=? n) && (n <=? 90))%N
     || ((192 <=? n) && (n <=? 222) && negb (n =? 215))%N
  then ascii_of_N (n + 32) else c.

(** [s.lower()] *)
Fixpoint lower (s : string) : string :=
  match s with
  | EmptyString => EmptyString
  | String c s' => String (lower_char c) (lower s')
  end.

(** [c.isspace()] below 256: tab to carriage return, the four separators
    U+001C to U+001F, the space, U+0085 and U+00A0. *)
Definition isspace (c : ascii) : bool :=
  let n := N_of_ascii c in
  ((9 <=? n) && (n <=? 13) || (28 <=? n) && (n <=? 32)
   || (n =? 133) || (n =? 160))%N.

Fixpoint lstrip (s : string) : string :=
  match s with
  | EmptyString => EmptyString
  | String c s' => if isspace c then lstrip s' else s
  end.

Fixpoint rstrip (s : string) : string :=
  match s with
  | EmptyString => EmptyString
  | String c s' =>
      match rstrip s' with
      | EmptyString => if isspace c then EmptyString else String c EmptyString
      | r => String c r
      end
  end.

(** [s.strip()] *)
Definition strip (s : string) : string := rstrip (lstrip s).

(** [iter(s)]: the one-character strings of [s]. *)
Fixpoint chars (s : string) : list string :=
  match s with
  | EmptyString => []
  | String c s' => String c EmptyString :: chars s'
  end.

End PyStr.

Lemma string_app_cons c (a b : string) : String c a +:+ b = String c (a +:+ b).
Proof. reflexivity. Qed.

Lemma string_app_nil_l (a : string) : "" +:+ a = a.
Proof. reflexivity. Qed.

Lemma string_app_assoc (a b c : string) : (a +:+ b) +:+ c = a +:+ b +:+ c.
Proof.
  induction a as [|x a IH]; [done|].
  by rewrite !string_app_cons, IH.
Qed.

Lemma string_app_length (a b : string) :
  String.length (a +:+ b) = String.length a + String.length b.
Proof.
  induction a as [|x a IH]; [done|].
  rewrite string_app_cons. simpl. by rewrite IH.
Qed.

Lemma string_app_nil_r (a : string) : a +:+ "" = a.
Proof.
  induction a as [|x a IH]; [done|].
  by rewrite string_app_cons, IH.
Qed.

Lemma startswith_app s p : PyStr.startswith (p +:+ s) p = true.
Proof.
  induction p as [|a p IH]; [done|].
  rewrite string_app_cons. simpl. by rewrite bool_decide_eq_true_2.
Qed.

Lemma startswith_split s p :
  PyStr.startswith s p = true → s = p +:+ PyStr.slice_from (String.length p) s.
Proof.
  revert s. induction p as [|a p IH]; intros s H; [done|].
  destruct s as [|b s]; [done|]. simpl in H.
  case_bool_decide; [|done]. subst b.
  rewrite string_app_cons. simpl. f_equal. by apply IH.
Qed.

Lemma startswith_iff s p :
  PyStr.startswith s p = true ↔ ∃ r, s = p +:+ r.
Proof.
  split.
  - intros H. eexists. by apply startswith_split.
  - intros [r ->]. apply startswith_app.
Qed.

Lemma slice_from_app p r : PyStr.slice_from (String.length p) (p +:+ r) = r.
Proof. induction p as [|a p IH]; [done|]. rewrite string_app_cons. apply IH. Qed.

Lemma lower_char_idemp c : PyStr.lower_char (PyStr.lower_char c) = PyStr.lower_char c.
Proof. by destruct c as [[] [] [] [] [] [] [] []]. Qed.

Lemma lower_idemp s : PyStr.lower (PyStr.lower s) = PyStr.lower s.
Proof.
  induction s as [|c s IH]; simpl; [done|].
  by rewrite lower_char_idemp, IH.
Qed.

Lemma lower_app a b : PyStr.lower (a +:+ b) = PyStr.lower a +:+ PyStr.lower b.
Proof.
  induction a as [|x a IH]; [done|].
  rewrite !string_app_cons. simpl. by rewrite IH, string_app_cons.
Qed.

Lemma split_nonempty sep s : PyStr.split sep s ≠ [].
Proof.
  destruct s as [|c s]; simpl; [done|].
  case_bool_decide; [done|]. by destruct (PyStr.split sep s).
Qed.

Lemma join_cons sep x y l :
  PyStr.join sep (x :: y :: l) = x +:+ sep +:+ PyStr.join sep (y :: l).
Proof. reflexivity. Qed.

Lemma join_split s : PyStr.join "." (PyStr.split "." s) = s.
Proof.
  induction s as [|c s IH]; [done|].
  simpl. pose proof (split_nonempty "." s) as Hne.
  destruct (PyStr.split "." s) as [|h t] eqn:E; [done|].
  case_bool_decide as Hc.
  - subst c. rewrite join_cons. by rewrite IH.
  - destruct t as [|y t].
    + simpl in *. by subst.
    + rewrite join_cons in *. by rewrite string_app_cons, IH.
Qed.

(** ** Values and results *)

(** What a store holds or a call returns: [None], a [bool], an [int], a
    [str], or a [Configuration] object (its case-folding flag and its flat
    dictionary). Floats and byte strings are left out. *)
Inductive value :=
| VNone
| VBool (b : bool)
| VInt (z : Z)
| VStr (s : string)
| VConf (lowercase : bool) (config : gmap string value).

(** A nested mapping as a constructor receives it: [isinstance(v, dict)]
    holds of [Dict], whose items come in insertion order, and of nothing
    else. *)
Inductive nested :=
| Leaf (v : value)
| Dict (items : list (string * nested)).

Inductive exn :=
| KeyError
| ValueError
| TypeError
| AttributeError
| IndexError
| RecursionError
| AssertionError
| Exception.

Inductive pyresult (A : Type) :=
| Ok (a : A)
| Raise (e : exn).
Arguments Ok {A} a.
Arguments Raise {A} e.

Instance pyresult_ret : MRet pyresult := λ A a, Ok a.
Instance pyresult_bind : MBind pyresult := λ A B f m,
  match m with
  | Ok a => f a
  | Raise e => Raise e
  end.

Definition is_ok {A} (r : pyresult A) : bool :=
  match r with Ok _ => true | Raise _ => false end.

(** [isinstance(v, Configuration)] *)
Definition is_Configuration (v : value) : bool :=
  match v with VConf _ _ => true | _ => false end.

(** ** Dictionaries *)

(** [d.update(items)] for a sequence of pairs, and [d[k] = v] one at a time:
    a later item overwrites an earlier one. *)
Definition dict_update (d : gmap string value) (items : list (string * value))
  : gmap string value :=
  foldl (λ acc kv, <[kv.1 := kv.2]> acc) d items.

(** [not d], [d == {}] *)
Definition dict_is_empty (d : gmap string value) : bool :=
  match map_to_list d with [] => true | _ => false end.

(** A flat dictionary handed on as a mapping. *)
Definition dict_as_nested (d : gmap string value) : list (string * nested) :=
  (λ kv, (kv.1, Leaf kv.2)) <$> map_to_list d.

Record Configuration := mkConfiguration {
  _lowercase : bool;
  _config : gmap string value
}.

Definition value_of_Configuration (c : Configuration) : value :=
  VConf (_lowercase c) (_config c).

(** ** The class [Configuration] *)

Section Embedding.

(** [_flatten_dict] walks a Python [set] of keys; the order in which a set
    yields its elements is not fixed by the language. [set_rank] stands for
    the place the hash of a key gives it in the table of the set: the set
    yields its keys by increasing rank. Nothing is assumed of it. *)
Variable set_rank : string → nat.

Definition rank_le {A} (x y : string * A) : Prop :=
  (set_rank x.1 ≤ set_rank y.1)%nat.

#[local] Instance rank_le_dec {A} : RelDecision (@rank_le A).
Proof. intros x y. unfold rank_le. apply _. Defined.

Definition set_order {A} (l : list (string * A)) : list (string * A) :=
  merge_sort rank_le l.

(** [k.lower()] under [self._lowercase], [k] otherwise. *)
Definition key_case (lowercase : bool) (k : string) : string :=
  if lowercase then PyStr.lower k else k.

(** The items [k + "." + ki : vi] one dictionary-valued key contributes. *)
Definition prefixed_items (k : string) (sub : gmap string value)
  : list (string * value) :=
  (λ kv, (k +:+ "." +:+ kv.1, kv.2)) <$> map_to_list sub.

(** The items [(k, v)] of [d] whose value is not a dictionary. *)
Fixpoint scalar_items (lowercase : bool) (d : list (string * nested))
  : list (string * value) :=
  match d with
  | [] => []
  | (k, Leaf v) :: rest => (key_case lowercase k, v) :: scalar_items lowercase rest
  | (_, Dict _) :: rest => scalar_items lowercase rest
  end.

Fixpoint flatten_nested (lowercase : bool) (n : nested) : gmap string value :=
  match n with
  | Leaf _ => ∅
  | Dict d =>
      let nested_keys :=
        (fix go (its : list (string * nested)) :=
           match its with
           | [] => []
           | (k, v) :: rest =>
               match v with
               | Dict _ => (k, flatten_nested lowercase v) :: go rest
               | Leaf _ => go rest
               end
           end) d in
      let result :=
        dict_update ∅
          (List.concat ((λ ks, prefixed_items (key_case lowercase ks.1) ks.2)
                          <$> set_order nested_keys)) in
      dict_update result (scalar_items lowercase d)
  end.

(** [self._flatten_dict(d)]: the dictionary-valued keys first, each expanded
    recursively under its own name, then the other items, which overwrite. *)
Definition _flatten_dict (lowercase : bool) (d : list (string * nested))
  : gmap string value :=
  flatten_nested lowercase (Dict d).

(** The dictionary-valued keys of [d] with their flattened values. *)
Fixpoint nested_items (lowercase : bool) (d : list (string * nested))
  : list (string * gmap string value) :=
  match d with
  | [] => []
  | (k, Dict sub) :: rest =>
      (k, _flatten_dict lowercase sub) :: nested_items lowercase rest
  | (_, Leaf _) :: rest => nested_items lowercase rest
  end.

Lemma _flatten_dict_unfold lowercase d :
  _flatten_dict lowercase d =
  dict_update
    (dict_update ∅
       (List.concat ((λ ks, prefixed_items (key_case lowercase ks.1) ks.2)
                       <$> set_order (nested_items lowercase d))))
    (scalar_items lowercase d).
Proof.
  unfold _flatten_dict at 1. simpl.
  match goal with
  | |- context [set_order ?l] => assert (l = nested_items lowercase d) as ->
  end; [|done].
  induction d as [|[k [v|sub]] d IH]; simpl; [done|done|].
  by rewrite IH.
Qed.

(** [Configuration(config_, lowercase_keys)] *)
Definition __init__ (config_ : list (string * nested)) (lowercase_keys : bool)
  : Configuration :=
  {| _lowercase := lowercase_keys;
     _config := _flatten_dict lowercase_keys config_ |}.

(** [self.as_dict()] *)
Definition as_dict (self : Configuration) : gmap string value := _config self.


(** [self._filter_dict(d, prefix)] *)
Definition _filter_dict (self : Configuration) (d : gmap string value)
  (prefix : string) : gmap string value :=
  dict_update ∅
    (omap (λ kv, if PyStr.startswith kv.1 (prefix +:+ ".")
                 then Some (key_case (_lowercase self)
                              (PyStr.slice_from (String.length prefix + 1) kv.1),
                            kv.2)
                 else None)
          (map_to_list d)).

(** What [_get_subset] returns: a dictionary, or a stored value. *)
Inductive subset :=
| SubDict (d : gmap string value)
| SubValue (v : value).

(** [d.get(k, {})] *)
Definition dict_get_or_empty (d : gmap string value) (k : string) : subset :=
  match d !! k with
  | Some v => SubValue v
  | None => SubDict ∅
  end.

(** The [while prefixes] loop of [_get_subset]. *)
Fixpoint _get_subset_loop (self : Configuration) (d : gmap string value)
  (prefixes : list string) : subset :=
  match prefixes with
  | [] => SubDict d
  | p :: rest =>
      let new_d := _filter_dict self d p in
      if dict_is_empty new_d then
        match rest with
        | [] => dict_get_or_empty d p
        | _ :: _ => SubDict ∅
        end
      else _get_subset_loop self new_d rest
  end.

(** [self._get_subset(prefix)] *)
Definition _get_subset (self : Configuration) (prefix : string) : subset :=
  let d :=
    dict_update ∅
      (omap (λ kv, if PyStr.startswith kv.1 (prefix +:+ ".")
                   then Some (PyStr.slice_from (String.length prefix + 1) kv.1,
                              kv.2)
                   else None)
            (map_to_list (_config self))) in
  if dict_is_empty d then
    let prefixes := PyStr.split "." prefix in
    if bool_decide (length prefixes = 1)
    then dict_get_or_empty (_config self) prefix
    else _get_subset_loop self (_config self) prefixes
  else SubDict d.

(** [self[item]]. The test [v == {}] on a stored [Configuration] calls its
    [__eq__], which asks the dictionary for [as_dict]: [AttributeError]. *)
Definition __getitem__ (self : Configuration) (item : string) : pyresult value :=
  match _get_subset self item with
  | SubDict d =>
      if dict_is_empty d then Raise KeyError
      else Ok (value_of_Configuration (__init__ (dict_as_nested d) false))
  | SubValue (VConf _ _) => Raise AttributeError
  | SubValue v => Ok v
  end.

(** [self.get(key, default)] *)
Definition get (self : Configuration) (key : string) (default : value) : value :=
  match as_dict self !! key with
  | Some v => v
  | None => default
  end.

(** [d.update(other)] for a dictionary [other]. *)
Definition dict_update_dict (d other : gmap string value) : gmap string value :=
  other ∪ d.

(** [self.update(other)] *)
Definition update (self : Configuration) (other : list (string * nested))
  : Configuration :=
  {| _lowercase := _lowercase self;
     _config := dict_update_dict (_config self)
                  (_flatten_dict (_lowercase self) other) |}.

(** [self[key] = value] *)
Definition __setitem__ (self : Configuration) (key : string) (value : nested)
  : Configuration :=
  update self [(key, value)].

(** The keys [del self[prefix]] collects in [remove]. *)
Definition delitem_matches (self : Configuration) (prefix : string) (k : string)
  : bool :=
  let kl := key_case (_lowercase self) k in
  bool_decide (kl = prefix) || PyStr.startswith kl (prefix +:+ ".").

(** [del self[prefix]] *)
Definition __delitem__ (self : Configuration) (prefix : string)
  : pyresult Configuration :=
  let remove :=
    filter (λ k, delitem_matches self prefix k = true)
           ((map_to_list (_config self)).*1) in
  match remove with
  | [] => Raise KeyError
  | _ :: _ =>
      Ok {| _lowercase := _lowercase self;
            _config := foldl (λ d k, delete k d) (_config self) remove |}
  end.

(** ** Casts *)

Definition TRUTH_TEXT : gset string :=
  list_to_set ["t"; "true"; "y"; "yes"; "on"; "1"].
Definition FALSE_TEXT : gset string :=
  list_to_set ["f"; "false"; "n"; "no"; "off"; "0"; ""].

(** [str(c)] of a [Configuration] goes through [__str__], [clean],
    [urllib.parse.urlparse] and the display of a dictionary, which are not
    modelled: it is taken as given. *)
Variable str_Configuration : Configuration → pyresult string.

(** [str(s)] *)
Definition py_str (s : value) : pyresult string :=
  match s with
  | VNone => Ok "None"
  | VBool true => Ok "True"
  | VBool false => Ok "False"
  | VInt z => Ok (pretty z)
  | VStr t => Ok t
  | VConf lc cfg => str_Configuration (mkConfiguration lc cfg)
  end.

(** [as_bool(s)] *)
Definition as_bool (s : value) : pyresult bool :=
  match s with
  | VNone => Ok false
  | VBool b => Ok b
  | _ =>
      t ← py_str s;
      let t := PyStr.lower (PyStr.strip t) in
      if bool_decide (t ∉ TRUTH_TEXT) && bool_decide (t ∉ FALSE_TEXT)
      then Raise ValueError
      else Ok (bool_decide (t ∈ TRUTH_TEXT))
  end.

(** [self.get_bool(item)] *)
Definition get_bool (self : Configuration) (item : string) : pyresult bool :=
  v ← __getitem__ self item; as_bool v.

(** ** Keys and iteration *)

(** What [keys] returns: its own list, or whatever is stored under the name
    [keys]. *)
Inductive keys_result :=
| KeysList (l : list string)
| KeysStored (v : value).

(** [x.split(".")[:levels]] *)
Definition take_levels (levels : option nat) (l : list string) : list string :=
  match levels with
  | None => l
  | Some n => take n l
  end.

(** [self.keys(levels)]: a stored [keys] comes first; otherwise the set of
    the keys cut to [levels] segments, as a list. *)
Definition keys (self : Configuration) (levels : option nat)
  : pyresult keys_result :=
  if bool_decide (levels = Some 0) then Raise AssertionError
  else
    match __getitem__ self "keys" with
    | Ok v => Ok (KeysStored v)
    | Raise KeyError =>
        Ok (KeysList
              (elements
                 (list_to_set
                    ((λ x, PyStr.join "." (take_levels levels (PyStr.split "." x)))
                       <$> elements (dom (as_dict self)))
                  : gset string)))
    | Raise e => Raise e
    end.

(** [iter(self)], that is [iter(self.keys())]: a list yields its elements, a
    string its characters, a [Configuration] what its own [__iter__] yields,
    and nothing else can be iterated. [fuel] bounds the descent through
    stores kept under the name [keys]; [iter_fuel_enough] and
    [__iter___terminates] show that the bound of [__iter__] is never what
    ends it. *)
Fixpoint iter_fuel (fuel : nat) (self : Configuration) : pyresult (list string) :=
  match keys self None with
  | Raise e => Raise e
  | Ok (KeysList l) => Ok l
  | Ok (KeysStored (VStr s)) => Ok (PyStr.chars s)
  | Ok (KeysStored (VConf lc cfg)) =>
      match fuel with
      | O => Raise RecursionError
      | S n => iter_fuel n (mkConfiguration lc cfg)
      end
  | Ok (KeysStored _) => Raise TypeError
  end.

(** The longest key of a dictionary. *)
Definition max_key_length (d : gmap string value) : nat :=
  foldr (λ k n, String.length k `max` n) 0 ((map_to_list d).*1).

Definition __iter__ (self : Configuration) : pyresult (list string) :=
  iter_fuel (max_key_length (_config self)) self.

(** [result.update(v)] for a [Configuration] [v]: a mapping that is no
    dictionary is read through [v.keys()] and [v[k]]. *)
Definition dict_update_Configuration (result : gmap string value)
  (v : Configuration) : pyresult (gmap string value) :=
  ks ← __iter__ v;
  foldl (λ acc k, d ← acc; x ← __getitem__ v k; Ok (<[k := x]> d))
        (Ok result) ks.

(** ** The class [ConfigurationSet] *)

(** The [try] of [_from_configs]: the values of the layers that return, in
    order, and the last exception caught. *)
Definition collect_values (call : Configuration → pyresult value)
  (configs : list Configuration) : list value * exn :=
  foldl (λ st c, match call c with
                 | Ok v => ((st.1 ++ [v])%list, st.2)
                 | Raise e => (st.1, e)
                 end)
        ([], Exception) configs.

(** [for v in vs: if not isinstance(v, Configuration): continue;
    result.update(v)], then [Configuration(result)]. *)
Definition merge_values (vs : list value) : pyresult value :=
  result ← foldl (λ acc v, match v with
                           | VConf lc cfg =>
                               d ← acc;
                               dict_update_Configuration d (mkConfiguration lc cfg)
                           | _ => acc
                           end)
                 (Ok ∅) vs;
  Ok (value_of_Configuration (__init__ (dict_as_nested result) false)).

(** [self._from_configs(attr, args)], with [call c] for the method [attr]
    of the layer [c] applied to [args]. In the first branch every value is a
    [Configuration], so nothing is skipped there. *)
Definition _from_configs (call : Configuration → pyresult value)
  (configs : list Configuration) : pyresult value :=
  let '(values, last_err) := collect_values call configs in
  match values with
  | [] => Raise last_err
  | v0 :: _ =>
      if forallb is_Configuration values then merge_values (reverse values)
      else if is_Configuration v0 then merge_values (reverse values)
      else Ok v0
  end.

(** A [ConfigurationSet] holds references to its layers; the objects live in
    a heap, so that a layer shared with another owner stays shared. *)
Record ConfigurationSet := mkConfigurationSet {
  _configs : list nat;
  _writable : bool
}.

(** The layers of a set, in priority order. *)
Definition layers (h : gmap nat Configuration) (self : ConfigurationSet)
  : list Configuration :=
  omap (λ l, h !! l) (_configs self).

(** [ConfigurationSet(c0, c1, ...)] *)
Definition ConfigurationSet__init__ (configs : list nat)
  : pyresult ConfigurationSet :=
  match configs with
  | [] => Raise ValueError
  | _ :: _ => Ok {| _configs := configs; _writable := false |}
  end.

(** [self[item]] *)
Definition ConfigurationSet__getitem__ (h : gmap nat Configuration)
  (self : ConfigurationSet) (item : string) : pyresult value :=
  _from_configs (λ c, __getitem__ c item) (layers h self).

(** [self.as_dict()] *)
Definition ConfigurationSet_as_dict (h : gmap nat Configuration)
  (self : ConfigurationSet) : gmap string value :=
  foldl (λ result c, dict_update_dict result (as_dict c)) ∅
        (reverse (layers h self)).

(** [self._writable_config()]: the heap and the set afterwards, and the
    reference returned. *)
Definition _writable_config (h : gmap nat Configuration)
  (self : ConfigurationSet)
  : pyresult (gmap nat Configuration * ConfigurationSet * nat) :=
  let '(h1, self1) :=
    if _writable self then (h, self)
    else
      let lowercase :=
        match _configs self with
        | [] => false
        | l0 :: _ => from_option _lowercase false (h !! l0)
        end in
      let l := fresh (dom h) in
      (<[l := __init__ [] lowercase]> h,
       {| _configs := l :: _configs self; _writable := true |}) in
  match _configs self1 with
  | [] => Raise IndexError
  | l0 :: _ => Ok (h1, self1, l0)
  end.

(** [cfg.m(...)] for a method [m] that changes the object behind [l]. *)
Definition heap_apply (f : Configuration → Configuration)
  (h : gmap nat Configuration) (l : nat) : gmap nat Configuration :=
  match h !! l with
  | Some c => <[l := f c]> h
  | None => h
  end.

(** [self[key] = value] *)
Definition ConfigurationSet__setitem__ (h : gmap nat Configuration)
  (self : ConfigurationSet) (key : string) (value : nested)
  : pyresult (gmap nat Configuration * ConfigurationSet) :=
  '(h1, self1, cfg) ← _writable_config h self;
  Ok (heap_apply (λ c, __setitem__ c key value) h1 cfg, self1).

(** [self.update(other)] *)
Definition ConfigurationSet_update (h : gmap nat Configuration)
  (self : ConfigurationSet) (other : list (string * nested))
  : pyresult (gmap nat Configuration * ConfigurationSet) :=
  '(h1, self1, cfg) ← _writable_config h self;
  Ok (heap_apply (λ c, update c other) h1 cfg, self1).

(** ** Dictionaries: lookups after an update *)

Lemma dict_update_app d l1 l2 :
  dict_update d (l1 ++ l2)%list = dict_update (dict_update d l1) l2.
Proof. unfold dict_update. by rewrite foldl_app. Qed.

Lemma dict_update_notin d items k :
  k ∉ items.*1 → dict_update d items !! k = d !! k.
Proof.
  revert d. induction items as [|[k' v'] items IH]; intros d Hk; [done|].
  simpl in *. apply not_elem_of_cons in Hk as [Hne Hk].
  change (dict_update (<[k':=v']> d) items !! k = d !! k).
  rewrite IH by done. by rewrite lookup_insert_ne.
Qed.

Lemma dict_update_nodup d items k v :
  NoDup items.*1 → (k, v) ∈ items → dict_update d items !! k = Some v.
Proof.
  revert d. induction items as [|[k' v'] items IH]; intros d Hnd Hin.
  { by apply elem_of_nil in Hin. }
  simpl in Hnd. apply NoDup_cons in Hnd as [Hk' Hnd].
  change (dict_update (<[k':=v']> d) items !! k = Some v).
  apply elem_of_cons in Hin as [Heq|Hin].
  - injection Heq as -> ->. rewrite dict_update_notin by done.
    apply lookup_insert_eq.
  - by apply IH.
Qed.

Lemma dict_update_lookup_Some d items k v :
  NoDup items.*1 →
  dict_update d items !! k = Some v ↔
  ((k, v) ∈ items ∨ ((k ∉ items.*1) ∧ d !! k = Some v)).
Proof.
  intros Hnd. split.
  - intros H. destruct (decide (k ∈ items.*1)) as [Hin|Hin].
    + left. apply list_elem_of_fmap in Hin as [[k' v'] [-> Hin]]. simpl in *.
      rewrite (dict_update_nodup _ _ _ _ Hnd Hin) in H. by simplify_eq.
    + right. by rewrite dict_update_notin in H.
  - intros [Hin|[Hin Hd]].
    + by apply dict_update_nodup.
    + by rewrite dict_update_notin.
Qed.

Lemma dict_update_map_to_list (d : gmap string value) :
  dict_update ∅ (map_to_list d) = d.
Proof.
  apply map_eq. intros k. apply option_eq. intros v.
  rewrite dict_update_lookup_Some by apply NoDup_fst_map_to_list.
  rewrite elem_of_map_to_list, lookup_empty. naive_solver.
Qed.

Lemma dict_is_empty_true d : dict_is_empty d = true ↔ d = ∅.
Proof.
  unfold dict_is_empty. rewrite <- map_to_list_empty_iff.
  by destruct (map_to_list d).
Qed.

Lemma dict_is_empty_false d : dict_is_empty d = false ↔ d ≠ ∅.
Proof.
  rewrite <- dict_is_empty_true. by destruct (dict_is_empty d).
Qed.

Lemma dict_is_empty_lookup d :
  dict_is_empty d = false ↔ ∃ k v, d !! k = Some v.
Proof.
  rewrite dict_is_empty_false. split.
  - intros H. destruct (map_choose d H) as (k & v & Hkv). eauto.
  - intros (k & v & Hkv) ->. by rewrite lookup_empty in Hkv.
Qed.

(** ** The sub-view under a prefix *)

(** The dictionary comprehension of [_get_subset]: the keys under
    [prefix + "."], with that much cut off. *)
Definition sub_view (d : gmap string value) (prefix : string)
  : gmap string value :=
  dict_update ∅
    (omap (λ kv, if PyStr.startswith kv.1 (prefix +:+ ".")
                 then Some (PyStr.slice_from (String.length prefix + 1) kv.1,
                            kv.2)
                 else None)
          (map_to_list d)).

Lemma length_dot prefix :
  String.length (prefix +:+ ".") = String.length prefix + 1.
Proof. by rewrite string_app_length. Qed.

Lemma sub_view_items_spec d prefix r v :
  (r, v) ∈ omap (λ kv : string * value,
                   if PyStr.startswith kv.1 (prefix +:+ ".")
                   then Some (PyStr.slice_from (String.length prefix + 1) kv.1,
                              kv.2)
                   else None) (map_to_list d)
  ↔ d !! (prefix +:+ "." +:+ r) = Some v.
Proof.
  rewrite list_elem_of_omap. split.
  - intros [[k v'] [Hin Hf]]. simpl in Hf.
    destruct (PyStr.startswith k (prefix +:+ ".")) eqn:Hs; [|done].
    simplify_eq. apply elem_of_map_to_list in Hin.
    apply startswith_split in Hs. rewrite length_dot in Hs.
    by rewrite <- string_app_assoc, <- Hs.
  - intros Hd. exists (prefix +:+ "." +:+ r, v). split.
    + by apply elem_of_map_to_list.
    + simpl. rewrite <- string_app_assoc, startswith_app.
      by rewrite <- length_dot, slice_from_app.
Qed.

Lemma sub_view_items_nodup d prefix :
  NoDup (omap (λ kv : string * value,
                 if PyStr.startswith kv.1 (prefix +:+ ".")
                 then Some (PyStr.slice_from (String.length prefix + 1) kv.1,
                            kv.2)
                 else None) (map_to_list d)).*1.
Proof.
  pose proof (NoDup_fst_map_to_list d) as Hnd.
  induction (map_to_list d) as [|[k v] l IH]; simpl; [constructor|].
  simpl in Hnd. apply NoDup_cons in Hnd as [Hk Hnd].
  destruct (PyStr.startswith k (prefix +:+ ".")) eqn:Hs; simpl; [|by apply IH].
  apply NoDup_cons. split; [|by apply IH].
  intros Hin. apply list_elem_of_fmap in Hin as [[r v'] [Hr Hin]]. simpl in Hr.
  apply list_elem_of_omap in Hin as [[k' v''] [Hin Hf]]. simpl in Hf.
  destruct (PyStr.startswith k' (prefix +:+ ".")) eqn:Hs'; [|done].
  simplify_eq. apply Hk. apply list_elem_of_fmap. exists (k', v').
  split; [|done]. simpl.
  apply startswith_split in Hs, Hs'. rewrite length_dot in Hs, Hs'.
  rewrite Hs, Hs'. by f_equal.
Qed.

Lemma sub_view_lookup d prefix r :
  sub_view d prefix !! r = d !! (prefix +:+ "." +:+ r).
Proof.
  apply option_eq. intros v. unfold sub_view.
  rewrite dict_update_lookup_Some by apply sub_view_items_nodup.
  rewrite sub_view_items_spec, lookup_empty. naive_solver.
Qed.

Lemma sub_view_empty_iff d prefix :
  sub_view d prefix = ∅ ↔
  ∀ k, is_Some (d !! k) → PyStr.startswith k (prefix +:+ ".") = false.
Proof.
  split.
  - intros He k [v Hk]. destruct (PyStr.startswith k (prefix +:+ ".")) eqn:Hs; [|done].
    apply startswith_split in Hs. rewrite Hs, string_app_assoc in Hk.
    rewrite <- sub_view_lookup, He, lookup_empty in Hk. done.
  - intros H. apply map_eq. intros r. rewrite sub_view_lookup, lookup_empty.
    destruct (d !! (prefix +:+ "." +:+ r)) eqn:Hd; [|done].
    specialize (H _ (mk_is_Some _ _ Hd)).
    by rewrite <- string_app_assoc, startswith_app in H.
Qed.

(** ** Case-folded stores *)

(** The invariant of a store: under [_lowercase] every key is its own
    lower-case form. The constructor sets it up and every method keeps it. *)
Definition keys_folded (lowercase : bool) (d : gmap string value) : Prop :=
  lowercase = true → ∀ k, is_Some (d !! k) → PyStr.lower k = k.

Definition wf (self : Configuration) : Prop :=
  keys_folded (_lowercase self) (_config self).

Lemma lower_slice_from n k :
  PyStr.lower k = k → PyStr.lower (PyStr.slice_from n k) = PyStr.slice_from n k.
Proof.
  revert k. induction n as [|n IH]; intros k Hk; [done|].
  destruct k as [|c k]; [done|]. simpl in *. apply IH. by injection Hk.
Qed.

Lemma key_case_false k : key_case false k = k.
Proof. done. Qed.

Lemma keys_folded_false d : keys_folded false d.
Proof. by intros ?. Qed.

Lemma keys_folded_sub_view lowercase d prefix :
  keys_folded lowercase d → keys_folded lowercase (sub_view d prefix).
Proof.
  intros Hd Hlc r [v Hr]. rewrite sub_view_lookup in Hr.
  specialize (Hd Hlc _ (mk_is_Some _ _ Hr)).
  rewrite <- (slice_from_app (prefix +:+ ".") r).
  rewrite <- string_app_assoc in Hd. by apply lower_slice_from.
Qed.

Lemma omap_ext_in {A B} (f g : A → option B) (l : list A) :
  (∀ x, x ∈ l → f x = g x) → omap f l = omap g l.
Proof.
  induction l as [|x l IH]; intros H; [done|]. csimpl.
  rewrite (H x) by apply list_elem_of_here.
  rewrite IH; [done|]. intros y Hy. apply H. by apply list_elem_of_further.
Qed.

Lemma _filter_dict_sub_view self d prefix :
  keys_folded (_lowercase self) d →
  _filter_dict self d prefix = sub_view d prefix.
Proof.
  intros Hd. unfold _filter_dict, sub_view. f_equal.
  apply omap_ext_in. intros [k v] Hin. simpl.
  destruct (PyStr.startswith k (prefix +:+ ".")); [|done].
  do 2 f_equal. unfold key_case.
  destruct (_lowercase self) eqn:Hlc; [|done].
  apply lower_slice_from, Hd; [done|].
  apply elem_of_map_to_list in Hin. eauto.
Qed.

Lemma dict_get_or_empty_None d k :
  d !! k = None → dict_get_or_empty d k = SubDict ∅.
Proof. unfold dict_get_or_empty. by intros ->. Qed.

(** The loop of [_get_subset] walks down the segments of the path; when no
    key lies under the whole path, it ends in the exact lookup. *)
Lemma _get_subset_loop_exact self cfg d pre prefixes :
  keys_folded (_lowercase self) d →
  (∀ r, d !! r = cfg !! (pre +:+ r)) →
  prefixes ≠ [] →
  sub_view cfg (pre +:+ PyStr.join "." prefixes) = ∅ →
  _get_subset_loop self d prefixes =
  dict_get_or_empty cfg (pre +:+ PyStr.join "." prefixes).
Proof.
  revert d pre. induction prefixes as [|p rest IH]; intros d pre Hf Hd Hne He; [done|].
  cbn [_get_subset_loop]. rewrite _filter_dict_sub_view by done.
  assert (∀ r, sub_view d p !! r = cfg !! ((pre +:+ p +:+ ".") +:+ r)) as Hnew.
  { intros r. rewrite sub_view_lookup, Hd. by rewrite !string_app_assoc. }
  destruct rest as [|p2 rest].
  - simpl in *.
    assert (sub_view d p = ∅) as ->.
    { apply map_eq. intros r. rewrite Hnew, lookup_empty.
      rewrite <- (lookup_empty (M:=gmap string) (A:=value) r), <- He.
      rewrite sub_view_lookup. by rewrite !string_app_assoc. }
    assert (dict_is_empty (∅ : gmap string value) = true) as ->
      by by apply dict_is_empty_true.
    unfold dict_get_or_empty. by rewrite Hd.
  - destruct (dict_is_empty (sub_view d p)) eqn:Hemp.
    + apply dict_is_empty_true in Hemp. symmetry. apply dict_get_or_empty_None.
      rewrite join_cons. rewrite <- !string_app_assoc.
      rewrite (string_app_assoc pre p "."). rewrite <- Hnew, Hemp.
      apply lookup_empty.
    + rewrite (IH (sub_view d p) (pre +:+ p +:+ ".")).
      * rewrite join_cons. by rewrite !string_app_assoc.
      * by apply keys_folded_sub_view.
      * done.
      * done.
      * rewrite join_cons in He. by rewrite !string_app_assoc in *.
Qed.

(** [_get_subset]: the sub-view when some key lies under the path, the exact
    lookup otherwise. *)
Lemma _get_subset_spec self prefix :
  wf self →
  _get_subset self prefix =
  if dict_is_empty (sub_view (_config self) prefix)
  then dict_get_or_empty (_config self) prefix
  else SubDict (sub_view (_config self) prefix).
Proof.
  intros Hwf. unfold _get_subset. fold (sub_view (_config self) prefix).
  destruct (dict_is_empty (sub_view (_config self) prefix)) eqn:Hemp; [|done].
  case_bool_decide; [done|].
  apply dict_is_empty_true in Hemp.
  rewrite (_get_subset_loop_exact self (_config self) (_config self) "").
  - by rewrite string_app_nil_l, join_split.
  - done.
  - done.
  - apply split_nonempty.
  - by rewrite string_app_nil_l, join_split.
Qed.

Lemma _get_subset_prefix_first self prefix :
  sub_view (_config self) prefix ≠ ∅ →
  _get_subset self prefix = SubDict (sub_view (_config self) prefix).
Proof.
  intros Hne. unfold _get_subset. fold (sub_view (_config self) prefix).
  apply dict_is_empty_false in Hne. by rewrite Hne.
Qed.

(** ** Flattening *)

Lemma set_order_perm {A} (l : list (string * A)) : set_order l ≡ₚ l.
Proof. apply merge_sort_Permutation. Qed.

Lemma set_order_nil {A} : set_order ([] : list (string * A)) = [].
Proof. done. Qed.

Lemma dict_update_lookup_inv d items k v :
  dict_update d items !! k = Some v → (k, v) ∈ items ∨ d !! k = Some v.
Proof.
  revert d. induction items as [|[k' v'] items IH]; intros d H; [by right|].
  change (dict_update (<[k':=v']> d) items !! k = Some v) in H.
  apply IH in H as [H|H].
  - left. by apply list_elem_of_further.
  - destruct (decide (k' = k)) as [->|Hne].
    + rewrite lookup_insert_eq in H. injection H as ->. left. apply list_elem_of_here.
    + rewrite lookup_insert_ne in H by done. by right.
Qed.

Lemma nested_items_dict_as_nested lowercase d :
  nested_items lowercase (dict_as_nested d) = [].
Proof.
  unfold dict_as_nested. induction (map_to_list d) as [|[k v] l IH]; [done|].
  by rewrite fmap_cons.
Qed.

Lemma scalar_items_dict_as_nested lowercase d :
  scalar_items lowercase (dict_as_nested d) =
  (λ kv, (key_case lowercase kv.1, kv.2)) <$> map_to_list d.
Proof.
  unfold dict_as_nested. induction (map_to_list d) as [|[k v] l IH]; [done|].
  rewrite !fmap_cons. cbn [scalar_items fst snd]. by rewrite IH.
Qed.

(** A flat dictionary whose keys are folded is flattened to itself. *)
Lemma _flatten_dict_flat lowercase d :
  keys_folded lowercase d →
  _flatten_dict lowercase (dict_as_nested d) = d.
Proof.
  intros Hd. rewrite _flatten_dict_unfold.
  rewrite nested_items_dict_as_nested, set_order_nil. simpl.
  rewrite scalar_items_dict_as_nested.
  rewrite <- (dict_update_map_to_list d) at 2. f_equal.
  rewrite <- (list_fmap_id (map_to_list d)) at 2.
  apply list_fmap_ext. intros i [k v] Hin%list_elem_of_lookup_2. simpl. f_equal.
  unfold key_case. destruct lowercase; [|done].
  apply Hd; [done|]. apply elem_of_map_to_list in Hin. eauto.
Qed.

Lemma key_case_idemp lowercase k :
  key_case lowercase (key_case lowercase k) = key_case lowercase k.
Proof. destruct lowercase; [apply lower_idemp|done]. Qed.

Lemma scalar_items_keys lowercase d k v :
  (k, v) ∈ scalar_items lowercase d → key_case lowercase k = k.
Proof.
  induction d as [|[k' [v'|sub]] d IH]; simpl; intros Hin.
  - by apply elem_of_nil in Hin.
  - apply elem_of_cons in Hin as [Heq|Hin]; [|by apply IH].
    injection Heq as -> ->. apply key_case_idemp.
  - by apply IH.
Qed.

(** Induction on a nested mapping, through the items of a dictionary. *)
Fixpoint nested_rect' (P : nested → Prop)
  (Hleaf : ∀ v, P (Leaf v))
  (Hdict : ∀ items, Forall (λ kv, P kv.2) items → P (Dict items))
  (n : nested) : P n :=
  match n with
  | Leaf v => Hleaf v
  | Dict items =>
      Hdict items
        ((fix go (its : list (string * nested)) : Forall (λ kv, P kv.2) its :=
            match its with
            | [] => Forall_nil_2 _
            | kv :: rest =>
                Forall_cons_2 _ _ _ (nested_rect' P Hleaf Hdict kv.2) (go rest)
            end) items)
  end.

Lemma nested_items_elem lowercase d k sub :
  (k, sub) ∈ nested_items lowercase d →
  ∃ items, (k, Dict items) ∈ d ∧ sub = _flatten_dict lowercase items.
Proof.
  induction d as [|[k' [v'|items]] d IH]; simpl; intros Hin.
  - by apply elem_of_nil in Hin.
  - destruct (IH Hin) as (its & ? & ?). exists its. split; [|done].
    by apply list_elem_of_further.
  - apply elem_of_cons in Hin as [Heq|Hin].
    + injection Heq as -> ->. exists items. split; [|done]. apply list_elem_of_here.
    + destruct (IH Hin) as (its & ? & ?). exists its. split; [|done].
      by apply list_elem_of_further.
Qed.

(** Where a key of a flattened dictionary comes from. *)
Lemma _flatten_dict_lookup_inv lowercase d key v :
  _flatten_dict lowercase d !! key = Some v →
  (key, v) ∈ scalar_items lowercase d ∨
  ∃ k items ki, (k, Dict items) ∈ d ∧
                _flatten_dict lowercase items !! ki = Some v ∧
                key = key_case lowercase k +:+ "." +:+ ki.
Proof.
  rewrite _flatten_dict_unfold. intros H.
  apply dict_update_lookup_inv in H as [H|H]; [by left|right].
  apply dict_update_lookup_inv in H as [H|H]; [|by rewrite lookup_empty in H].
  apply list_elem_of_In, in_concat in H as (l & Hl & Hin).
  apply list_elem_of_In, list_elem_of_fmap in Hl as ([k sub] & -> & Hks).
  rewrite set_order_perm in Hks.
  apply nested_items_elem in Hks as (items & Hd & ->).
  apply list_elem_of_In in Hin. unfold prefixed_items in Hin. simpl in Hin.
  apply list_elem_of_fmap in Hin as ([ki vi] & Heq & Hki). simpl in Heq.
  injection Heq as -> ->. apply elem_of_map_to_list in Hki.
  by exists k, items, ki.
Qed.

(** Every key the flattening stores is folded. *)
Lemma _flatten_dict_keys_folded lowercase d :
  keys_folded lowercase (_flatten_dict lowercase d).
Proof.
  intros Hlc. subst lowercase.
  change (∀ k, is_Some (flatten_nested true (Dict d) !! k) → PyStr.lower k = k).
  induction (Dict d) as [v|items IH] using nested_rect'; intros key [v' Hkey].
  { simpl in Hkey. by rewrite lookup_empty in Hkey. }
  change (_flatten_dict true items !! key = Some v') in Hkey.
  apply _flatten_dict_lookup_inv in Hkey as [Hs|(k & its & ki & Hin & Hki & ->)].
  - by apply scalar_items_keys in Hs.
  - rewrite Forall_forall in IH. specialize (IH _ Hin ki (mk_is_Some _ _ Hki)).
    simpl. by rewrite !lower_app, lower_idemp, IH.
Qed.

Lemma __init___wf config_ lowercase_keys : wf (__init__ config_ lowercase_keys).
Proof. apply _flatten_dict_keys_folded. Qed.

Lemma update_wf self other : wf self → wf (update self other).
Proof.
  intros Hwf Hlc k [v Hk]. simpl in *. unfold dict_update_dict in Hk.
  apply lookup_union_Some_raw in Hk as [Hk|[_ Hk]].
  - by apply (_flatten_dict_keys_folded (_lowercase self) other Hlc k).
  - by apply (Hwf Hlc k).
Qed.

(** ** Reading a store *)

Lemma value_of_sub_view d :
  value_of_Configuration (__init__ (dict_as_nested d) false) = VConf false d.
Proof.
  unfold value_of_Configuration, __init__. simpl.
  by rewrite _flatten_dict_flat by apply keys_folded_false.
Qed.

(** [self[item]] on a store that keeps its invariant: the sub-view when some
    key lies under [item + "."], the exact lookup otherwise. *)
Lemma __getitem___spec self item :
  wf self →
  __getitem__ self item =
  if dict_is_empty (sub_view (_config self) item)
  then match _config self !! item with
       | Some (VConf _ _) => Raise AttributeError
       | Some v => Ok v
       | None => Raise KeyError
       end
  else Ok (VConf false (sub_view (_config self) item)).
Proof.
  intros Hwf. unfold __getitem__. rewrite _get_subset_spec by done.
  destruct (dict_is_empty (sub_view (_config self) item)) eqn:Hemp.
  - unfold dict_get_or_empty. destruct (_config self !! item) as [v|]; [done|].
    assert (dict_is_empty (∅ : gmap string value) = true) as ->
      by by apply dict_is_empty_true.
    done.
  - by rewrite Hemp, value_of_sub_view.
Qed.

Lemma __getitem___prefix_first self item :
  sub_view (_config self) item ≠ ∅ →
  __getitem__ self item = Ok (VConf false (sub_view (_config self) item)).
Proof.
  intros Hne. unfold __getitem__. rewrite _get_subset_prefix_first by done.
  apply dict_is_empty_false in Hne. by rewrite Hne, value_of_sub_view.
Qed.

(** C1, as the code has it. On a store that keeps its case-folding invariant,
    [self[path]] looks for the keys under [path + "."] first: if there is
    one, the result is the sub-store of those keys with the prefix cut off,
    also when [path] itself is a stored key; only when there is none is the
    value stored at the exact key [path] returned; and when there is
    neither, the read fails with [KeyError]. *)
Theorem C1_getitem_prefix_before_exact self path :
  wf self →
  (sub_view (_config self) path ≠ ∅ →
     __getitem__ self path = Ok (VConf false (sub_view (_config self) path))
     ∧ ∀ r, sub_view (_config self) path !! r
            = _config self !! (path +:+ "." +:+ r))
  ∧ (sub_view (_config self) path = ∅ →
     ∀ v, _config self !! path = Some v → is_Configuration v = false →
          __getitem__ self path = Ok v)
  ∧ (sub_view (_config self) path = ∅ → _config self !! path = None →
     __getitem__ self path = Raise KeyError).
Proof.
  intros Hwf. split; [|split].
  - intros Hne. split; [by apply __getitem___prefix_first|].
    intros r. apply sub_view_lookup.
  - intros He v Hv Hc. rewrite __getitem___spec by done.
    apply dict_is_empty_true in He. rewrite He, Hv. by destruct v.
  - intros He Hv. rewrite __getitem___spec by done.
    apply dict_is_empty_true in He. by rewrite He, Hv.
Qed.

(** C9. [self.get(key, default)] is a lookup of the exact flat key with a
    default: it returns the stored value when [key] is a stored key and
    [default] otherwise, and it has no failing case. When keys are stored
    under [key + "."] and [key] itself is not, it returns [default], where
    [self[key]] returns the sub-view. *)
Theorem C9_get_exact_keys_only self key default :
  get self key default = from_option id default (_config self !! key)
  ∧ (∀ v, _config self !! key = Some v → get self key default = v)
  ∧ (_config self !! key = None → get self key default = default)
  ∧ (_config self !! key = None → sub_view (_config self) key ≠ ∅ →
     get self key default = default
     ∧ __getitem__ self key = Ok (VConf false (sub_view (_config self) key))).
Proof.
  unfold get, as_dict. split; [|split; [|split]].
  - by destruct (_config self !! key).
  - by intros v ->.
  - by intros ->.
  - intros -> Hne. split; [done|]. by apply __getitem___prefix_first.
Qed.

(** ** Writing to a store *)

Lemma _flatten_dict_single lowercase k v :
  _flatten_dict lowercase [(k, Leaf v)] = {[key_case lowercase k := v]}.
Proof. rewrite _flatten_dict_unfold. simpl. by rewrite insert_empty. Qed.

Lemma __setitem___scalar self k v :
  _config (__setitem__ self k (Leaf v))
  = <[key_case (_lowercase self) k := v]> (_config self).
Proof.
  unfold __setitem__, update, dict_update_dict. simpl.
  by rewrite _flatten_dict_single, insert_union_singleton_l.
Qed.

Lemma not_own_prefix k r : k ≠ k +:+ "." +:+ r.
Proof.
  intros H. apply (f_equal String.length) in H.
  rewrite !string_app_length in H. simpl in H. lia.
Qed.

Lemma sub_view_insert_self d k v : sub_view (<[k := v]> d) k = sub_view d k.
Proof.
  apply map_eq. intros r. rewrite !sub_view_lookup.
  apply lookup_insert_ne, not_own_prefix.
Qed.

(** C3, as the code has it. A key that is neither stored nor a prefix of a
    stored key cannot be read: [KeyError]. After [self[k] = v] with a value
    [v] that is neither a dictionary nor a [Configuration], on a store that
    holds no key under [k + "."] and whose case-folding leaves [k] as it is,
    [self[k]] returns [v]. *)
Theorem C3_absent_key_and_set_then_get self k :
  wf self →
  (_config self !! k = None → sub_view (_config self) k = ∅ →
     __getitem__ self k = Raise KeyError)
  ∧ (∀ v, is_Configuration v = false →
          key_case (_lowercase self) k = k →
          sub_view (_config self) k = ∅ →
          __getitem__ (__setitem__ self k (Leaf v)) k = Ok v).
Proof.
  intros Hwf. split.
  - intros Hk He. rewrite __getitem___spec by done.
    apply dict_is_empty_true in He. by rewrite He, Hk.
  - intros v Hv Hcase He.
    rewrite __getitem___spec by by apply update_wf.
    rewrite __setitem___scalar, Hcase, sub_view_insert_self.
    apply dict_is_empty_true in He. rewrite He, lookup_insert_eq.
    by destruct v.
Qed.

(** C7, as the code has it. Flattening is idempotent: with either
    case-folding setting, the flat dictionary that [_flatten_dict] returns is
    flattened to itself. A dictionary that is already flat is returned as it
    is when case-folding is off, and when its keys are lower-case already. *)
Theorem C7_flatten_idempotent lowercase m :
  _flatten_dict lowercase (dict_as_nested (_flatten_dict lowercase m))
  = _flatten_dict lowercase m
  ∧ (∀ d, _flatten_dict false (dict_as_nested d) = d)
  ∧ (∀ d, keys_folded lowercase d →
          _flatten_dict lowercase (dict_as_nested d) = d).
Proof.
  split; [|split].
  - apply _flatten_dict_flat, _flatten_dict_keys_folded.
  - intros d. apply _flatten_dict_flat, keys_folded_false.
  - intros d. apply _flatten_dict_flat.
Qed.

(** ** Deleting from a store *)

(** [k] is [prefix] or lies under [prefix + "."]. *)
Definition under (prefix k : string) : bool :=
  bool_decide (k = prefix) || PyStr.startswith k (prefix +:+ ".").

Lemma foldl_delete_lookup (d : gmap string value) (l : list string) k :
  foldl (λ d k, delete k d) d l !! k = if decide (k ∈ l) then None else d !! k.
Proof.
  revert d. induction l as [|x l IH]; intros d.
  { destruct (decide (k ∈ [])) as [Hin|_]; [|done]. by apply elem_of_nil in Hin. }
  cbn [foldl]. rewrite IH.
  destruct (decide (k ∈ l)) as [Hin|Hin]; destruct (decide (k ∈ x :: l)) as [Hin'|Hin'].
  - done.
  - exfalso. apply Hin'. by apply list_elem_of_further.
  - apply elem_of_cons in Hin' as [->|?]; [|done]. apply lookup_delete_eq.
  - apply lookup_delete_ne. intros ->. apply Hin', list_elem_of_here.
Qed.

Lemma foldl_delete_lookup_Some (d : gmap string value) (l : list string) k v :
  foldl (λ d k, delete k d) d l !! k = Some v → d !! k = Some v.
Proof. rewrite foldl_delete_lookup. by case_decide. Qed.

Lemma delitem_matches_under self prefix k :
  wf self → is_Some (_config self !! k) →
  delitem_matches self prefix k = under prefix k.
Proof.
  intros Hwf Hk. unfold delitem_matches, under, key_case.
  destruct (_lowercase self) eqn:Hlc; [|done].
  by rewrite (Hwf Hlc k Hk).
Qed.

Lemma elem_of_delitem_remove self prefix k :
  wf self →
  k ∈ filter (λ k, delitem_matches self prefix k = true)
             ((map_to_list (_config self)).*1)
  ↔ is_Some (_config self !! k) ∧ under prefix k = true.
Proof.
  intros Hwf. rewrite list_elem_of_filter.
  assert (k ∈ (map_to_list (_config self)).*1 ↔ is_Some (_config self !! k))
    as ->.
  { rewrite list_elem_of_fmap. split.
    - intros [[k' v] [-> Hin%elem_of_map_to_list]]. eauto.
    - intros [v Hv]. exists (k, v). by rewrite elem_of_map_to_list. }
  split.
  - intros [Hm Hk]. split; [done|]. by rewrite <- (delitem_matches_under self).
  - intros [Hk Hu]. split; [|done]. by rewrite (delitem_matches_under self).
Qed.

Lemma __delitem___wf self prefix self' :
  wf self → __delitem__ self prefix = Ok self' → wf self'.
Proof.
  intros Hwf. unfold __delitem__.
  destruct (filter _ _) as [|x l] eqn:Hrem; [done|].
  intros [= <-] Hlc k [v Hk]. cbn [_config _lowercase] in Hlc, Hk.
  apply foldl_delete_lookup_Some, lookup_delete_Some in Hk as [_ Hk].
  apply (Hwf Hlc k). eauto.
Qed.

(** C5. On a store that keeps its case-folding invariant, [del self[path]]
    fails with [KeyError] exactly when no stored key is [path] or lies under
    [path + "."]; otherwise it removes exactly those keys and leaves every
    other key with its value. *)
Theorem C5_delitem_removes_key_and_prefix self path :
  wf self →
  (__delitem__ self path = Raise KeyError
   ↔ ∀ k, is_Some (_config self !! k) → under path k = false)
  ∧ (∀ k, is_Some (_config self !! k) → under path k = true →
     ∃ self', __delitem__ self path = Ok self'
              ∧ _lowercase self' = _lowercase self
              ∧ ∀ k', _config self' !! k'
                      = if under path k' then None else _config self !! k').
Proof.
  intros Hwf. pose proof (elem_of_delitem_remove self path) as Hrem.
  unfold __delitem__.
  destruct (filter _ _) as [|x l] eqn:Hf.
  - split.
    + split; [|done]. intros _ k Hk.
      destruct (under path k) eqn:Hu; [|done].
      exfalso. eapply not_elem_of_nil, (Hrem k Hwf). eauto.
    + intros k Hk Hu. exfalso. eapply not_elem_of_nil, (Hrem k Hwf). eauto.
  - split.
    + split; [done|]. intros H. exfalso.
      assert (x ∈ x :: l) as Hx by apply list_elem_of_here.
      apply (Hrem x Hwf) in Hx as [Hk Hu]. by rewrite (H x Hk) in Hu.
    + intros k Hk Hu. eexists. split; [done|]. split; [done|].
      intros k'. cbn [_config]. rewrite foldl_delete_lookup.
      destruct (decide (k' ∈ x :: l)) as [Hin|Hin].
      * apply (Hrem k' Hwf) in Hin as [_ ->]. done.
      * destruct (under path k') eqn:Hu'; [|done].
        destruct (_config self !! k') eqn:Hk'; [|done].
        exfalso. apply Hin, (Hrem k' Hwf). eauto.
Qed.

(** ** The boolean cast *)

(** When [self[item]] is a string, [get_bool] decides on that string as
    [as_bool] prepares it. *)
Lemma get_bool_of_string self item s :
  __getitem__ self item = Ok (VStr s) →
  get_bool self item =
  if bool_decide (PyStr.lower (PyStr.strip s) ∈ TRUTH_TEXT) then Ok true
  else if bool_decide (PyStr.lower (PyStr.strip s) ∈ FALSE_TEXT) then Ok false
  else Raise ValueError.
Proof.
  intros H. unfold get_bool. rewrite H. simpl.
  destruct (decide (PyStr.lower (PyStr.strip s) ∈ TRUTH_TEXT)) as [Ht|Ht].
  - rewrite (bool_decide_eq_true_2 _ Ht).
    by rewrite (bool_decide_eq_false_2 (_ ∉ TRUTH_TEXT)) by (by intros ?).
  - rewrite (bool_decide_eq_false_2 _ Ht).
    rewrite (bool_decide_eq_true_2 (_ ∉ TRUTH_TEXT)) by done.
    destruct (decide (PyStr.lower (PyStr.strip s) ∈ FALSE_TEXT)) as [Hf|Hf].
    + rewrite (bool_decide_eq_true_2 _ Hf).
      by rewrite (bool_decide_eq_false_2 (_ ∉ FALSE_TEXT)) by (by intros ?).
    + rewrite (bool_decide_eq_false_2 _ Hf).
      by rewrite (bool_decide_eq_true_2 (_ ∉ FALSE_TEXT)) by done.
Qed.

(** *** What the claim calls trimmed and lower-cased

    These definitions follow the words of the claim, not the code: the cast
    is compared with them. *)

(** The white space that trimming removes, by code point: tab, line feed,
    vertical tab, form feed, carriage return, the separators U+001C to
    U+001F, the space, U+0085 and U+00A0. *)
Definition WHITE_SPACE : list ascii :=
  ascii_of_nat <$> [9; 10; 11; 12; 13; 28; 29; 30; 31; 32; 133; 160]%nat.

(** A string of white space only. *)
Definition blank (s : string) : Prop :=
  Forall (λ c, c ∈ WHITE_SPACE) (String.list_ascii_of_string s).

(** [t] is [s] trimmed: [s] is [t] between two runs of white space, and [t]
    neither starts nor ends with white space. *)
Definition trimmed (s t : string) : Prop :=
  ∃ l r, s = l +:+ t +:+ r ∧ blank l ∧ blank r
         ∧ (∀ c t', t = String c t' → c ∉ WHITE_SPACE)
         ∧ (∀ t' c, t = t' +:+ String c "" → c ∉ WHITE_SPACE).

Definition UPPER_CASE : string := "ABCDEFGHIJKLMNOPQRSTUVWXYZ".
Definition LOWER_CASE : string := "abcdefghijklmnopqrstuvwxyz".

(** The letter of [lower] at the place of [c] in [upper]; [c] itself when it
    is not in [upper]. *)
Fixpoint lower_letter (upper lower : string) (c : ascii) : ascii :=
  match upper, lower with
  | String a upper', String b lower' =>
      if bool_decide (c = a) then b else lower_letter upper' lower' c
  | _, _ => c
  end.

(** [t] lower-cased, letter by letter through the two alphabets. The words
    of the cast hold no letter outside a to z, so the case of a letter
    outside A to Z cannot produce one of them. *)
Fixpoint lowercased (t : string) : string :=
  match t with
  | EmptyString => EmptyString
  | String c t' => String (lower_letter UPPER_CASE LOWER_CASE c) (lowercased t')
  end.

Lemma isspace_WHITE_SPACE c : PyStr.isspace c = true ↔ c ∈ WHITE_SPACE.
Proof.
  rewrite <- (bool_decide_eq_true (c ∈ WHITE_SPACE)).
  assert (PyStr.isspace c = bool_decide (c ∈ WHITE_SPACE)) as ->; [|done].
  destruct c as [[] [] [] [] [] [] [] []]; vm_compute; reflexivity.
Qed.

Lemma isspace_not_WHITE_SPACE c : PyStr.isspace c = false ↔ c ∉ WHITE_SPACE.
Proof.
  rewrite <- isspace_WHITE_SPACE. by destruct (PyStr.isspace c).
Qed.

Lemma blank_nil : blank "".
Proof. constructor. Qed.

Lemma blank_cons c s : blank (String c s) ↔ c ∈ WHITE_SPACE ∧ blank s.
Proof.
  unfold blank. cbn [String.list_ascii_of_string]. by rewrite Forall_cons.
Qed.

Lemma lstrip_blank r : blank r → PyStr.lstrip r = "".
Proof.
  induction r as [|c r IH]; [done|]. intros [Hc Hr]%blank_cons.
  cbn [PyStr.lstrip]. apply isspace_WHITE_SPACE in Hc as ->. by apply IH.
Qed.

Lemma lstrip_blank_app l x :
  blank l → PyStr.lstrip (l +:+ x) = PyStr.lstrip x.
Proof.
  induction l as [|c l IH]; [done|]. intros [Hc Hl]%blank_cons.
  rewrite string_app_cons. cbn [PyStr.lstrip].
  apply isspace_WHITE_SPACE in Hc as ->. by apply IH.
Qed.

Lemma rstrip_blank r : blank r → PyStr.rstrip r = "".
Proof.
  induction r as [|c r IH]; [done|]. intros [Hc Hr]%blank_cons.
  cbn [PyStr.rstrip]. rewrite IH by done.
  by apply isspace_WHITE_SPACE in Hc as ->.
Qed.

Lemma rstrip_app_blank t r :
  blank r → PyStr.rstrip (t +:+ r) = PyStr.rstrip t.
Proof.
  intros Hr. induction t as [|c t IH]; [by apply rstrip_blank|].
  rewrite string_app_cons. cbn [PyStr.rstrip]. by rewrite IH.
Qed.

Lemma rstrip_clean t :
  (∀ t' c, t = t' +:+ String c "" → c ∉ WHITE_SPACE) → PyStr.rstrip t = t.
Proof.
  induction t as [|a t IH]; [done|]. intros Hend. cbn [PyStr.rstrip].
  rewrite IH.
  - destruct t as [|b t]; [|done].
    assert (PyStr.isspace a = false) as ->; [|done].
    apply isspace_not_WHITE_SPACE, (Hend ""). reflexivity.
  - intros t' c ->. apply (Hend (String a t')). reflexivity.
Qed.

Lemma trimmed_strip s t : trimmed s t → PyStr.strip s = t.
Proof.
  intros (l & r & -> & Hl & Hr & Hhead & Hend). unfold PyStr.strip.
  rewrite lstrip_blank_app by done. destruct t as [|c t].
  - rewrite string_app_nil_l, lstrip_blank by done. reflexivity.
  - rewrite string_app_cons. cbn [PyStr.lstrip].
    assert (PyStr.isspace c = false) as ->.
    { apply isspace_not_WHITE_SPACE. by apply (Hhead c t). }
    rewrite <- string_app_cons, rstrip_app_blank by done.
    by apply rstrip_clean.
Qed.

Lemma lstrip_split s : ∃ l, s = l +:+ PyStr.lstrip s ∧ blank l.
Proof.
  induction s as [|c s (l & Hs & Hl)]; [exists ""; split; [done|apply blank_nil]|].
  cbn [PyStr.lstrip]. destruct (PyStr.isspace c) eqn:Hc.
  - exists (String c l). rewrite string_app_cons, <- Hs. split; [done|].
    apply blank_cons. split; [|done]. by apply isspace_WHITE_SPACE.
  - exists "". split; [done|apply blank_nil].
Qed.

Lemma rstrip_split u : ∃ r, u = PyStr.rstrip u +:+ r ∧ blank r.
Proof.
  induction u as [|a u (r & Hu & Hr)]; [exists ""; split; [done|apply blank_nil]|].
  cbn [PyStr.rstrip]. destruct (PyStr.rstrip u) as [|b t] eqn:Ht.
  - rewrite string_app_nil_l in Hu. subst r.
    destruct (PyStr.isspace a) eqn:Ha.
    + exists (String a u). split; [done|]. apply blank_cons.
      split; [|done]. by apply isspace_WHITE_SPACE.
    + by exists u.
  - exists r. by rewrite !string_app_cons, <- string_app_cons, <- Hu.
Qed.

Lemma lstrip_head s c t : PyStr.lstrip s = String c t → PyStr.isspace c = false.
Proof.
  induction s as [|a s IH]; [done|]. cbn [PyStr.lstrip].
  destruct (PyStr.isspace a) eqn:Ha; [done|]. by intros [= <- _].
Qed.

Lemma rstrip_head u c t : PyStr.rstrip u = String c t → ∃ u', u = String c u'.
Proof.
  destruct u as [|a u]; [done|]. cbn [PyStr.rstrip].
  destruct (PyStr.rstrip u).
  - destruct (PyStr.isspace a); [done|]. intros [= <- _]. by exists u.
  - intros [= <- _]. by exists u.
Qed.

Lemma rstrip_last u t c :
  PyStr.rstrip u = t +:+ String c "" → PyStr.isspace c = false.
Proof.
  revert t. induction u as [|a u IH]; intros t.
  { by destruct t. }
  cbn [PyStr.rstrip]. destruct (PyStr.rstrip u) as [|b r] eqn:Hr.
  - destruct (PyStr.isspace a) eqn:Ha; [by destruct t|].
    destruct t as [|x [|y t]]; [|done|done]. by intros [= <-].
  - destruct t as [|x t]; [done|]. rewrite string_app_cons.
    intros [= _ Ht]. by apply (IH t).
Qed.

Lemma strip_trimmed s : trimmed s (PyStr.strip s).
Proof.
  destruct (lstrip_split s) as (l & Hs & Hl).
  destruct (rstrip_split (PyStr.lstrip s)) as (r & Hu & Hr).
  exists l, r. unfold PyStr.strip. rewrite <- Hu. split; [done|].
  split; [done|]. split; [done|]. split.
  - intros c t' (u' & Hhead)%rstrip_head.
    apply lstrip_head in Hhead. by apply isspace_not_WHITE_SPACE.
  - intros t' c Hlast%rstrip_last. by apply isspace_not_WHITE_SPACE.
Qed.

(** A code point below 128. *)
Definition below_128 (c : ascii) : bool := (N_of_ascii c <? 128)%N.

Lemma lower_char_letter c :
  PyStr.lower_char c = lower_letter UPPER_CASE LOWER_CASE c
  ∨ (below_128 (PyStr.lower_char c) = false
     ∧ below_128 (lower_letter UPPER_CASE LOWER_CASE c) = false).
Proof.
  destruct c as [[] [] [] [] [] [] [] []]; vm_compute;
    first [by left | by right].
Qed.

Lemma lower_lowercased t w :
  forallb below_128 (String.list_ascii_of_string w) = true →
  PyStr.lower t = w ↔ lowercased t = w.
Proof.
  revert w. induction t as [|c t IH]; intros [|d w]; try done.
  cbn [String.list_ascii_of_string forallb PyStr.lower lowercased].
  intros [Hd Hw]%andb_true_iff. specialize (IH w Hw).
  destruct (lower_char_letter c) as [->|[H1 H2]].
  - split; intros [= <- Ht]; f_equal; by apply IH.
  - split; intros Heq; exfalso.
    + assert (PyStr.lower_char c = d) as Hc by congruence.
      rewrite Hc in H1. congruence.
    + assert (lower_letter UPPER_CASE LOWER_CASE c = d) as Hc by congruence.
      rewrite Hc in H2. congruence.
Qed.

Lemma lower_lowercased_elem_of t (ws : list string) :
  forallb (λ w, forallb below_128 (String.list_ascii_of_string w)) ws = true →
  PyStr.lower t ∈ ws ↔ lowercased t ∈ ws.
Proof.
  induction ws as [|w ws IH]; [by rewrite !elem_of_nil|].
  cbn [forallb]. intros [Hw Hws]%andb_true_iff.
  by rewrite !elem_of_cons, IH, (lower_lowercased t w).
Qed.

(** C6. When [self[item]] is a string [s], [get_bool] decides on [s]
    trimmed and lower-cased: every string has its trimmed form, and with
    [t] that form, [get_bool] returns [True] when [t] lower-cased is one of
    [t], [true], [y], [yes], [on], [1], returns [False] when it is one of
    [f], [false], [n], [no], [off], [0] and the empty string, and raises
    [ValueError] for every other string. *)
Theorem C6_get_bool_of_string self item s :
  __getitem__ self item = Ok (VStr s) →
  (∃ t, trimmed s t)
  ∧ ∀ t, trimmed s t →
      get_bool self item
      = if bool_decide
             (lowercased t
              ∈ (["t"; "true"; "y"; "yes"; "on"; "1"] : list string))
        then Ok true
        else if bool_decide
                  (lowercased t
                   ∈ (["f"; "false"; "n"; "no"; "off"; "0"; ""] : list string))
        then Ok false
        else Raise ValueError.
Proof.
  intros H. split; [exists (PyStr.strip s); apply strip_trimmed|].
  intros t Ht. rewrite (get_bool_of_string self item s H).
  rewrite (trimmed_strip s t Ht). unfold TRUTH_TEXT, FALSE_TEXT.
  rewrite (bool_decide_ext _ _ (elem_of_list_to_set (C := gset string) _ _)).
  rewrite (bool_decide_ext _ _
             (lower_lowercased_elem_of t
                ["t"; "true"; "y"; "yes"; "on"; "1"] eq_refl)).
  destruct (bool_decide (lowercased t ∈ _)); [done|].
  rewrite (bool_decide_ext _ _ (elem_of_list_to_set (C := gset string) _ _)).
  by rewrite (bool_decide_ext _ _
                (lower_lowercased_elem_of t
                   ["f"; "false"; "n"; "no"; "off"; "0"; ""] eq_refl)).
Qed.

(** ** Reading a set of layers *)

Definition layer_values (call : Configuration → pyresult value)
  (configs : list Configuration) : list value :=
  omap (λ c, match call c with Ok v => Some v | Raise _ => None end) configs.

Definition last_error (call : Configuration → pyresult value) (e0 : exn)
  (configs : list Configuration) : exn :=
  foldl (λ e c, match call c with Ok _ => e | Raise e' => e' end) e0 configs.

Lemma collect_values_spec call configs :
  collect_values call configs
  = (layer_values call configs, last_error call Exception configs).
Proof.
  unfold collect_values, layer_values, last_error.
  assert (∀ vs e,
    foldl (λ st c, match call c with
                   | Ok v => ((st.1 ++ [v])%list, st.2)
                   | Raise e => (st.1, e)
                   end) (vs, e) configs
    = ((vs ++ omap (λ c, match call c with Ok v => Some v | Raise _ => None end)
                   configs)%list,
       foldl (λ e c, match call c with Ok _ => e | Raise e' => e' end) e configs))
    as H; [|apply (H [] Exception)].
  induction configs as [|c configs IH]; intros vs e; csimpl.
  { by rewrite app_nil_r. }
  destruct (call c) as [v|e']; simpl; rewrite IH; [|done].
  by rewrite <- app_assoc.
Qed.

Lemma layer_values_failing call configs :
  Forall (λ c, is_ok (call c) = false) configs → layer_values call configs = [].
Proof.
  unfold layer_values. induction 1 as [|c configs Hc _ IH]; [done|]. csimpl.
  destruct (call c); [done|]. apply IH.
Qed.

Lemma layer_values_app call l1 l2 :
  layer_values call (l1 ++ l2)%list
  = (layer_values call l1 ++ layer_values call l2)%list.
Proof. apply omap_app. Qed.

(** C4. [_from_configs] tries the layers in order. When the first layer that
    returns gives a value that is no [Configuration], that value is the
    result, whatever the later layers hold; when every layer raises, the
    exception of the last layer is raised. *)
Theorem C4_from_configs_first_scalar_wins call :
  (∀ pre c post v,
     Forall (λ c', is_ok (call c') = false) pre →
     call c = Ok v → is_Configuration v = false →
     _from_configs call (pre ++ c :: post)%list = Ok v)
  ∧ (∀ pre c e,
     Forall (λ c', is_ok (call c') = false) pre →
     call c = Raise e →
     _from_configs call (pre ++ [c])%list = Raise e).
Proof.
  split.
  - intros pre c post v Hpre Hc Hv. unfold _from_configs.
    rewrite collect_values_spec, layer_values_app, layer_values_failing by done.
    unfold layer_values. csimpl. rewrite Hc. simpl. by rewrite Hv.
  - intros pre c e Hpre Hc. unfold _from_configs.
    rewrite collect_values_spec, layer_values_app, layer_values_failing by done.
    unfold layer_values, last_error. csimpl. rewrite Hc. simpl.
    by rewrite foldl_app; simpl; rewrite Hc.
Qed.

(** ** Writing to a set of layers *)

(** A mutation from outside: [self[key] = value] or [self.update(other)]. *)
Inductive mutation :=
| SetItem (key : string) (value : nested)
| Update (other : list (string * nested)).

(** What a mutation does to the one store it reaches. *)
Definition mutate_layer (m : mutation) (c : Configuration) : Configuration :=
  match m with
  | SetItem key value => __setitem__ c key value
  | Update other => update c other
  end.

Definition mutate (m : mutation)
  (st : gmap nat Configuration * ConfigurationSet)
  : pyresult (gmap nat Configuration * ConfigurationSet) :=
  match m with
  | SetItem key value => ConfigurationSet__setitem__ st.1 st.2 key value
  | Update other => ConfigurationSet_update st.1 st.2 other
  end.

(** A sequence of mutations, stopping at the first that raises. *)
Definition run (ms : list mutation)
  (st : gmap nat Configuration * ConfigurationSet)
  : pyresult (gmap nat Configuration * ConfigurationSet) :=
  foldl (λ acc m, st' ← acc; mutate m st') (Ok st) ms.

(** The case-folding flag the new layer takes: that of the first layer. *)
Definition first_lowercase (h : gmap nat Configuration)
  (self : ConfigurationSet) : bool :=
  match _configs self with
  | [] => false
  | l0 :: _ => from_option _lowercase false (h !! l0)
  end.

Lemma bind_Ok {A B} (a : A) (f : A → pyresult B) : Ok a ≫= f = f a.
Proof. reflexivity. Qed.

Lemma mutate_first h self m :
  _writable self = false →
  mutate m (h, self)
  = Ok (<[fresh (dom h) := mutate_layer m (__init__ [] (first_lowercase h self))]> h,
        {| _configs := fresh (dom h) :: _configs self; _writable := true |}).
Proof.
  intros Hw.
  destruct m; simpl;
    unfold ConfigurationSet__setitem__, ConfigurationSet_update,
      _writable_config, heap_apply;
    rewrite Hw; simpl; rewrite lookup_insert_eq;
    by rewrite insert_insert_eq.
Qed.

Lemma mutate_writable h self m l rest c :
  _writable self = true → _configs self = l :: rest → h !! l = Some c →
  mutate m (h, self) = Ok (<[l := mutate_layer m c]> h, self).
Proof.
  intros Hw Hl Hc.
  destruct m; simpl;
    unfold ConfigurationSet__setitem__, ConfigurationSet_update,
      _writable_config, heap_apply;
    rewrite Hw, Hl; simpl; by rewrite Hc.
Qed.

Lemma run_writable h self ms l rest c :
  _writable self = true → _configs self = l :: rest →
  run ms (<[l := c]> h, self)
  = Ok (<[l := foldl (λ c m, mutate_layer m c) c ms]> h, self).
Proof.
  intros Hw Hl. unfold run. revert c.
  induction ms as [|m ms IH]; intros c; [done|]. cbn [foldl].
  rewrite bind_Ok.
  rewrite (mutate_writable _ _ _ l rest c Hw Hl) by apply lookup_insert_eq.
  rewrite insert_insert_eq. apply IH.
Qed.

(** C8. On a set that has not been written to, any sequence of one or more
    mutations ([self[key] = value] or [self.update(other)]) adds exactly one
    layer, a fresh store that starts empty, in front of the others, and
    marks the set writable; every mutation of the sequence is applied, in
    order, to that one store; the heap is otherwise as before, so every
    other layer keeps its contents, and no second layer is added. *)
Theorem C8_writable_layer_invariant h self m ms :
  _writable self = false →
  (fresh (dom h) ∉ dom h)
  ∧ run (m :: ms) (h, self)
    = Ok (<[fresh (dom h) :=
              foldl (λ c m, mutate_layer m c)
                    (__init__ [] (first_lowercase h self)) (m :: ms)]> h,
          {| _configs := fresh (dom h) :: _configs self; _writable := true |})
  ∧ ∀ h' self', run (m :: ms) (h, self) = Ok (h', self') →
      _writable self' = true
      ∧ _configs self' = fresh (dom h) :: _configs self
      ∧ ∀ l, l ∈ dom h → h' !! l = h !! l.
Proof.
  intros Hw.
  assert (run (m :: ms) (h, self)
    = Ok (<[fresh (dom h) :=
              foldl (λ c m, mutate_layer m c)
                    (__init__ [] (first_lowercase h self)) (m :: ms)]> h,
          {| _configs := fresh (dom h) :: _configs self; _writable := true |}))
    as Hrun.
  { unfold run. cbn [foldl].
    rewrite bind_Ok.
    rewrite mutate_first by done.
    by apply (run_writable h _ ms (fresh (dom h)) (_configs self)). }
  split; [apply is_fresh|]. split; [done|].
  intros h' self'. rewrite Hrun. intros [= <- <-].
  split; [done|]. split; [done|].
  intros l Hl. apply lookup_insert_ne. intros <-. by apply is_fresh in Hl.
Qed.

(** ** Iteration ends *)

Lemma max_key_length_ge (d : gmap string value) k :
  is_Some (d !! k) → String.length k ≤ max_key_length d.
Proof.
  intros [v Hk]. unfold max_key_length.
  apply elem_of_map_to_list in Hk.
  induction (map_to_list d) as [|[k' v'] l IH]; [by apply elem_of_nil in Hk|].
  rewrite fmap_cons. cbn [foldr fst].
  apply elem_of_cons in Hk as [[= <- <-]|Hk]; [lia|].
  specialize (IH Hk). lia.
Qed.

Lemma __getitem___Configuration self item lc cfg :
  __getitem__ self item = Ok (VConf lc cfg) →
  lc = false ∧ cfg ≠ ∅ ∧ ∃ d, _get_subset self item = SubDict d ∧ cfg = d.
Proof.
  unfold __getitem__. destruct (_get_subset self item) as [d|v] eqn:Hs.
  - destruct (dict_is_empty d) eqn:Hemp; [done|].
    rewrite value_of_sub_view. intros [= <- <-].
    apply dict_is_empty_false in Hemp. eauto.
  - by destruct v.
Qed.

Lemma _get_subset_segment self item d :
  length (PyStr.split "." item) = 1 →
  _get_subset self item = SubDict d → d ≠ ∅ →
  d = sub_view (_config self) item.
Proof.
  intros Hlen. unfold _get_subset. fold (sub_view (_config self) item).
  destruct (dict_is_empty (sub_view (_config self) item)) eqn:Hemp.
  - rewrite bool_decide_eq_true_2 by done. unfold dict_get_or_empty.
    destruct (_config self !! item); [done|]. by intros [= <-].
  - by intros [= <-].
Qed.

Lemma sub_view_keys_shorter (d : gmap string value) prefix n :
  sub_view d prefix ≠ ∅ → max_key_length d ≤ S n →
  max_key_length (sub_view d prefix) ≤ n.
Proof.
  intros _ Hd.
  assert (∀ r, is_Some (sub_view d prefix !! r) → String.length r ≤ n) as Hr.
  { intros r [v Hv]. rewrite sub_view_lookup in Hv.
    pose proof (max_key_length_ge d _ (mk_is_Some _ _ Hv)) as Hle.
    rewrite !string_app_length in Hle. simpl in Hle. lia. }
  unfold max_key_length.
  assert (∀ kv, kv ∈ map_to_list (sub_view d prefix) → String.length kv.1 ≤ n)
    as Hl.
  { intros [r v] Hin%elem_of_map_to_list. apply Hr. eauto. }
  induction (map_to_list (sub_view d prefix)) as [|[r v] l IH]; [simpl; lia|].
  rewrite fmap_cons. cbn [foldr fst].
  pose proof (Hl (r, v) (list_elem_of_here _ _)) as Hhd. simpl in Hhd.
  assert (foldr (λ k n, String.length k `max` n) 0 l.*1 ≤ n) as Htl.
  { apply IH. intros kv Hkv. apply Hl. by apply list_elem_of_further. }
  lia.
Qed.

Lemma keys_stored_Configuration self lc cfg :
  keys self None = Ok (KeysStored (VConf lc cfg)) →
  lc = false ∧ cfg = sub_view (_config self) "keys" ∧ cfg ≠ ∅.
Proof.
  unfold keys. rewrite bool_decide_eq_false_2 by done.
  destruct (__getitem__ self "keys") as [v|e] eqn:Hg; [|by destruct e].
  intros [= ->].
  apply __getitem___Configuration in Hg as (-> & Hne & d & Hs & ->).
  split; [done|]. split; [|done].
  by apply (_get_subset_segment self "keys").
Qed.

Lemma iter_fuel_unfold n self :
  iter_fuel n self =
  match keys self None with
  | Raise e => Raise e
  | Ok (KeysList l) => Ok l
  | Ok (KeysStored (VStr s)) => Ok (PyStr.chars s)
  | Ok (KeysStored (VConf lc cfg)) =>
      match n with
      | O => Raise RecursionError
      | S n' => iter_fuel n' (mkConfiguration lc cfg)
      end
  | Ok (KeysStored _) => Raise TypeError
  end.
Proof. by destruct n. Qed.

(** The fuel of [__iter__] is enough: more fuel changes nothing, so the
    bound is never what ends the descent. *)
Lemma iter_fuel_enough n self :
  max_key_length (_config self) ≤ n →
  iter_fuel (S n) self = iter_fuel n self.
Proof.
  revert self. induction n as [|n IH]; intros self Hn;
    [rewrite (iter_fuel_unfold 1), (iter_fuel_unfold 0)
    |rewrite (iter_fuel_unfold (S (S n))), (iter_fuel_unfold (S n))];
    destruct (keys self None) as [[l|[| | | |lc cfg]]|e] eqn:Hk; try done;
    apply keys_stored_Configuration in Hk as (_ & -> & Hne).
  - exfalso. apply Hne. apply map_eq. intros r.
    rewrite sub_view_lookup, lookup_empty.
    destruct (_config self !! ("keys" +:+ "." +:+ r)) eqn:Hr; [|done].
    pose proof (max_key_length_ge _ _ (mk_is_Some _ _ Hr)) as Hle.
    rewrite !string_app_length in Hle. simpl in Hle. lia.
  - apply IH. simpl. by apply sub_view_keys_shorter.
Qed.

Lemma __iter___more_fuel n self :
  max_key_length (_config self) ≤ n → iter_fuel n self = __iter__ self.
Proof.
  unfold __iter__. intros Hn.
  induction Hn as [|n Hn IH]; [done|]. by rewrite iter_fuel_enough.
Qed.

(** ** Merging sub-views *)

Lemma __getitem___raises self item e :
  __getitem__ self item = Raise e → e = KeyError ∨ e = AttributeError.
Proof.
  unfold __getitem__. destruct (_get_subset self item) as [d|v].
  - destruct (dict_is_empty d); [|done]. intros [= <-]. by left.
  - destruct v; try done. intros [= <-]. by right.
Qed.

Lemma keys_raises self e :
  keys self None = Raise e → e = AttributeError.
Proof.
  unfold keys. rewrite bool_decide_eq_false_2 by done.
  destruct (__getitem__ self "keys") as [v|e'] eqn:Hg; [done|].
  apply __getitem___raises in Hg as [-> | ->]; [done|]. by intros [= <-].
Qed.

(** [iter(self)] never ends on its bound. *)
Lemma __iter___terminates self : __iter__ self ≠ Raise RecursionError.
Proof.
  unfold __iter__.
  assert (∀ n c, max_key_length (_config c) ≤ n →
                 iter_fuel n c ≠ Raise RecursionError) as H; [|by apply H].
  induction n as [|n IH]; intros c Hn; rewrite iter_fuel_unfold;
    destruct (keys c None) as [[l|[| | | |lc cfg]]|e] eqn:Hk; try done.
  - apply keys_stored_Configuration in Hk as (_ & -> & Hne).
    exfalso. apply Hne. apply map_eq. intros r.
    rewrite sub_view_lookup, lookup_empty.
    destruct (_config c !! ("keys" +:+ "." +:+ r)) eqn:Hr; [|done].
    pose proof (max_key_length_ge _ _ (mk_is_Some _ _ Hr)) as Hle.
    rewrite !string_app_length in Hle. simpl in Hle. lia.
  - apply keys_raises in Hk as ->. done.
  - apply keys_stored_Configuration in Hk as (_ & -> & Hne).
    apply IH. simpl. by apply sub_view_keys_shorter.
  - apply keys_raises in Hk as ->. done.
Qed.

(** A dictionary in which no key is also a prefix of another, no value is a
    [Configuration], and nothing is stored under the name [keys]. *)
Definition plain (d : gmap string value) : Prop :=
  d !! "keys" = None ∧ sub_view d "keys" = ∅
  ∧ ∀ k v, d !! k = Some v → is_Configuration v = false ∧ sub_view d k = ∅.

Lemma __getitem___plain d k v :
  plain d → d !! k = Some v → __getitem__ (mkConfiguration false d) k = Ok v.
Proof.
  intros (_ & _ & Hd) Hk. destruct (Hd k v Hk) as [Hv He].
  rewrite __getitem___spec by apply keys_folded_false. simpl.
  apply dict_is_empty_true in He. rewrite He, Hk. by destruct v.
Qed.

Lemma keys_plain d :
  plain d →
  ∃ l, keys (mkConfiguration false d) None = Ok (KeysList l)
       ∧ ∀ k, k ∈ l ↔ is_Some (d !! k).
Proof.
  intros (Hk & Hs & _). unfold keys. rewrite bool_decide_eq_false_2 by done.
  rewrite __getitem___spec by apply keys_folded_false. simpl.
  apply dict_is_empty_true in Hs. rewrite Hs, Hk.
  eexists. split; [done|]. intros k.
  rewrite elem_of_elements, elem_of_list_to_set, list_elem_of_fmap.
  unfold as_dict. simpl. split.
  - intros (x & -> & Hx). rewrite join_split.
    by apply elem_of_elements, elem_of_dom in Hx.
  - intros Hx. exists k. rewrite join_split. split; [done|].
    by apply elem_of_elements, elem_of_dom.
Qed.

Lemma __iter___plain d :
  plain d →
  ∃ l, __iter__ (mkConfiguration false d) = Ok l
       ∧ ∀ k, k ∈ l ↔ is_Some (d !! k).
Proof.
  intros Hd. destruct (keys_plain d Hd) as (l & Hl & Hin).
  exists l. split; [|done]. unfold __iter__. rewrite iter_fuel_unfold.
  by rewrite Hl.
Qed.

Lemma dict_update_Configuration_fold (d result : gmap string value)
  (ks : list string) :
  plain d → (∀ k, k ∈ ks → is_Some (d !! k)) →
  ∃ result' : gmap string value,
    foldl (λ acc k, d' ← acc;
                    x ← __getitem__ (mkConfiguration false d) k;
                    Ok (<[k := x]> d'))
          (Ok result) ks = Ok result'
    ∧ ∀ k, result' !! k = if decide (k ∈ ks) then d !! k else result !! k.
Proof.
  intros Hd. revert result. induction ks as [|x ks IH]; intros result Hks.
  { exists result. split; [done|]. intros k.
    destruct (decide (k ∈ [])) as [Hin|_]; [|done]. by apply elem_of_nil in Hin. }
  destruct (Hks x (list_elem_of_here _ _)) as [v Hx].
  cbn [foldl]. rewrite bind_Ok, (__getitem___plain d x v Hd Hx), bind_Ok.
  destruct (IH (<[x := v]> result)) as (result' & Hfold & Hlook).
  { intros k Hk. apply Hks. by apply list_elem_of_further. }
  exists result'. split; [done|]. intros k. rewrite Hlook.
  destruct (decide (k ∈ ks)) as [Hin|Hin];
    destruct (decide (k ∈ x :: ks)) as [Hin'|Hin'].
  - done.
  - exfalso. apply Hin'. by apply list_elem_of_further.
  - apply elem_of_cons in Hin' as [->|?]; [|done].
    by rewrite lookup_insert_eq.
  - apply lookup_insert_ne. intros ->. apply Hin', list_elem_of_here.
Qed.

(** On a plain sub-view, [result.update(v)] is [result.update(v.as_dict())]. *)
Lemma dict_update_Configuration_plain d result :
  plain d →
  dict_update_Configuration result (mkConfiguration false d)
  = Ok (dict_update_dict result d).
Proof.
  intros Hd. unfold dict_update_Configuration.
  destruct (__iter___plain d Hd) as (l & -> & Hl). rewrite bind_Ok.
  destruct (dict_update_Configuration_fold d result l Hd) as (r & -> & Hr).
  { intros k. apply Hl. }
  f_equal. apply map_eq. intros k. rewrite Hr. unfold dict_update_dict.
  rewrite lookup_union. destruct (decide (k ∈ l)) as [Hin|Hin].
  - apply Hl in Hin as [v ->]. by destruct (result !! k).
  - destruct (d !! k) as [v|] eqn:Hk.
    + exfalso. apply Hin, Hl. eauto.
    + by destruct (result !! k).
Qed.

(** The merge of plain sub-views, lowest priority first: the left-biased
    union in priority order. *)
Lemma merge_values_plain ds :
  Forall plain ds →
  merge_values (reverse (VConf false <$> ds))
  = Ok (VConf false (foldr (λ d acc, d ∪ acc) ∅ ds)).
Proof.
  intros Hds. unfold merge_values.
  assert (foldl (λ acc v, match v with
                          | VConf lc cfg =>
                              d ← acc;
                              dict_update_Configuration d (mkConfiguration lc cfg)
                          | _ => acc
                          end)
                (Ok ∅) (reverse (VConf false <$> ds))
          = Ok (foldr (λ d acc, d ∪ acc) ∅ ds)) as ->.
  { induction Hds as [|d ds Hd _ IH]; [done|].
    rewrite fmap_cons, reverse_cons, foldl_app, IH. simpl.
    by rewrite dict_update_Configuration_plain. }
  rewrite bind_Ok. by rewrite value_of_sub_view.
Qed.

(** When every layer that returns gives a plain sub-view, the read is their
    union, in which a higher layer wins on each key and the keys of the
    lower layers that it lacks are kept. *)
Lemma _from_configs_merge_plain call configs d ds :
  layer_values call configs = VConf false <$> (d :: ds) →
  Forall plain (d :: ds) →
  _from_configs call configs
  = Ok (VConf false (foldr (λ d acc, d ∪ acc) ∅ (d :: ds))).
Proof.
  intros Hv Hds. unfold _from_configs. rewrite collect_values_spec, Hv.
  rewrite fmap_cons.
  assert (forallb is_Configuration (VConf false d :: (VConf false <$> ds)) = true)
    as ->.
  { simpl. clear. by induction ds. }
  rewrite <- fmap_cons. by apply merge_values_plain.
Qed.

(** ** The other methods of [Configuration] *)

(** [len(self)] *)
Definition __len__ (self : Configuration) : nat := size (_config self).

(** [prefix in self]: only [KeyError] is caught. *)
Definition __contains__ (self : Configuration) (prefix : string)
  : pyresult bool :=
  match __getitem__ self prefix with
  | Ok _ => Ok true
  | Raise KeyError => Ok false
  | Raise e => Raise e
  end.

(** [self.clear()] *)
Definition clear (self : Configuration) : Configuration :=
  {| _lowercase := _lowercase self; _config := ∅ |}.

(** [self.copy()], that is [Configuration(self._config)]: the flag
    [lowercase_keys] is left at its default. *)
Definition copy (self : Configuration) : Configuration :=
  __init__ (dict_as_nested (_config self)) false.

(** [self.pop(prefix, value)]: the value returned and the store afterwards.
    The name [value] is bound to [self[prefix]] before the deletion, so a
    [KeyError] of the deletion is re-raised only when what was read is
    [None]. *)
Definition pop (self : Configuration) (prefix : string)
  : value → pyresult (value * Configuration) := λ value,
  match __getitem__ self prefix with
  | Ok v =>
      match __delitem__ self prefix with
      | Ok self' => Ok (v, self')
      | Raise KeyError =>
          match v with VNone => Raise KeyError | _ => Ok (v, self) end
      | Raise e => Raise e
      end
  | Raise KeyError =>
      match value with VNone => Raise KeyError | _ => Ok (value, self) end
  | Raise e => Raise e
  end.

(** [self.setdefault(key, default)]: the store afterwards, and what the call
    returns or raises. The write is done before the second read, so it stays
    when that read raises. *)
Definition setdefault (self : Configuration) (key : string) (default : nested)
  : Configuration * pyresult value :=
  match __getitem__ self key with
  | Raise KeyError =>
      let self' := __setitem__ self key default in
      (self', __getitem__ self' key)
  | r => (self, r)
  end.

(** [dict(x)] for what [_get_subset] returns: a dictionary is copied; a
    string is read as a sequence of pairs, and its elements are strings of
    length one; a [Configuration] is read through [keys()] and [x[k]];
    nothing else can be iterated. *)
Definition py_dict (x : subset) : pyresult (gmap string value) :=
  match x with
  | SubDict d => Ok d
  | SubValue (VStr EmptyString) => Ok ∅
  | SubValue (VStr (String _ _)) => Raise ValueError
  | SubValue (VConf lc cfg) =>
      dict_update_Configuration ∅ (mkConfiguration lc cfg)
  | SubValue _ => Raise TypeError
  end.

(** [self.get_dict(item)] *)
Definition get_dict (self : Configuration) (item : string)
  : pyresult (gmap string value) :=
  py_dict (_get_subset self item).

(** [iter(x)] for what [keys] returns. *)
Definition iter_keys (r : keys_result) : pyresult (list string) :=
  match r with
  | KeysList l => Ok l
  | KeysStored (VStr s) => Ok (PyStr.chars s)
  | KeysStored (VConf lc cfg) => __iter__ (mkConfiguration lc cfg)
  | KeysStored _ => Raise TypeError
  end.

(** What [items] returns: the items of its own dictionary, or whatever is
    stored under the name [items]. *)
Inductive items_result :=
| ItemsDict (d : gmap string subset)
| ItemsStored (v : value).

(** [self.items(levels)] *)
Definition items (self : Configuration) (levels : option nat)
  : pyresult items_result :=
  if bool_decide (levels = Some 0) then Raise AssertionError
  else
    match __getitem__ self "items" with
    | Ok v => Ok (ItemsStored v)
    | Raise KeyError =>
        r ← keys self levels;
        ks ← iter_keys r;
        Ok (ItemsDict
              (foldl (λ acc k, <[k := _get_subset self k]> acc) ∅ ks))
    | Raise e => Raise e
    end.

(** ** The other methods of [ConfigurationSet] *)

(** [self.get(key, default)]: every exception is caught. *)
Definition ConfigurationSet_get (h : gmap nat Configuration)
  (self : ConfigurationSet) (key : string) (default : value) : value :=
  match ConfigurationSet__getitem__ h self key with
  | Ok v => v
  | Raise _ => default
  end.

(** The loop of [del self[prefix]] over the layers: the heap afterwards and
    the flag [removed]. *)
Fixpoint delitem_layers (prefix : string) (refs : list nat)
  (h : gmap nat Configuration) (removed : bool)
  : pyresult (gmap nat Configuration * bool) :=
  match refs with
  | [] => Ok (h, removed)
  | l :: rest =>
      match h !! l with
      | None => delitem_layers prefix rest h removed
      | Some cfg =>
          match __delitem__ cfg prefix with
          | Ok cfg' => delitem_layers prefix rest (<[l := cfg']> h) true
          | Raise KeyError => delitem_layers prefix rest h removed
          | Raise e => Raise e
          end
      end
  end.

(** [del self[prefix]] *)
Definition ConfigurationSet__delitem__ (h : gmap nat Configuration)
  (self : ConfigurationSet) (prefix : string)
  : pyresult (gmap nat Configuration) :=
  '(h', removed) ← delitem_layers prefix (_configs self) h false;
  if (removed : bool) then Ok h' else Raise KeyError.

(** [any(prefix in cfg for cfg in configs)] *)
Fixpoint any_contains (prefix : string) (configs : list Configuration)
  : pyresult bool :=
  match configs with
  | [] => Ok false
  | cfg :: rest =>
      match __contains__ cfg prefix with
      | Ok true => Ok true
      | Ok false => any_contains prefix rest
      | Raise e => Raise e
      end
  end.

(** [prefix in self] *)
Definition ConfigurationSet__contains__ (h : gmap nat Configuration)
  (self : ConfigurationSet) (prefix : string) : pyresult bool :=
  any_contains prefix (layers h self).

(** [self.clear()] *)
Definition ConfigurationSet_clear (h : gmap nat Configuration)
  (self : ConfigurationSet) : gmap nat Configuration :=
  foldl (heap_apply clear) h (_configs self).

(** [self.copy()]: a new set over the same layer objects. *)
Definition ConfigurationSet_copy (self : ConfigurationSet)
  : pyresult ConfigurationSet :=
  ConfigurationSet__init__ (_configs self).

(** [self.keys(levels)] *)
Definition ConfigurationSet_keys (h : gmap nat Configuration)
  (self : ConfigurationSet) (levels : option nat) : pyresult keys_result :=
  keys (__init__ (dict_as_nested (ConfigurationSet_as_dict h self)) false)
       levels.

(** [self.items(levels)] *)
Definition ConfigurationSet_items (h : gmap nat Configuration)
  (self : ConfigurationSet) (levels : option nat) : pyresult items_result :=
  items (__init__ (dict_as_nested (ConfigurationSet_as_dict h self)) false)
        levels.

(** [self.get_dict(item)] *)
Definition ConfigurationSet_get_dict (h : gmap nat Configuration)
  (self : ConfigurationSet) (item : string) : pyresult (gmap string value) :=
  v ← ConfigurationSet__getitem__ h self item; py_dict (SubValue v).

(** ** Stores under any sequence of calls *)

Lemma no_key_under (d : gmap string value) p :
  (∀ k, is_Some (d !! k) → under p k = false)
  ↔ sub_view d p = ∅ ∧ d !! p = None.
Proof.
  rewrite sub_view_empty_iff. unfold under. split.
  - intros H. split.
    + intros k Hk. specialize (H k Hk). by apply orb_false_iff in H as [_ ?].
    + destruct (d !! p) eqn:Hp; [|done].
      specialize (H p (mk_is_Some _ _ Hp)).
      by rewrite bool_decide_eq_true_2 in H by done.
  - intros [Hs Hp] k Hk. apply orb_false_iff. split; [|by apply Hs].
    apply bool_decide_eq_false_2. intros ->. rewrite Hp in Hk. by destruct Hk.
Qed.

Lemma __delitem___raises self p e :
  __delitem__ self p = Raise e → e = KeyError.
Proof.
  unfold __delitem__. destruct (filter _ _); [|done]. by intros [= <-].
Qed.

Lemma __delitem___KeyError_iff self p :
  wf self →
  __delitem__ self p = Raise KeyError
  ↔ ∀ k, is_Some (_config self !! k) → under p k = false.
Proof.
  intros Hwf. pose proof (elem_of_delitem_remove self p) as Hrem.
  unfold __delitem__. destruct (filter _ _) as [|x l] eqn:Hf.
  - split; [|done]. intros _ k Hk.
    destruct (under p k) eqn:Hu; [|done].
    exfalso. eapply not_elem_of_nil, (Hrem k Hwf). eauto.
  - split; [done|]. intros H. exfalso.
    assert (x ∈ x :: l) as Hx by apply list_elem_of_here.
    apply (Hrem x Hwf) in Hx as [Hk Hu]. by rewrite (H x Hk) in Hu.
Qed.

Lemma __delitem___lookup self p self' :
  wf self → __delitem__ self p = Ok self' →
  _lowercase self' = _lowercase self
  ∧ ∀ k, _config self' !! k = if under p k then None else _config self !! k.
Proof.
  intros Hwf. pose proof (elem_of_delitem_remove self p) as Hrem.
  unfold __delitem__. destruct (filter _ _) as [|x l] eqn:Hf; [done|].
  intros Heq. assert (self' = {| _lowercase := _lowercase self;
                                 _config := foldl (λ d k, delete k d)
                                                  (_config self) (x :: l) |})
    as -> by congruence.
  split; [done|]. intros k. cbn [_config].
  rewrite foldl_delete_lookup.
  destruct (decide (k ∈ x :: l)) as [Hin|Hin].
  - by apply (Hrem k Hwf) in Hin as [_ ->].
  - destruct (under p k) eqn:Hu; [|done].
    destruct (_config self !! k) eqn:Hk; [|done].
    exfalso. apply Hin, (Hrem k Hwf). eauto.
Qed.

Lemma __getitem___KeyError_iff self p :
  wf self →
  __getitem__ self p = Raise KeyError
  ↔ ∀ k, is_Some (_config self !! k) → under p k = false.
Proof.
  intros Hwf. rewrite no_key_under, __getitem___spec by done.
  destruct (dict_is_empty (sub_view (_config self) p)) eqn:He.
  - apply dict_is_empty_true in He. split.
    + destruct (_config self !! p) as [[]|]; naive_solver.
    + by intros [_ ->].
  - apply dict_is_empty_false in He. naive_solver.
Qed.

Lemma clear_wf self : wf (clear self).
Proof. intros _ k [v Hk]. simpl in Hk. by rewrite lookup_empty in Hk. Qed.

Lemma pop_wf self p d v self' :
  wf self → pop self p d = Ok (v, self') →
  wf self' ∧ _lowercase self' = _lowercase self.
Proof.
  intros Hwf. unfold pop.
  destruct (__getitem__ self p) as [x|[]]; try done.
  - destruct (__delitem__ self p) as [c|e] eqn:Hd.
    + intros [= <- <-]. split; [by eapply __delitem___wf|].
      by apply __delitem___lookup in Hd as [? _].
    + apply __delitem___raises in Hd as ->. by destruct x; intros [= <- <-].
  - by destruct d; intros [= <- <-].
Qed.

Lemma setdefault_wf self k d :
  wf self →
  wf (setdefault self k d).1
  ∧ _lowercase (setdefault self k d).1 = _lowercase self.
Proof.
  intros Hwf. unfold setdefault.
  destruct (__getitem__ self k) as [x|[]]; try done.
  split; [by apply update_wf|done].
Qed.

(** A call of a method that changes the store. *)
Inductive method :=
| CallUpdate (other : list (string * nested))
| CallSetItem (key : string) (value : nested)
| CallDelItem (prefix : string)
| CallClear
| CallPop (prefix : string) (default : value)
| CallSetDefault (key : string) (default : nested).

(** The store after a call, whether the call returns or raises. *)
Definition after (self : Configuration) (m : method) : Configuration :=
  match m with
  | CallUpdate other => update self other
  | CallSetItem key value => __setitem__ self key value
  | CallDelItem prefix =>
      match __delitem__ self prefix with
      | Ok self' => self'
      | Raise _ => self
      end
  | CallClear => clear self
  | CallPop prefix default =>
      match pop self prefix default with
      | Ok (_, self') => self'
      | Raise _ => self
      end
  | CallSetDefault key default => (setdefault self key default).1
  end.

Lemma after_wf self m :
  wf self → wf (after self m) ∧ _lowercase (after self m) = _lowercase self.
Proof.
  intros Hwf. destruct m as [other|key value|prefix| |prefix default|key default];
    simpl.
  - split; [by apply update_wf|done].
  - split; [by apply update_wf|done].
  - destruct (__delitem__ self prefix) as [c|e] eqn:Hd; [|done].
    split; [by eapply __delitem___wf|].
    by apply __delitem___lookup in Hd as [? _].
  - split; [apply clear_wf|done].
  - destruct (pop self prefix default) as [[v c]|e] eqn:Hp; [|done].
    by eapply pop_wf.
  - by apply setdefault_wf.
Qed.

(** X1. The case-folding policy of a store is fixed by its constructor, and
    it holds after every sequence of calls of [update], [self[k] = v],
    [del self[p]], [clear], [pop] and [setdefault], returning or raising: the
    flag stays what the constructor was given, and with the flag set every
    stored key is its own lower-case form. *)
Theorem case_folding_kept_by_every_call config_ lowercase_keys ms :
  _lowercase (foldl after (__init__ config_ lowercase_keys) ms) = lowercase_keys
  ∧ (lowercase_keys = true →
     ∀ k, is_Some (_config (foldl after (__init__ config_ lowercase_keys) ms)
                     !! k) →
          PyStr.lower k = k).
Proof.
  assert (∀ c, wf c →
               wf (foldl after c ms)
               ∧ _lowercase (foldl after c ms) = _lowercase c) as H.
  { induction ms as [|m ms IH]; intros c Hc; [done|]. cbn [foldl].
    destruct (after_wf c m Hc) as [Hwf Hlc].
    destruct (IH _ Hwf) as [? ?]. split; [done|]. congruence. }
  destruct (H _ (__init___wf config_ lowercase_keys)) as [Hwf Hlc].
  split; [done|]. intros ->. apply Hwf. by rewrite Hlc.
Qed.

(** ** Flattening, leaf by leaf *)

(** The leaves of a nested mapping, each with the path to it joined by
    dots, in the order of the mapping. *)
Fixpoint dotted_leaves (lowercase : bool) (n : nested) : list (string * value) :=
  match n with
  | Leaf _ => []
  | Dict d =>
      (fix go (its : list (string * nested)) : list (string * value) :=
         match its with
         | [] => []
         | (k, Leaf v) :: rest => (key_case lowercase k, v) :: go rest
         | (k, Dict _ as sub) :: rest =>
             ((λ kv, (key_case lowercase k +:+ "." +:+ kv.1, kv.2))
                <$> dotted_leaves lowercase sub)
             ++ go rest
         end) d
  end.

Lemma dotted_leaves_cons_leaf lowercase k v d :
  dotted_leaves lowercase (Dict ((k, Leaf v) :: d))
  = (key_case lowercase k, v) :: dotted_leaves lowercase (Dict d).
Proof. reflexivity. Qed.

Lemma dotted_leaves_cons_dict lowercase k sub d :
  dotted_leaves lowercase (Dict ((k, Dict sub) :: d))
  = (((λ kv, (key_case lowercase k +:+ "." +:+ kv.1, kv.2))
        <$> dotted_leaves lowercase (Dict sub))
     ++ dotted_leaves lowercase (Dict d))%list.
Proof. reflexivity. Qed.

Lemma elem_of_dotted_leaves lowercase d key v :
  (key, v) ∈ dotted_leaves lowercase (Dict d)
  ↔ (key, v) ∈ scalar_items lowercase d
    ∨ ∃ k sub ki, (k, Dict sub) ∈ d
                  ∧ (ki, v) ∈ dotted_leaves lowercase (Dict sub)
                  ∧ key = key_case lowercase k +:+ "." +:+ ki.
Proof.
  induction d as [|[k [x|sub]] d IH].
  - split; [by intros ?%elem_of_nil|].
    intros [?%elem_of_nil|(k & sub & ki & ?%elem_of_nil & _)]; done.
  - rewrite dotted_leaves_cons_leaf. cbn [scalar_items].
    rewrite !elem_of_cons, IH. split.
    + intros [?|[?|(k' & sub & ki & ? & ? & ?)]]; [by left; left|by left; right|].
      right. exists k', sub, ki. split; [by apply list_elem_of_further|done].
    + intros [[?|?]|(k' & sub & ki & Hin & ? & ?)];
        [by left|by right; left|].
      apply elem_of_cons in Hin as [[=]|Hin].
      right. right. by exists k', sub, ki.
  - rewrite dotted_leaves_cons_dict. cbn [scalar_items].
    rewrite elem_of_app, IH, list_elem_of_fmap. split.
    + intros [([ki vi] & [= -> ->] & Hin)|[?|(k' & sub' & ki & ? & ? & ?)]].
      * right. exists k, sub, ki. split; [apply list_elem_of_here|done].
      * by left.
      * right. exists k', sub', ki. split; [by apply list_elem_of_further|done].
    + intros [?|(k' & sub' & ki & Hin & Hki & ->)]; [by right; left|].
      apply elem_of_cons in Hin as [[= -> ->]|Hin].
      * left. by exists (ki, v).
      * right. right. by exists k', sub', ki.
Qed.

Lemma dict_update_functional (d : gmap string value) its k v :
  (k, v) ∈ its → (∀ v', (k, v') ∈ its → v' = v) →
  dict_update d its !! k = Some v.
Proof.
  revert d. induction its as [|[k' v'] its IH]; intros d Hin Hf.
  { by apply elem_of_nil in Hin. }
  change (dict_update (<[k':=v']> d) its !! k = Some v).
  destruct (decide (k ∈ its.*1)) as [Hk|Hk].
  - apply list_elem_of_fmap in Hk as [[k0 v0] [Heq Hk]]. simpl in Heq. subst k0.
    assert (v0 = v) as -> by (apply Hf; by apply list_elem_of_further).
    apply IH; [done|]. intros v'' Hv''. apply Hf. by apply list_elem_of_further.
  - rewrite dict_update_notin by done.
    apply elem_of_cons in Hin as [[= <- <-]|Hin].
    + apply lookup_insert_eq.
    + exfalso. apply Hk. apply list_elem_of_fmap. by exists (k, v).
Qed.

Lemma elem_of_nested_items lowercase d k sub :
  (k, Dict sub) ∈ d → (k, _flatten_dict lowercase sub) ∈ nested_items lowercase d.
Proof.
  induction d as [|[k' [x|sub']] d IH]; simpl; intros Hin.
  - by apply elem_of_nil in Hin.
  - apply elem_of_cons in Hin as [[=]|Hin]. by apply IH.
  - apply elem_of_cons in Hin as [[= -> ->]|Hin]; [apply list_elem_of_here|].
    apply list_elem_of_further. by apply IH.
Qed.

(** Every stored key is a leaf of the mapping. *)
Lemma _flatten_dict_sound lowercase d key v :
  _flatten_dict lowercase d !! key = Some v →
  (key, v) ∈ dotted_leaves lowercase (Dict d).
Proof.
  unfold _flatten_dict. revert key v.
  induction (Dict d) as [x|its IH] using nested_rect'; intros key v.
  { intros H. simpl in H. by rewrite lookup_empty in H. }
  change (_flatten_dict lowercase its !! key = Some v
          → (key, v) ∈ dotted_leaves lowercase (Dict its)).
  intros H. apply elem_of_dotted_leaves.
  apply _flatten_dict_lookup_inv in H as [H|(k & sub & ki & Hin & Hki & ->)];
    [by left|right].
  exists k, sub, ki. split; [done|]. split; [|done].
  rewrite Forall_forall in IH. by apply (IH _ Hin).
Qed.

(** A leaf is stored with its value when no other leaf with another value
    has the same dotted key. *)
Lemma _flatten_dict_complete lowercase d key v :
  (key, v) ∈ dotted_leaves lowercase (Dict d) →
  (∀ v', (key, v') ∈ dotted_leaves lowercase (Dict d) → v' = v) →
  _flatten_dict lowercase d !! key = Some v.
Proof.
  unfold _flatten_dict. revert key v.
  induction (Dict d) as [x|its IH] using nested_rect'; intros key v.
  { by intros ?%elem_of_nil. }
  change ((key, v) ∈ dotted_leaves lowercase (Dict its)
          → (∀ v', (key, v') ∈ dotted_leaves lowercase (Dict its) → v' = v)
          → _flatten_dict lowercase its !! key = Some v).
  intros Hin Hf. rewrite _flatten_dict_unfold, <- dict_update_app.
  apply dict_update_functional.
  - apply elem_of_app.
    apply elem_of_dotted_leaves in Hin as [?|(k & sub & ki & Hk & Hki & ->)];
      [by right|left].
    apply list_elem_of_In, in_concat.
    exists (prefixed_items (key_case lowercase k) (_flatten_dict lowercase sub)).
    split.
    + apply list_elem_of_In, list_elem_of_fmap.
      exists (k, _flatten_dict lowercase sub). split; [done|].
      rewrite set_order_perm. by apply elem_of_nested_items.
    + apply list_elem_of_In. unfold prefixed_items. apply list_elem_of_fmap.
      exists (ki, v). split; [done|]. apply elem_of_map_to_list.
      rewrite Forall_forall in IH. apply (IH _ Hk); [done|].
      intros v' Hv'. apply Hf, elem_of_dotted_leaves. right.
      by exists k, sub, ki.
  - intros v' Hv'. apply Hf, elem_of_dotted_leaves.
    apply elem_of_app in Hv' as [Hv'|?]; [right|by left].
    apply list_elem_of_In, in_concat in Hv' as (l & Hl & Hv').
    apply list_elem_of_In, list_elem_of_fmap in Hl as ([k sub] & -> & Hks).
    rewrite set_order_perm in Hks.
    apply nested_items_elem in Hks as (items & Hd & ->).
    apply list_elem_of_In in Hv'. unfold prefixed_items in Hv'. simpl in Hv'.
    apply list_elem_of_fmap in Hv' as ([ki vi] & [= -> ->] & Hki).
    apply elem_of_map_to_list in Hki.
    exists k, items, ki. split; [done|]. split; [|done].
    by apply _flatten_dict_sound.
Qed.

(** X2. What [_flatten_dict] stores, leaf by leaf: every stored key is the
    dotted path of a leaf of the nested mapping (case-folded segment by
    segment under the flag) with the value of that leaf, so an empty nested
    mapping leaves no key; a leaf is stored under its dotted path with its
    value whenever no leaf with another value has the same dotted path; and
    when a value that is no mapping sits at the top level under a key that
    the expansion of a nested mapping also produces, the top-level value is
    the one stored. *)
Theorem flatten_stores_the_dotted_leaves lowercase d key v :
  (_flatten_dict lowercase d !! key = Some v →
     (key, v) ∈ dotted_leaves lowercase (Dict d))
  ∧ ((key, v) ∈ dotted_leaves lowercase (Dict d) →
     (∀ v', (key, v') ∈ dotted_leaves lowercase (Dict d) → v' = v) →
     _flatten_dict lowercase d !! key = Some v)
  ∧ ((key, v) ∈ scalar_items lowercase d →
     (∀ v', (key, v') ∈ scalar_items lowercase d → v' = v) →
     _flatten_dict lowercase d !! key = Some v).
Proof.
  split; [apply _flatten_dict_sound|]. split; [apply _flatten_dict_complete|].
  intros Hin Hf. rewrite _flatten_dict_unfold.
  by apply dict_update_functional.
Qed.

(** ** Membership, [pop], [setdefault], [get_dict] *)

(** A dictionary that holds no [Configuration] object as a value. *)
Definition scalars (d : gmap string value) : Prop :=
  ∀ k v, d !! k = Some v → is_Configuration v = false.

Lemma key_under_exists (d : gmap string value) p :
  sub_view d p ≠ ∅ ∨ is_Some (d !! p) →
  ∃ k, is_Some (d !! k) ∧ under p k = true.
Proof.
  intros [Hne|Hp].
  - apply dict_is_empty_false, dict_is_empty_lookup in Hne as (r & v & Hr).
    rewrite sub_view_lookup in Hr. exists (p +:+ "." +:+ r). split; [eauto|].
    unfold under. apply orb_true_iff. right.
    by rewrite <- string_app_assoc, startswith_app.
  - exists p. split; [done|]. unfold under.
    by rewrite bool_decide_eq_true_2.
Qed.

Lemma __getitem___Ok_under self p v :
  wf self → __getitem__ self p = Ok v →
  ∃ k, is_Some (_config self !! k) ∧ under p k = true.
Proof.
  intros Hwf. rewrite __getitem___spec by done.
  destruct (dict_is_empty (sub_view (_config self) p)) eqn:He.
  - destruct (_config self !! p) as [x|] eqn:Hp; [|done].
    intros _. apply key_under_exists. right. eauto.
  - intros _. apply key_under_exists. left. by apply dict_is_empty_false.
Qed.

Lemma __getitem___scalars self p :
  wf self → scalars (_config self) →
  __getitem__ self p = Raise KeyError ∨ ∃ v, __getitem__ self p = Ok v.
Proof.
  intros Hwf Hsc. rewrite __getitem___spec by done.
  destruct (dict_is_empty (sub_view (_config self) p)); [|eauto].
  destruct (_config self !! p) as [x|] eqn:Hp; [|by left].
  right. specialize (Hsc _ _ Hp). destruct x; eauto. done.
Qed.

Lemma __delitem___Ok_iff self p :
  wf self →
  (∃ self', __delitem__ self p = Ok self')
  ↔ ∃ k, is_Some (_config self !! k) ∧ under p k = true.
Proof.
  intros Hwf. split.
  - intros [self' Hd]. pose proof (elem_of_delitem_remove self p) as Hrem.
    unfold __delitem__ in Hd.
    destruct (filter _ _) as [|x l] eqn:Hf; [done|].
    exists x. apply (Hrem x Hwf). apply list_elem_of_here.
  - intros (k & Hk & Hu).
    destruct (__delitem__ self p) as [c|e] eqn:Hd; [eauto|].
    pose proof (__delitem___raises _ _ _ Hd) as ->.
    pose proof (proj1 (__delitem___KeyError_iff self p Hwf) Hd) as Hno.
    by rewrite (Hno k Hk) in Hu.
Qed.

Lemma scalars_delitem self p self' :
  wf self → scalars (_config self) → __delitem__ self p = Ok self' →
  scalars (_config self').
Proof.
  intros Hwf Hsc Hd k v Hk.
  apply __delitem___lookup in Hd as [_ Hl]; [|done].
  rewrite Hl in Hk. destruct (under p k); [done|]. by apply (Hsc k).
Qed.

(** X3. On a store that holds no [Configuration] object as a value,
    [prefix in self] never raises; it is [True] exactly when some stored key
    is [prefix] or lies under [prefix + "."], which is exactly when
    [del self[prefix]] succeeds; and after that deletion it is [False]. *)
Theorem contains_iff_delitem_succeeds self prefix :
  wf self → scalars (_config self) →
  (∃ b, __contains__ self prefix = Ok b)
  ∧ (__contains__ self prefix = Ok true
     ↔ ∃ k, is_Some (_config self !! k) ∧ under prefix k = true)
  ∧ (__contains__ self prefix = Ok true
     ↔ ∃ self', __delitem__ self prefix = Ok self')
  ∧ (∀ self', __delitem__ self prefix = Ok self' →
              __contains__ self' prefix = Ok false).
Proof.
  intros Hwf Hsc.
  assert (∀ c, wf c → scalars (_config c) →
               __contains__ c prefix = Ok true
               ↔ ∃ k, is_Some (_config c !! k) ∧ under prefix k = true) as Hiff.
  { intros c Hc Hs. unfold __contains__. split.
    - destruct (__getitem__ c prefix) as [v|e] eqn:Hg; [|by destruct e].
      intros _. by eapply __getitem___Ok_under.
    - intros (k & Hk & Hu).
      destruct (__getitem___scalars c prefix Hc Hs) as [Hg|[v ->]]; [|done].
      pose proof (proj1 (__getitem___KeyError_iff c prefix Hc) Hg) as Hno.
      by rewrite (Hno k Hk) in Hu. }
  assert (∀ c, wf c → scalars (_config c) →
               ∃ b, __contains__ c prefix = Ok b) as Htot.
  { intros c Hc Hs. unfold __contains__.
    destruct (__getitem___scalars c prefix Hc Hs) as [->|[v ->]]; eauto. }
  split; [by apply Htot|]. split; [by apply Hiff|].
  split; [by rewrite Hiff, __delitem___Ok_iff|].
  intros self' Hd.
  pose proof (__delitem___wf _ _ _ Hwf Hd) as Hwf'.
  pose proof (scalars_delitem _ _ _ Hwf Hsc Hd) as Hsc'.
  destruct (Htot self' Hwf' Hsc') as [[] Hb]; [|done].
  apply (Hiff self' Hwf' Hsc') in Hb as (k & [v Hk] & Hu).
  apply __delitem___lookup in Hd as [_ Hl]; [|done].
  by rewrite Hl, Hu in Hk.
Qed.

(** X4. [get_dict(item)] on a store that keeps its invariant: when keys lie
    under [item + "."] it returns their sub-view, with the prefix cut off;
    when [item] names nothing in the store, where [self[item]] raises
    [KeyError], it returns the empty dictionary; and when [item] is the key
    of a value that is neither a mapping nor a [Configuration], it raises
    [ValueError] for a non-empty string, returns the empty dictionary for
    the empty string, and raises [TypeError] for [None], a boolean and an
    integer. So [get_dict(item)] does not raise [KeyError] unless a
    [Configuration] is stored at [item] itself. *)
Theorem get_dict_of_missing_key_is_empty self item :
  wf self →
  (sub_view (_config self) item ≠ ∅ →
     get_dict self item = Ok (sub_view (_config self) item))
  ∧ (sub_view (_config self) item = ∅ → _config self !! item = None →
     get_dict self item = Ok ∅ ∧ __getitem__ self item = Raise KeyError)
  ∧ (sub_view (_config self) item = ∅ →
     ∀ v, _config self !! item = Some v → is_Configuration v = false →
          get_dict self item
          = match v with
            | VStr EmptyString => Ok ∅
            | VStr _ => Raise ValueError
            | _ => Raise TypeError
            end)
  ∧ ((∀ v, _config self !! item = Some v → is_Configuration v = false) →
     get_dict self item ≠ Raise KeyError).
Proof.
  intros Hwf. unfold get_dict. rewrite _get_subset_spec by done.
  split; [|split; [|split]].
  - intros Hne. apply dict_is_empty_false in Hne. by rewrite Hne.
  - intros He Hk. split.
    + apply dict_is_empty_true in He. rewrite He. unfold dict_get_or_empty.
      by rewrite Hk.
    + apply (proj2 (__getitem___KeyError_iff self item Hwf)).
      by apply no_key_under.
  - intros He v Hk Hv. apply dict_is_empty_true in He. rewrite He.
    unfold dict_get_or_empty. rewrite Hk. by destruct v as [| | |[|]|].
  - intros Hno. destruct (dict_is_empty (sub_view (_config self) item)); [|done].
    unfold dict_get_or_empty.
    destruct (_config self !! item) as [v|] eqn:Hk; [|done].
    specialize (Hno v eq_refl). by destruct v as [| | |[|]|].
Qed.

(** X5. [pop(prefix, default)] on a store that keeps its invariant. When
    [self[prefix]] returns, [pop] returns the same value and removes exactly
    the keys that are [prefix] or lie under [prefix + "."]: the deletion
    cannot fail after the read. When no stored key is [prefix] or lies under
    it, [pop] raises [KeyError] for the default [None] and returns any other
    default, leaving the store as it was. *)
Theorem pop_returns_the_read_and_removes self prefix default :
  wf self →
  (∀ v, __getitem__ self prefix = Ok v →
     ∃ self', pop self prefix default = Ok (v, self')
              ∧ _lowercase self' = _lowercase self
              ∧ ∀ k, _config self' !! k
                     = if under prefix k then None else _config self !! k)
  ∧ ((∀ k, is_Some (_config self !! k) → under prefix k = false) →
     pop self prefix default
     = match default with
       | VNone => Raise KeyError
       | _ => Ok (default, self)
       end).
Proof.
  intros Hwf. split.
  - intros v Hg. unfold pop. rewrite Hg.
    pose proof (__getitem___Ok_under _ _ _ Hwf Hg) as Hex.
    apply (proj2 (__delitem___Ok_iff self prefix Hwf)) in Hex as [self' Hd].
    rewrite Hd. exists self'. split; [done|].
    by apply __delitem___lookup.
  - intros Hno. unfold pop.
    by rewrite (proj2 (__getitem___KeyError_iff self prefix Hwf) Hno).
Qed.

(** X6. [setdefault(key, default)] on a store that keeps its invariant.
    When [self[key]] returns, that value is returned and nothing is written.
    When no stored key is [key] or lies under [key + "."], a default that is
    neither a mapping nor a [Configuration] is stored under [key] and
    returned, provided the case-folding of the store leaves [key] as it
    is. *)
Theorem setdefault_reads_or_writes self key :
  wf self →
  (∀ default v, __getitem__ self key = Ok v →
     setdefault self key default = (self, Ok v))
  ∧ (∀ v, (∀ k, is_Some (_config self !! k) → under key k = false) →
     is_Configuration v = false →
     key_case (_lowercase self) key = key →
     setdefault self key (Leaf v) = (__setitem__ self key (Leaf v), Ok v)
     ∧ _config (__setitem__ self key (Leaf v)) = <[key := v]> (_config self)).
Proof.
  intros Hwf. split.
  - intros default v Hg. unfold setdefault. by rewrite Hg.
  - intros v Hno Hv Hcase. unfold setdefault.
    rewrite (proj2 (__getitem___KeyError_iff self key Hwf) Hno).
    apply no_key_under in Hno as [He Hk].
    split; [|by rewrite __setitem___scalar, Hcase].
    f_equal. rewrite __getitem___spec by by apply update_wf.
    rewrite __setitem___scalar, Hcase, sub_view_insert_self.
    apply dict_is_empty_true in He. rewrite He, lookup_insert_eq.
    by destruct v.
Qed.

(** ** Keys that are not lower-case, on a case-folding store *)

Lemma lower_length s : String.length (PyStr.lower s) = String.length s.
Proof. induction s as [|c s IH]; simpl; [done|]. by rewrite IH. Qed.

Lemma string_app_inj_length (a a' b b' : string) :
  String.length a = String.length a' → a +:+ b = a' +:+ b' → a = a'.
Proof.
  revert a'. induction a as [|x a IH]; intros [|x' a'] Hlen H; try done.
  rewrite !string_app_cons in H. injection H as -> H.
  f_equal. apply (IH a'); [|done]. simpl in Hlen. lia.
Qed.

Lemma under_lower p k :
  PyStr.lower k = k → under p k = true → PyStr.lower p = p.
Proof.
  intros Hk. unfold under. intros [Heq|Hs]%orb_true_iff.
  - apply bool_decide_eq_true in Heq. by subst.
  - apply startswith_iff in Hs as [r ->].
    rewrite !lower_app, !string_app_assoc in Hk.
    apply string_app_inj_length in Hk; [done|]. apply lower_length.
Qed.

Lemma folded_no_key_under self key :
  wf self → _lowercase self = true → PyStr.lower key ≠ key →
  ∀ k, is_Some (_config self !! k) → under key k = false.
Proof.
  intros Hwf Hlc Hkey k Hk. destruct (under key k) eqn:Hu; [|done].
  exfalso. apply Hkey. apply (under_lower key k); [|done]. by apply (Hwf Hlc).
Qed.

(** X7. Keys are case-folded when they are stored and not when they are
    looked up. On a store with [lowercase_keys] set, for every key that is
    not its own lower-case form: [self[key]] and [del self[key]] raise
    [KeyError] and [key in self] is [False], whatever the store holds;
    [self[key] = v] stores [v] under the lower-cased key, where
    [self[key.lower()]] finds it when nothing lies under it; and
    [setdefault(key, v)] writes [v] under the lower-cased key and then
    raises [KeyError]. *)
Theorem lookups_are_not_case_folded self key v :
  wf self → _lowercase self = true → PyStr.lower key ≠ key →
  __getitem__ self key = Raise KeyError
  ∧ __delitem__ self key = Raise KeyError
  ∧ __contains__ self key = Ok false
  ∧ _config (__setitem__ self key (Leaf v))
    = <[PyStr.lower key := v]> (_config self)
  ∧ __getitem__ (__setitem__ self key (Leaf v)) key = Raise KeyError
  ∧ setdefault self key (Leaf v)
    = (__setitem__ self key (Leaf v), Raise KeyError)
  ∧ (is_Configuration v = false →
     sub_view (_config self) (PyStr.lower key) = ∅ →
     __getitem__ (__setitem__ self key (Leaf v)) (PyStr.lower key) = Ok v).
Proof.
  intros Hwf Hlc Hkey.
  assert (∀ c, wf c → _lowercase c = true →
               __getitem__ c key = Raise KeyError) as Hget.
  { intros c Hc Hl. apply (proj2 (__getitem___KeyError_iff c key Hc)).
    by apply folded_no_key_under. }
  assert (wf (__setitem__ self key (Leaf v))) as Hwf' by by apply update_wf.
  assert (_config (__setitem__ self key (Leaf v))
          = <[PyStr.lower key := v]> (_config self)) as Hcfg.
  { rewrite __setitem___scalar. unfold key_case. by rewrite Hlc. }
  split; [by apply Hget|].
  split; [apply (proj2 (__delitem___KeyError_iff self key Hwf));
          by apply folded_no_key_under|].
  split; [unfold __contains__; by rewrite Hget|].
  split; [done|].
  split; [by apply Hget|].
  split; [unfold setdefault; rewrite (Hget self Hwf Hlc);
          by rewrite (Hget _ Hwf')|].
  intros Hv He. rewrite __getitem___spec by done.
  rewrite Hcfg, sub_view_insert_self.
  apply dict_is_empty_true in He. rewrite He, lookup_insert_eq.
  by destruct v.
Qed.

(** ** [copy] and [clear] *)

Lemma copy_config self : _config (copy self) = _config self.
Proof. apply _flatten_dict_flat, keys_folded_false. Qed.

(** X8. [copy()] builds the new store with [Configuration(self._config)]:
    it holds the same dictionary and answers every read as the original
    does, but it does not take over the case-folding policy. Its flag is
    off, so a later [self[k] = v] on the copy of a case-folding store keeps
    the key as written. *)
Theorem copy_drops_the_case_folding_policy self :
  _config (copy self) = _config self
  ∧ _lowercase (copy self) = false
  ∧ (wf self → ∀ item, __getitem__ (copy self) item = __getitem__ self item)
  ∧ (∀ k v, _config (__setitem__ (copy self) k (Leaf v))
            = <[k := v]> (_config self)).
Proof.
  split; [apply copy_config|]. split; [done|]. split.
  - intros Hwf item.
    rewrite (__getitem___spec (copy self)) by apply keys_folded_false.
    rewrite (__getitem___spec self) by done. by rewrite copy_config.
  - intros k v. by rewrite __setitem___scalar, copy_config.
Qed.

(** X9. After [clear()] the store is empty and keeps its policy: its length
    is [0], every read raises [KeyError], [get] returns its default,
    [keys()] is the empty list, and a key written next is case-folded as
    before. *)
Theorem clear_empties_and_keeps_the_policy self :
  __len__ (clear self) = 0
  ∧ (∀ item, __getitem__ (clear self) item = Raise KeyError)
  ∧ (∀ key default, get (clear self) key default = default)
  ∧ (∀ levels, levels ≠ Some 0 → keys (clear self) levels = Ok (KeysList []))
  ∧ (∀ k v, _config (__setitem__ (clear self) k (Leaf v))
            = {[key_case (_lowercase self) k := v]}).
Proof.
  assert (∀ item, __getitem__ (clear self) item = Raise KeyError) as Hget.
  { intros item.
    apply (proj2 (__getitem___KeyError_iff (clear self) item (clear_wf self))).
    intros k [v Hk]. simpl in Hk. by rewrite lookup_empty in Hk. }
  split; [done|]. split; [done|]. split; [done|]. split.
  - intros levels Hl. unfold keys. rewrite bool_decide_eq_false_2 by done.
    by rewrite Hget.
  - intros k v. rewrite __setitem___scalar. simpl. by rewrite insert_empty.
Qed.

(** ** [keys] and [items] *)

Lemma join_app sep (l1 l2 : list string) :
  l1 ≠ [] → l2 ≠ [] →
  PyStr.join sep (l1 ++ l2)
  = PyStr.join sep l1 +:+ sep +:+ PyStr.join sep l2.
Proof.
  intros H1 H2. induction l1 as [|a [|b l1] IH]; [done| |].
  - destruct l2 as [|y l2]; [done|]. reflexivity.
  - change (PyStr.join sep (a :: b :: (l1 ++ l2))
            = PyStr.join sep (a :: b :: l1) +:+ sep +:+ PyStr.join sep l2).
    rewrite !join_cons. change (b :: (l1 ++ l2))%list with ((b :: l1) ++ l2)%list.
    rewrite IH by done. by rewrite !string_app_assoc.
Qed.

(** A key cut to its first segments is the key itself or a prefix of it. *)
Lemma under_take_levels levels x :
  levels ≠ Some 0 →
  under (PyStr.join "." (take_levels levels (PyStr.split "." x))) x = true.
Proof.
  intros Hl. unfold under. apply orb_true_iff.
  destruct levels as [[|n]|]; [done| |].
  - cbn [take_levels].
    pose proof (split_nonempty "." x) as Hne.
    pose proof (join_split x) as Hx.
    rewrite <- (take_drop (S n) (PyStr.split "." x)) in Hx.
    destruct (drop (S n) (PyStr.split "." x)) as [|y t] eqn:Hd.
    + left. apply bool_decide_eq_true_2. by rewrite app_nil_r in Hx.
    + right. rewrite join_app in Hx.
      * rewrite <- Hx at 1. by rewrite <- string_app_assoc, startswith_app.
      * by destruct (PyStr.split "." x).
      * done.
  - left. apply bool_decide_eq_true_2. cbn [take_levels]. by rewrite join_split.
Qed.

Lemma elem_of_keys_list (d : gmap string value) levels k :
  k ∈ elements
        (list_to_set
           ((λ x, PyStr.join "." (take_levels levels (PyStr.split "." x)))
              <$> elements (dom d)) : gset string)
  ↔ ∃ x, is_Some (d !! x)
         ∧ k = PyStr.join "." (take_levels levels (PyStr.split "." x)).
Proof.
  rewrite elem_of_elements, elem_of_list_to_set, list_elem_of_fmap.
  split.
  - intros (x & -> & Hx). exists x. split; [|done].
    by apply elem_of_elements, elem_of_dom in Hx.
  - intros (x & Hx & ->). exists x. split; [done|].
    by apply elem_of_elements, elem_of_dom.
Qed.

Lemma keys_list self levels :
  wf self → levels ≠ Some 0 →
  _config self !! "keys" = None → sub_view (_config self) "keys" = ∅ →
  keys self levels
  = Ok (KeysList
          (elements
             (list_to_set
                ((λ x, PyStr.join "." (take_levels levels (PyStr.split "." x)))
                   <$> elements (dom (_config self))) : gset string))).
Proof.
  intros Hwf Hl Hk Hs. unfold keys. rewrite bool_decide_eq_false_2 by done.
  rewrite __getitem___spec by done.
  apply dict_is_empty_true in Hs. by rewrite Hs, Hk.
Qed.

(** X10. [keys(levels)] on a store that keeps its invariant and holds
    nothing at or under the name [keys]: the result is a list without
    duplicates of the stored keys cut to their first [levels] segments (of
    the stored keys themselves without [levels]), and every key of the list
    can be read back, [self[k]] does not raise [KeyError]. When a value
    that is no [Configuration] is stored at [keys], and nothing under it,
    [keys(levels)] returns that value instead. *)
Theorem keys_cut_to_levels_are_readable self levels :
  wf self → levels ≠ Some 0 →
  (_config self !! "keys" = None → sub_view (_config self) "keys" = ∅ →
     ∃ l, keys self levels = Ok (KeysList l) ∧ NoDup l
          ∧ (∀ k, k ∈ l
                  ↔ ∃ x, is_Some (_config self !! x)
                         ∧ k = PyStr.join "."
                                 (take_levels levels (PyStr.split "." x)))
          ∧ (levels = None → ∀ k, k ∈ l ↔ is_Some (_config self !! k))
          ∧ (∀ k, k ∈ l → __getitem__ self k ≠ Raise KeyError))
  ∧ (∀ v, _config self !! "keys" = Some v → is_Configuration v = false →
          sub_view (_config self) "keys" = ∅ →
          keys self levels = Ok (KeysStored v)).
Proof.
  intros Hwf Hl. split.
  - intros Hk Hs. eexists. split; [by apply keys_list|].
    split; [apply NoDup_elements|]. split; [apply elem_of_keys_list|]. split.
    + intros -> k. rewrite elem_of_keys_list. cbn [take_levels]. split.
      * intros (x & Hx & ->). by rewrite join_split.
      * intros Hx. exists k. by rewrite join_split.
    + intros k (x & Hx & ->)%elem_of_keys_list Hg.
      pose proof (proj1 (__getitem___KeyError_iff self _ Hwf) Hg x Hx) as Hu.
      by rewrite under_take_levels in Hu.
  - intros v Hk Hv Hs. unfold keys. rewrite bool_decide_eq_false_2 by done.
    rewrite __getitem___spec by done.
    apply dict_is_empty_true in Hs. rewrite Hs, Hk. by destruct v.
Qed.

Lemma foldl_insert_lookup {A} (f : string → A) (m : gmap string A) ks k :
  foldl (λ acc k, <[k := f k]> acc) m ks !! k
  = if decide (k ∈ ks) then Some (f k) else m !! k.
Proof.
  revert m. induction ks as [|x ks IH]; intros m.
  { destruct (decide (k ∈ [])) as [Hin|_]; [|done]. by apply elem_of_nil in Hin. }
  cbn [foldl]. rewrite IH.
  destruct (decide (k ∈ ks)) as [Hin|Hin];
    destruct (decide (k ∈ x :: ks)) as [Hin'|Hin'].
  - done.
  - exfalso. apply Hin'. by apply list_elem_of_further.
  - apply elem_of_cons in Hin' as [->|?]; [|done]. by rewrite lookup_insert_eq.
  - apply lookup_insert_ne. intros ->. apply Hin', list_elem_of_here.
Qed.

(** X11. [items(levels)] on a store that keeps its invariant and holds
    nothing at or under the names [keys] and [items]: the result has exactly
    the keys of [keys(levels)]; a key under which stored keys lie is mapped
    to their sub-view, never an empty one, and any other key to the value
    stored at it. On a store in which no key is also a prefix of another and
    no value is a [Configuration], [items()] gives back the stored
    dictionary. *)
Theorem items_follow_keys self levels :
  wf self → levels ≠ Some 0 →
  _config self !! "keys" = None → sub_view (_config self) "keys" = ∅ →
  _config self !! "items" = None → sub_view (_config self) "items" = ∅ →
  ∃ l m, keys self levels = Ok (KeysList l)
         ∧ items self levels = Ok (ItemsDict m)
         ∧ (∀ k, is_Some (m !! k) ↔ k ∈ l)
         ∧ (∀ k d, m !! k = Some (SubDict d) →
                   d = sub_view (_config self) k ∧ d ≠ ∅)
         ∧ (∀ k v, m !! k = Some (SubValue v) →
                   _config self !! k = Some v
                   ∧ sub_view (_config self) k = ∅)
         ∧ (plain (_config self) → levels = None →
            m = SubValue <$> _config self).
Proof.
  intros Hwf Hl Hk Hks Hi His.
  pose proof (keys_list self levels Hwf Hl Hk Hks) as Hkeys.
  set (l := elements _) in Hkeys.
  exists l, (foldl (λ acc k, <[k := _get_subset self k]> acc) ∅ l).
  split; [done|]. split.
  { unfold items. rewrite bool_decide_eq_false_2 by done.
    rewrite __getitem___spec by done.
    apply dict_is_empty_true in His. rewrite His, Hi.
    by rewrite Hkeys. }
  assert (∀ k, k ∈ l →
               _get_subset self k
               = if dict_is_empty (sub_view (_config self) k)
                 then match _config self !! k with
                      | Some v => SubValue v
                      | None => SubDict ∅
                      end
                 else SubDict (sub_view (_config self) k)) as Hsub.
  { intros k _. by rewrite _get_subset_spec. }
  assert (∀ k, k ∈ l → sub_view (_config self) k = ∅ →
               is_Some (_config self !! k)) as Hread.
  { intros k (x & Hx & ->)%elem_of_keys_list He.
    destruct (_config self !! PyStr.join "."
                (take_levels levels (PyStr.split "." x))) eqn:Hkx; [done|].
    exfalso.
    pose proof (proj2 (no_key_under (_config self) _) (conj He Hkx) x Hx) as Hu.
    by rewrite under_take_levels in Hu. }
  split; [|split; [|split]].
  - intros k. rewrite foldl_insert_lookup, lookup_empty.
    destruct (decide (k ∈ l)); split; try done; by intros [].
  - intros k d. rewrite foldl_insert_lookup, lookup_empty.
    destruct (decide (k ∈ l)) as [Hin|]; [|done]. rewrite (Hsub k Hin).
    destruct (dict_is_empty (sub_view (_config self) k)) eqn:He.
    + apply dict_is_empty_true in He.
      by destruct (Hread k Hin He) as [v ->].
    + intros [= <-]. split; [done|]. by apply dict_is_empty_false.
  - intros k v. rewrite foldl_insert_lookup, lookup_empty.
    destruct (decide (k ∈ l)) as [Hin|]; [|done]. rewrite (Hsub k Hin).
    destruct (dict_is_empty (sub_view (_config self) k)) eqn:He; [|done].
    apply dict_is_empty_true in He.
    destruct (Hread k Hin He) as [v' Hv']. rewrite Hv'. by intros [= <-].
  - intros (_ & _ & Hp) ->. apply map_eq. intros k.
    rewrite foldl_insert_lookup, lookup_empty, lookup_fmap.
    destruct (decide (k ∈ l)) as [Hin|Hin].
    + rewrite (Hsub k Hin).
      apply elem_of_keys_list in Hin as (x & [v Hx] & ->).
      cbn [take_levels]. rewrite join_split.
      destruct (Hp x v Hx) as [_ He]. apply dict_is_empty_true in He.
      by rewrite He, Hx.
    + destruct (_config self !! k) eqn:Hkx; [|done]. exfalso. apply Hin.
      apply elem_of_keys_list. exists k. cbn [take_levels].
      by rewrite join_split.
Qed.

(** ** The resolved dictionary of a set of layers *)

(** The value of the first layer, in priority order, that stores [k]. *)
Definition first_defining (k : string) (configs : list Configuration)
  : option value :=
  foldr (λ c acc, match _config c !! k with Some v => Some v | None => acc end)
        None configs.

Lemma as_dict_layers_lookup (cs : list Configuration) k :
  foldl (λ result c, dict_update_dict result (as_dict c)) ∅ (reverse cs) !! k
  = first_defining k cs.
Proof.
  induction cs as [|c cs IH]; [done|].
  rewrite reverse_cons, foldl_app. cbn [foldl first_defining foldr].
  fold (first_defining k cs).
  unfold dict_update_dict at 1. rewrite lookup_union, IH. unfold as_dict.
  by destruct (_config c !! k) as [v|], (first_defining k cs).
Qed.

Lemma as_dict_lookup h self k :
  ConfigurationSet_as_dict h self !! k = first_defining k (layers h self).
Proof. apply as_dict_layers_lookup. Qed.

Lemma first_defining_app k pre post :
  Forall (λ c, _config c !! k = None) pre →
  first_defining k (pre ++ post) = first_defining k post.
Proof.
  induction 1 as [|c pre Hc _ IH]; [done|].
  cbn [app first_defining foldr]. by rewrite Hc.
Qed.

Lemma first_defining_is_Some k cs :
  is_Some (first_defining k cs) ↔ ∃ c, c ∈ cs ∧ is_Some (_config c !! k).
Proof.
  induction cs as [|c cs IH].
  - split; [by intros []|]. by intros (c & ?%elem_of_nil & _).
  - cbn [first_defining foldr].
    destruct (_config c !! k) as [v|] eqn:Hc.
    + split; [|eauto]. intros _. exists c. split; [apply list_elem_of_here|].
      by rewrite Hc.
    + fold (first_defining k cs). rewrite IH. split.
      * intros (c' & Hin & Hk). exists c'. split; [|done].
        by apply list_elem_of_further.
      * intros (c' & Hin & Hk). apply elem_of_cons in Hin as [->|Hin].
        -- rewrite Hc in Hk. by destruct Hk.
        -- eauto.
Qed.

(** X12. The resolved dictionary [as_dict()] of a set holds, for every key,
    the value of the first layer in priority order that stores the key: a
    layer is invisible for a key that a layer before it stores, the keys
    that only lower layers store are kept, and a key that no layer stores is
    absent. *)
Theorem as_dict_first_layer_wins h self k :
  (∀ pre c post v,
     layers h self = (pre ++ c :: post)%list →
     Forall (λ c', _config c' !! k = None) pre →
     _config c !! k = Some v →
     ConfigurationSet_as_dict h self !! k = Some v)
  ∧ (Forall (λ c, _config c !! k = None) (layers h self) →
     ConfigurationSet_as_dict h self !! k = None)
  ∧ (is_Some (ConfigurationSet_as_dict h self !! k)
     ↔ ∃ c, c ∈ layers h self ∧ is_Some (_config c !! k)).
Proof.
  rewrite as_dict_lookup. split; [|split].
  - intros pre c post v -> Hpre Hc. rewrite first_defining_app by done.
    cbn [first_defining foldr]. by rewrite Hc.
  - intros Hall. rewrite <- (app_nil_r (layers h self)).
    by rewrite first_defining_app.
  - apply first_defining_is_Some.
Qed.

(** ** Reading a key of a set *)

Lemma last_error_KeyError call e0 (cs : list Configuration) :
  cs ≠ [] → Forall (λ c, call c = Raise KeyError) cs →
  last_error call e0 cs = KeyError.
Proof.
  intros Hne Hall. unfold last_error.
  destruct cs as [|c cs _] using rev_ind; [done|].
  rewrite Forall_forall in Hall.
  assert (call c = Raise KeyError) as Hc.
  { apply Hall, elem_of_app. right. apply list_elem_of_here. }
  rewrite foldl_app. cbn [foldl]. by rewrite Hc.
Qed.

Lemma _from_configs_first_scalar call c cs v :
  call c = Ok v → is_Configuration v = false →
  _from_configs call (c :: cs) = Ok v.
Proof.
  intros Hc Hv. unfold _from_configs. rewrite collect_values_spec.
  unfold layer_values. csimpl. rewrite Hc. cbn [forallb].
  by rewrite Hv.
Qed.

Lemma _from_configs_all_KeyError call cs :
  cs ≠ [] → Forall (λ c, call c = Raise KeyError) cs →
  _from_configs call cs = Raise KeyError.
Proof.
  intros Hne Hall. unfold _from_configs. rewrite collect_values_spec.
  rewrite layer_values_failing.
  - by rewrite last_error_KeyError.
  - eapply Forall_impl; [done|]. by intros c ->.
Qed.

Lemma _from_configs_skip call c cs :
  cs ≠ [] → call c = Raise KeyError →
  _from_configs call (c :: cs) = _from_configs call cs.
Proof.
  intros Hne Hc. unfold _from_configs. rewrite !collect_values_spec.
  unfold layer_values, last_error. csimpl. rewrite Hc.
  destruct (omap _ cs) as [|v vs] eqn:Hv; [|done].
  f_equal. destruct cs as [|c' cs _] using rev_ind; [done|].
  rewrite omap_app in Hv. apply app_eq_nil in Hv as [_ Hv]. csimpl in Hv.
  rewrite !foldl_app. cbn [foldl]. by destruct (call c').
Qed.

(** A layer in which no key lies under [key + "."] and the value at [key],
    if there is one, is no [Configuration]. *)
Definition leaf_at (key : string) (c : Configuration) : Prop :=
  wf c ∧ sub_view (_config c) key = ∅
  ∧ ∀ v, _config c !! key = Some v → is_Configuration v = false.

Lemma __getitem___leaf_at key c :
  leaf_at key c →
  __getitem__ c key
  = match _config c !! key with Some v => Ok v | None => Raise KeyError end.
Proof.
  intros (Hwf & He & Hv). rewrite __getitem___spec by done.
  apply dict_is_empty_true in He. rewrite He.
  destruct (_config c !! key) as [v|] eqn:Hk; [|done].
  specialize (Hv v eq_refl). by destruct v.
Qed.

Lemma _from_configs_leaf_at key cs :
  cs ≠ [] → Forall (leaf_at key) cs →
  _from_configs (λ c, __getitem__ c key) cs
  = match first_defining key cs with
    | Some v => Ok v
    | None => Raise KeyError
    end.
Proof.
  intros Hne Hall. induction Hall as [|c cs Hc Hall IH]; [done|].
  cbn [first_defining foldr]. fold (first_defining key cs).
  pose proof (__getitem___leaf_at key c Hc) as Hg.
  destruct (_config c !! key) as [v|] eqn:Hk.
  - apply _from_configs_first_scalar; [done|].
    destruct Hc as (_ & _ & Hv). by apply Hv.
  - destruct cs as [|c' cs'].
    + by apply _from_configs_all_KeyError; [|constructor].
    + rewrite _from_configs_skip by done. by apply IH.
Qed.

(** X13. Reading a leaf through a set agrees with its resolved dictionary.
    When in every layer no key lies under [key + "."] and no
    [Configuration] is stored at [key], [self[key]] is the value that
    [as_dict()] holds at [key], that of the first layer that stores it, and
    raises [KeyError] when no layer stores it; [self.get(key, default)] is
    then that value, or [default]. *)
Theorem set_read_of_leaf_agrees_with_as_dict h self key default :
  layers h self ≠ [] → Forall (leaf_at key) (layers h self) →
  ConfigurationSet__getitem__ h self key
  = match ConfigurationSet_as_dict h self !! key with
    | Some v => Ok v
    | None => Raise KeyError
    end
  ∧ ConfigurationSet_get h self key default
    = from_option id default (ConfigurationSet_as_dict h self !! key).
Proof.
  intros Hne Hall. unfold ConfigurationSet_get, ConfigurationSet__getitem__.
  rewrite _from_configs_leaf_at, as_dict_lookup by done.
  by destruct (first_defining key (layers h self)).
Qed.

(** ** Reading a section of a set *)

(** A layer that does not store [key] itself and whose keys under
    [key + "."], if there are any, form a plain sub-view. *)
Definition section_at (key : string) (c : Configuration) : Prop :=
  wf c ∧ _config c !! key = None
  ∧ (sub_view (_config c) key = ∅ ∨ plain (sub_view (_config c) key)).

(** The sub-views of the layers that have one, in priority order. *)
Definition sub_views (key : string) (cs : list Configuration)
  : list (gmap string value) :=
  omap (λ c, if dict_is_empty (sub_view (_config c) key) then None
             else Some (sub_view (_config c) key)) cs.

Lemma layer_values_section_at key cs :
  Forall (section_at key) cs →
  layer_values (λ c, __getitem__ c key) cs = VConf false <$> sub_views key cs.
Proof.
  induction 1 as [|c cs (Hwf & Hk & _) _ IH]; [done|].
  unfold layer_values, sub_views in *. csimpl.
  rewrite __getitem___spec by done. rewrite Hk.
  destruct (dict_is_empty (sub_view (_config c) key)); csimpl; by rewrite IH.
Qed.

Lemma sub_views_plain key cs :
  Forall (section_at key) cs → Forall plain (sub_views key cs).
Proof.
  induction 1 as [|c cs (Hwf & Hk & Hp) _ IH]; [constructor|].
  unfold sub_views in *. csimpl.
  destruct (dict_is_empty (sub_view (_config c) key)) eqn:He; [done|].
  constructor; [|done]. destruct Hp as [Hp|Hp]; [|done].
  apply dict_is_empty_false in He. done.
Qed.

Lemma sub_views_union key cs r :
  foldr (λ d acc, d ∪ acc) ∅ (sub_views key cs) !! r
  = first_defining (key +:+ "." +:+ r) cs.
Proof.
  induction cs as [|c cs IH]; [done|].
  unfold sub_views in *. csimpl. cbn [first_defining foldr].
  fold (first_defining (key +:+ "." +:+ r) cs).
  rewrite <- (sub_view_lookup (_config c) key r).
  destruct (dict_is_empty (sub_view (_config c) key)) eqn:He.
  - apply dict_is_empty_true in He. by rewrite He, lookup_empty.
  - cbn [foldr]. rewrite lookup_union, IH.
    by destruct (sub_view (_config c) key !! r),
         (first_defining (key +:+ "." +:+ r) cs).
Qed.

(** X14. Reading a section through a set agrees with its resolved
    dictionary. When no layer stores [key] itself, at least one layer holds
    keys under [key + "."], and in each layer these keys form a plain
    sub-view (no key of it is also a prefix of another, no value is a
    [Configuration], nothing is named [keys]), [self[key]] is a
    [Configuration] over exactly the keys that [as_dict()] holds under
    [key + "."], with the prefix cut off: on each key the first layer that
    stores it wins, and the keys of the lower layers are kept. *)
Theorem set_read_of_section_agrees_with_as_dict h self key :
  Forall (section_at key) (layers h self) →
  Exists (λ c, sub_view (_config c) key ≠ ∅) (layers h self) →
  ConfigurationSet__getitem__ h self key
  = Ok (VConf false (sub_view (ConfigurationSet_as_dict h self) key))
  ∧ ∀ r, sub_view (ConfigurationSet_as_dict h self) key !! r
         = first_defining (key +:+ "." +:+ r) (layers h self).
Proof.
  intros Hall Hex.
  assert (∀ r, sub_view (ConfigurationSet_as_dict h self) key !! r
               = first_defining (key +:+ "." +:+ r) (layers h self)) as Hl.
  { intros r. by rewrite sub_view_lookup, as_dict_lookup. }
  split; [|done]. unfold ConfigurationSet__getitem__.
  destruct (sub_views key (layers h self)) as [|d ds] eqn:Hsv.
  { exfalso. apply Exists_exists in Hex as (c & Hin & Hne).
    assert (sub_view (_config c) key ∈ sub_views key (layers h self)) as Hd.
    { unfold sub_views. apply list_elem_of_omap. exists c. split; [done|].
      apply dict_is_empty_false in Hne. by rewrite Hne. }
    rewrite Hsv in Hd. by apply elem_of_nil in Hd. }
  rewrite (_from_configs_merge_plain _ _ d ds).
  - do 2 f_equal. apply map_eq. intros r.
    by rewrite Hl, <- Hsv, sub_views_union.
  - by rewrite layer_values_section_at, Hsv.
  - rewrite <- Hsv. by apply sub_views_plain.
Qed.

(** ** Deleting from a set *)

(** What [del cfg[prefix]] makes of a layer, when it succeeds and when it
    raises [KeyError]. *)
Definition pruned (prefix : string) (c c' : Configuration) : Prop :=
  wf c' ∧ _lowercase c' = _lowercase c
  ∧ ∀ k, _config c' !! k = if under prefix k then None else _config c !! k.

Lemma pruned_trans prefix c1 c2 c3 :
  pruned prefix c1 c2 → pruned prefix c2 c3 → pruned prefix c1 c3.
Proof.
  intros (_ & Hl1 & Hk1) (Hwf & Hl2 & Hk2). split; [done|].
  split; [congruence|]. intros k. rewrite Hk2, Hk1. by destruct (under prefix k).
Qed.

Lemma pruned_delitem prefix c c' :
  wf c → __delitem__ c prefix = Ok c' → pruned prefix c c'.
Proof.
  intros Hwf Hd. split; [by eapply __delitem___wf|].
  by apply __delitem___lookup.
Qed.

Lemma pruned_KeyError prefix c :
  wf c → __delitem__ c prefix = Raise KeyError → pruned prefix c c.
Proof.
  intros Hwf Hd. split; [done|]. split; [done|]. intros k.
  destruct (under prefix k) eqn:Hu; [|done].
  destruct (_config c !! k) eqn:Hk; [|done].
  pose proof (proj1 (__delitem___KeyError_iff c prefix Hwf) Hd k
                (mk_is_Some _ _ Hk)) as Hno.
  by rewrite Hno in Hu.
Qed.

(** Some layer behind [refs] stores a key that is [prefix] or lies under
    it. *)
Definition layer_matches (prefix : string) (h : gmap nat Configuration)
  (refs : list nat) : Prop :=
  ∃ l c k, l ∈ refs ∧ h !! l = Some c
           ∧ is_Some (_config c !! k) ∧ under prefix k = true.

Lemma layer_matches_cons_None prefix h l0 rest :
  h !! l0 = None →
  layer_matches prefix h (l0 :: rest) ↔ layer_matches prefix h rest.
Proof.
  intros Hl0. split.
  - intros (l & c & k & Hin & Hl & Hk). exists l, c, k. split; [|done].
    apply elem_of_cons in Hin as [->|?]; [|done]. by rewrite Hl0 in Hl.
  - intros (l & c & k & Hin & Hl). exists l, c, k. split; [|done].
    by apply list_elem_of_further.
Qed.

Lemma layer_matches_cons_KeyError prefix h l0 c0 rest :
  h !! l0 = Some c0 → wf c0 → __delitem__ c0 prefix = Raise KeyError →
  layer_matches prefix h (l0 :: rest) ↔ layer_matches prefix h rest.
Proof.
  intros Hl0 Hwf Hd. split.
  - intros (l & c & k & Hin & Hl & Hk & Hu). exists l, c, k. split; [|done].
    apply elem_of_cons in Hin as [->|?]; [|done].
    rewrite Hl0 in Hl. injection Hl as <-.
    pose proof (proj1 (__delitem___KeyError_iff c0 prefix Hwf) Hd k Hk) as Hno.
    by rewrite Hno in Hu.
  - intros (l & c & k & Hin & Hl). exists l, c, k. split; [|done].
    by apply list_elem_of_further.
Qed.

Lemma delitem_layers_spec prefix refs :
  ∀ h removed,
    (∀ l c, l ∈ refs → h !! l = Some c → wf c) →
    ∃ h' removed',
      delitem_layers prefix refs h removed = Ok (h', removed')
      ∧ (∀ l, l ∉ refs → h' !! l = h !! l)
      ∧ (∀ l, h !! l = None → h' !! l = None)
      ∧ (∀ l c, l ∈ refs → h !! l = Some c →
                ∃ c', h' !! l = Some c' ∧ pruned prefix c c')
      ∧ (removed' = true ↔ removed = true ∨ layer_matches prefix h refs).
Proof.
  induction refs as [|l0 rest IH]; intros h removed Hwf.
  { exists h, removed. split; [done|]. split; [done|]. split; [done|]. split.
    - by intros l c ?%elem_of_nil.
    - split; [by left|]. intros [?|(l & c & k & ?%elem_of_nil & _)]; done. }
  cbn [delitem_layers]. destruct (h !! l0) as [c0|] eqn:Hl0.
  - assert (wf c0) as Hc0 by (apply (Hwf l0); [apply list_elem_of_here|done]).
    destruct (__delitem__ c0 prefix) as [c0'|e] eqn:Hd.
    + pose proof (pruned_delitem _ _ _ Hc0 Hd) as Hp0.
      destruct (IH (<[l0 := c0']> h) true) as (h' & r' & Hrun & Hout & Hnone & Hin & Hr).
      { intros l c Hl. destruct (decide (l = l0)) as [->|Hne].
        - rewrite lookup_insert_eq. intros [= <-]. by destruct Hp0.
        - rewrite lookup_insert_ne by done. intros Hc. apply (Hwf l c); [|done].
          by apply list_elem_of_further. }
      exists h', r'. split; [done|]. split; [|split; [|split]].
      * intros l Hl. apply not_elem_of_cons in Hl as [Hne Hl].
        rewrite Hout by done. by rewrite lookup_insert_ne.
      * intros l Hl. apply Hnone. rewrite lookup_insert_ne; [done|].
        intros <-. by rewrite Hl0 in Hl.
      * intros l c Hl Hc. destruct (decide (l ∈ rest)) as [Hrest|Hrest].
        -- destruct (decide (l = l0)) as [->|Hne].
           ++ rewrite Hl0 in Hc. injection Hc as <-.
              destruct (Hin l0 c0' Hrest) as (c' & Hc' & Hp);
                [apply lookup_insert_eq|].
              exists c'. split; [done|]. by eapply pruned_trans.
           ++ apply (Hin l c Hrest). by rewrite lookup_insert_ne.
        -- apply elem_of_cons in Hl as [->|?]; [|done].
           rewrite Hl0 in Hc. injection Hc as <-.
           exists c0'. split; [|done]. rewrite Hout by done.
           apply lookup_insert_eq.
      * assert (r' = true) as -> by (apply Hr; by left).
        split; [|done]. intros _. right.
        destruct (proj1 (__delitem___Ok_iff c0 prefix Hc0) (ex_intro _ _ Hd))
          as (k & Hk & Hu).
        exists l0, c0, k. split; [apply list_elem_of_here|done].
    + pose proof (__delitem___raises _ _ _ Hd) as ->.
      destruct (IH h removed) as (h' & r' & Hrun & Hout & Hnone & Hin & Hr).
      { intros l c Hl. apply Hwf. by apply list_elem_of_further. }
      exists h', r'. split; [done|]. split; [|split; [done|split]].
      * intros l Hl. apply not_elem_of_cons in Hl as [_ Hl]. by apply Hout.
      * intros l c Hl Hc. destruct (decide (l ∈ rest)) as [Hrest|Hrest].
        -- by apply Hin.
        -- apply elem_of_cons in Hl as [->|?]; [|done].
           rewrite Hl0 in Hc. injection Hc as <-.
           exists c0. split; [by rewrite Hout|]. by apply pruned_KeyError.
      * by rewrite Hr, (layer_matches_cons_KeyError prefix h l0 c0 rest).
  - destruct (IH h removed) as (h' & r' & Hrun & Hout & Hnone & Hin & Hr).
    { intros l c Hl. apply Hwf. by apply list_elem_of_further. }
    exists h', r'. split; [done|]. split; [|split; [done|split]].
    + intros l Hl. apply not_elem_of_cons in Hl as [_ Hl]. by apply Hout.
    + intros l c Hl Hc. apply Hin; [|done].
      apply elem_of_cons in Hl as [->|?]; [|done]. by rewrite Hl0 in Hc.
    + by rewrite Hr, (layer_matches_cons_None prefix h l0 rest).
Qed.

Lemma first_defining_pruned prefix (h h' : gmap nat Configuration) refs k :
  (∀ l, h !! l = None → h' !! l = None) →
  (∀ l c, l ∈ refs → h !! l = Some c →
          ∃ c', h' !! l = Some c' ∧ pruned prefix c c') →
  first_defining k (omap (λ l, h' !! l) refs)
  = if under prefix k then None
    else first_defining k (omap (λ l, h !! l) refs).
Proof.
  intros Hnone. induction refs as [|l0 rest IH]; intros Hin.
  { by destruct (under prefix k). }
  assert (first_defining k (omap (λ l, h' !! l) rest)
          = if under prefix k then None
            else first_defining k (omap (λ l, h !! l) rest)) as IH'.
  { apply IH. intros l c Hl. apply Hin. by apply list_elem_of_further. }
  csimpl. destruct (h !! l0) as [c0|] eqn:Hl0.
  - destruct (Hin l0 c0 (list_elem_of_here _ _) Hl0) as (c' & Hc' & _ & _ & Hk).
    rewrite Hc'. csimpl. cbn [first_defining foldr].
    fold (first_defining k (omap (λ l, h' !! l) rest)).
    fold (first_defining k (omap (λ l, h !! l) rest)).
    rewrite Hk, IH'. by destruct (under prefix k).
  - by rewrite (Hnone l0 Hl0).
Qed.

Lemma layer_matches_as_dict prefix h self :
  layer_matches prefix h (_configs self)
  ↔ ∃ k, is_Some (ConfigurationSet_as_dict h self !! k) ∧ under prefix k = true.
Proof.
  split.
  - intros (l & c & k & Hl & Hc & Hk & Hu). exists k. split; [|done].
    rewrite as_dict_lookup. apply first_defining_is_Some. exists c.
    split; [|done]. unfold layers. apply list_elem_of_omap. by exists l.
  - intros (k & Hk & Hu). rewrite as_dict_lookup in Hk.
    apply first_defining_is_Some in Hk as (c & Hc & Hk).
    unfold layers in Hc. apply list_elem_of_omap in Hc as (l & Hl & Hc).
    by exists l, c, k.
Qed.

(** The loop of [del self[prefix]] over the layers of a set, read off the
    resolved dictionary. *)
Lemma delitem_layers_resolved h self prefix :
  (∀ l c, l ∈ _configs self → h !! l = Some c → wf c) →
  ∃ h1 removed,
    delitem_layers prefix (_configs self) h false = Ok (h1, removed)
    ∧ (removed = true
       ↔ ∃ k, is_Some (ConfigurationSet_as_dict h self !! k)
              ∧ under prefix k = true)
    ∧ (∀ k, ConfigurationSet_as_dict h1 self !! k
            = if under prefix k then None
              else ConfigurationSet_as_dict h self !! k)
    ∧ ∀ l, l ∉ _configs self → h1 !! l = h !! l.
Proof.
  intros Hwf.
  destruct (delitem_layers_spec prefix (_configs self) h false Hwf)
    as (h1 & r & Hrun & Hout & Hnone & Hin & Hr).
  exists h1, r. split; [done|]. split; [|split; [|done]].
  - rewrite Hr, layer_matches_as_dict. split; [|by right]. by intros [?|?].
  - intros k. rewrite !as_dict_lookup. unfold layers.
    by apply first_defining_pruned.
Qed.

(** X15. [del self[prefix]] on a set whose layers keep their invariant
    deletes in every layer: it raises [KeyError] exactly when the resolved
    dictionary holds no key that is [prefix] or lies under [prefix + "."];
    otherwise it returns, and afterwards the resolved dictionary has lost
    exactly these keys, so no value of a lower layer shows through where a
    higher layer held the key, every other key keeps its value, and objects
    that are no layer of the set are untouched. *)
Theorem set_delitem_deletes_in_every_layer h self prefix :
  (∀ l c, l ∈ _configs self → h !! l = Some c → wf c) →
  (ConfigurationSet__delitem__ h self prefix = Raise KeyError
   ∨ ∃ h', ConfigurationSet__delitem__ h self prefix = Ok h')
  ∧ (ConfigurationSet__delitem__ h self prefix = Raise KeyError
     ↔ ∀ k, is_Some (ConfigurationSet_as_dict h self !! k) →
            under prefix k = false)
  ∧ (∀ h', ConfigurationSet__delitem__ h self prefix = Ok h' →
       (∀ k, ConfigurationSet_as_dict h' self !! k
             = if under prefix k then None
               else ConfigurationSet_as_dict h self !! k)
       ∧ ∀ l, l ∉ _configs self → h' !! l = h !! l).
Proof.
  intros Hwf.
  destruct (delitem_layers_resolved h self prefix Hwf)
    as (h1 & r & Hrun & Hr & Hk & Hout).
  unfold ConfigurationSet__delitem__. rewrite Hrun, bind_Ok.
  split; [destruct r; eauto|]. split.
  - destruct r.
    + split; [done|]. intros Hno. exfalso.
      destruct (proj1 Hr eq_refl) as (k & Hin & Hu).
      by rewrite (Hno k Hin) in Hu.
    + split; [|done]. intros _ k Hin.
      destruct (under prefix k) eqn:Hu; [|done].
      assert (false = true) as Hf; [|done]. apply Hr. eauto.
  - intros h'. destruct r; [|done]. by intros [= <-].
Qed.

(** ** Membership in a set *)

Lemma __contains___scalars c prefix :
  wf c → scalars (_config c) →
  ∃ b, __contains__ c prefix = Ok b
       ∧ (b = true ↔ ∃ k, is_Some (_config c !! k) ∧ under prefix k = true).
Proof.
  intros Hwf Hsc. unfold __contains__.
  destruct (__getitem___scalars c prefix Hwf Hsc) as [Hg|[v Hg]]; rewrite Hg.
  - exists false. split; [done|]. split; [done|]. intros (k & Hk & Hu).
    pose proof (proj1 (__getitem___KeyError_iff c prefix Hwf) Hg k Hk) as Hno.
    by rewrite Hno in Hu.
  - exists true. split; [done|]. split; [|done]. intros _.
    by eapply __getitem___Ok_under.
Qed.

Lemma any_contains_scalars prefix cs :
  Forall (λ c, wf c ∧ scalars (_config c)) cs →
  ∃ b, any_contains prefix cs = Ok b
       ∧ (b = true
          ↔ ∃ c k, c ∈ cs ∧ is_Some (_config c !! k) ∧ under prefix k = true).
Proof.
  induction 1 as [|c cs [Hwf Hsc] _ (b & IH & Hb)].
  { exists false. split; [done|]. split; [done|].
    by intros (c & k & ?%elem_of_nil & _). }
  cbn [any_contains].
  destruct (__contains___scalars c prefix Hwf Hsc) as ([] & -> & Hc).
  - exists true. split; [done|]. split; [|done]. intros _.
    destruct (proj1 Hc eq_refl) as (k & Hk). exists c, k.
    split; [apply list_elem_of_here|done].
  - exists b. split; [done|]. rewrite Hb. split.
    + intros (c' & k & Hin & Hk). exists c', k. split; [|done].
      by apply list_elem_of_further.
    + intros (c' & k & Hin & Hk & Hu). apply elem_of_cons in Hin as [->|Hin].
      * assert (false = true) as Hf; [|done]. apply Hc. eauto.
      * by exists c', k.
Qed.

(** X16. [prefix in self] on a set whose layers keep their invariant and
    hold no [Configuration] object as a value never raises, and it is [True]
    exactly when the resolved dictionary holds a key that is [prefix] or
    lies under [prefix + "."], which is exactly when [del self[prefix]]
    succeeds. *)
Theorem set_contains_iff_resolved_key h self prefix :
  Forall (λ c, wf c ∧ scalars (_config c)) (layers h self) →
  ∃ b, ConfigurationSet__contains__ h self prefix = Ok b
       ∧ (b = true
          ↔ ∃ k, is_Some (ConfigurationSet_as_dict h self !! k)
                 ∧ under prefix k = true)
       ∧ (b = true ↔ ∃ h', ConfigurationSet__delitem__ h self prefix = Ok h').
Proof.
  intros Hall. unfold ConfigurationSet__contains__.
  destruct (any_contains_scalars prefix _ Hall) as (b & -> & Hb).
  assert (b = true
          ↔ ∃ k, is_Some (ConfigurationSet_as_dict h self !! k)
                 ∧ under prefix k = true) as Hb'.
  { rewrite Hb. split.
    - intros (c & k & Hin & Hk & Hu). exists k. split; [|done].
      rewrite as_dict_lookup. apply first_defining_is_Some. eauto.
    - intros (k & Hk & Hu). rewrite as_dict_lookup in Hk.
      apply first_defining_is_Some in Hk as (c & Hin & Hk). eauto. }
  exists b. split; [done|]. split; [done|].
  assert (∀ l c, l ∈ _configs self → h !! l = Some c → wf c) as Hwf.
  { intros l c Hl Hc. rewrite Forall_forall in Hall.
    apply (Hall c). unfold layers. apply list_elem_of_omap. by exists l. }
  destruct (delitem_layers_spec prefix (_configs self) h false Hwf)
    as (h1 & r & Hrun & _ & _ & _ & Hr).
  rewrite layer_matches_as_dict in Hr.
  unfold ConfigurationSet__delitem__. rewrite Hrun, bind_Ok.
  rewrite Hb'. destruct r.
  - split; [eauto|]. intros _.
    by destruct (proj1 Hr eq_refl) as [?|?].
  - split; [|by intros [h' ?]]. intros Hex.
    assert (false = true) as Hf; [|done]. apply Hr. by right.
Qed.

(** ** Writing to a set, then reading *)

Lemma __getitem___setitem_leaf c key v :
  wf c → sub_view (_config c) key = ∅ →
  key_case (_lowercase c) key = key → is_Configuration v = false →
  __getitem__ (__setitem__ c key (Leaf v)) key = Ok v
  ∧ _config (__setitem__ c key (Leaf v)) !! key = Some v.
Proof.
  intros Hwf He Hcase Hv.
  rewrite __getitem___spec by by apply update_wf.
  rewrite __setitem___scalar, Hcase, sub_view_insert_self.
  apply dict_is_empty_true in He. rewrite He, lookup_insert_eq.
  by destruct v.
Qed.

Lemma sub_view_of_empty key : sub_view ∅ key = ∅.
Proof.
  apply map_eq. intros r. by rewrite sub_view_lookup, !lookup_empty.
Qed.

Lemma read_first_layer h self l rest c key v :
  _configs self = l :: rest → h !! l = Some c →
  __getitem__ c key = Ok v → _config c !! key = Some v →
  is_Configuration v = false →
  ConfigurationSet__getitem__ h self key = Ok v
  ∧ ConfigurationSet_as_dict h self !! key = Some v.
Proof.
  intros Hcs Hl Hg Hk Hv.
  assert (layers h self = c :: omap (λ l, h !! l) rest) as Hlay.
  { unfold layers. rewrite Hcs. csimpl. by rewrite Hl. }
  split.
  - unfold ConfigurationSet__getitem__. rewrite Hlay.
    by apply _from_configs_first_scalar.
  - rewrite as_dict_lookup, Hlay. cbn [first_defining foldr]. by rewrite Hk.
Qed.

(** X17. Writing to a set, then reading. After [self[key] = v], for a value
    that is neither a mapping nor a [Configuration], [self[key]] returns [v]
    and the resolved dictionary holds [v] at [key], whatever the other
    layers store at or under [key]. This holds on a set that has not been
    written to, when the case-folding of its first layer leaves [key] as it
    is; and on a set that has been written to, when its writable layer
    holds no key under [key + "."] and its case-folding leaves [key] as it
    is. *)
Theorem set_write_then_read h self key v :
  is_Configuration v = false →
  (_writable self = false →
   key_case (first_lowercase h self) key = key →
   ∃ h' self',
     ConfigurationSet__setitem__ h self key (Leaf v) = Ok (h', self')
     ∧ ConfigurationSet__getitem__ h' self' key = Ok v
     ∧ ConfigurationSet_as_dict h' self' !! key = Some v)
  ∧ (∀ l rest c,
       _writable self = true → _configs self = l :: rest → h !! l = Some c →
       wf c → sub_view (_config c) key = ∅ →
       key_case (_lowercase c) key = key →
       ∃ h',
         ConfigurationSet__setitem__ h self key (Leaf v) = Ok (h', self)
         ∧ ConfigurationSet__getitem__ h' self key = Ok v
         ∧ ConfigurationSet_as_dict h' self !! key = Some v).
Proof.
  intros Hv. split.
  - intros Hw Hcase.
    pose proof (mutate_first h self (SetItem key (Leaf v)) Hw) as Hm.
    cbn [mutate mutate_layer fst snd] in Hm. rewrite Hm.
    eexists _, _. split; [done|].
    destruct (__getitem___setitem_leaf
                (__init__ [] (first_lowercase h self)) key v) as [Hg Hk];
      [apply __init___wf|apply sub_view_of_empty|done|done|].
    eapply read_first_layer; [done|apply lookup_insert_eq|done..].
  - intros l rest c Hw Hcs Hl Hwf He Hcase.
    pose proof (mutate_writable h self (SetItem key (Leaf v)) l rest c Hw Hcs Hl)
      as Hm.
    cbn [mutate mutate_layer fst snd] in Hm. rewrite Hm.
    eexists. split; [done|].
    destruct (__getitem___setitem_leaf c key v) as [Hg Hk]; [done..|].
    eapply read_first_layer; [done|apply lookup_insert_eq|done..].
Qed.

(** ** Copies of a set *)

Lemma clear_layers_lookup refs :
  ∀ (h : gmap nat Configuration) l,
    foldl (heap_apply clear) h refs !! l
    = if decide (l ∈ refs) then clear <$> h !! l else h !! l.
Proof.
  induction refs as [|l0 rest IH]; intros h l.
  { destruct (decide (l ∈ [])) as [Hin|_]; [|done]. by apply elem_of_nil in Hin. }
  cbn [foldl]. rewrite IH.
  assert (heap_apply clear h l0 !! l
          = if decide (l = l0) then clear <$> h !! l else h !! l) as Hstep.
  { unfold heap_apply. destruct (h !! l0) as [c0|] eqn:Hl0.
    - destruct (decide (l = l0)) as [->|Hne].
      + by rewrite lookup_insert_eq, Hl0.
      + by rewrite lookup_insert_ne.
    - destruct (decide (l = l0)) as [->|Hne]; [|done]. by rewrite Hl0. }
  rewrite Hstep.
  destruct (decide (l ∈ rest)) as [Hin|Hin];
    destruct (decide (l ∈ l0 :: rest)) as [Hin'|Hin'];
    destruct (decide (l = l0)) as [->|Hne]; try done.
  - by destruct (h !! l0).
  - exfalso. apply Hin'. by apply list_elem_of_further.
  - exfalso. apply Hin'. by apply list_elem_of_further.
  - by apply elem_of_cons in Hin' as [?|?].
  - exfalso. apply Hin', list_elem_of_here.
Qed.

(** X18. [copy()] of a set is shallow: the copy is a new set over the same
    layer objects, not yet written to. It resolves to the same dictionary;
    a write through the copy goes to a fresh layer of the copy alone and
    leaves every object of the heap, and so the original set, as it was;
    [clear()] through the copy empties the shared layers, and so the
    original set. *)
Theorem set_copy_is_shallow h self copy_ key value :
  (∀ l, l ∈ _configs self → is_Some (h !! l)) →
  ConfigurationSet_copy self = Ok copy_ →
  _configs copy_ = _configs self ∧ _writable copy_ = false
  ∧ ConfigurationSet_as_dict h copy_ = ConfigurationSet_as_dict h self
  ∧ (∃ h' copy',
       ConfigurationSet__setitem__ h copy_ key value = Ok (h', copy')
       ∧ _configs copy' = fresh (dom h) :: _configs self
       ∧ (∀ l, l ∈ dom h → h' !! l = h !! l)
       ∧ ConfigurationSet_as_dict h' self = ConfigurationSet_as_dict h self)
  ∧ ConfigurationSet_as_dict (ConfigurationSet_clear h copy_) self = ∅.
Proof.
  intros Hvalid Hcopy.
  assert (copy_ = {| _configs := _configs self; _writable := false |}) as ->.
  { unfold ConfigurationSet_copy, ConfigurationSet__init__ in Hcopy.
    destruct (_configs self); [done|]. by injection Hcopy as <-. }
  split; [done|]. split; [done|]. split; [done|]. split.
  - pose proof (mutate_first h {| _configs := _configs self; _writable := false |}
                  (SetItem key value) eq_refl) as Hm.
    cbn [mutate mutate_layer fst snd _configs] in Hm. rewrite Hm.
    eexists _, _. split; [done|]. split; [done|].
    assert (∀ l, l ∈ dom h →
                 <[fresh (dom h) :=
                     __setitem__ (__init__ []
                       (first_lowercase h
                          {| _configs := _configs self; _writable := false |}))
                       key value]> h !! l = h !! l) as Hsame.
    { intros l Hl. apply lookup_insert_ne. intros <-. by apply is_fresh in Hl. }
    split; [done|].
    unfold ConfigurationSet_as_dict, layers. do 2 f_equal.
    apply omap_ext_in. intros l Hl. apply Hsame, elem_of_dom. by apply Hvalid.
  - apply map_eq. intros k. rewrite as_dict_lookup, lookup_empty.
    rewrite <- (app_nil_r (layers _ self)). rewrite first_defining_app; [done|].
    apply Forall_forall. intros c Hc. unfold layers in Hc.
    apply list_elem_of_omap in Hc as (l & Hl & Hc).
    unfold ConfigurationSet_clear in Hc. cbn [_configs] in Hc.
    rewrite clear_layers_lookup in Hc.
    destruct (decide (l ∈ _configs self)); [|done].
    destruct (h !! l) as [c0|]; [|done]. injection Hc as <-.
    apply lookup_empty.
Qed.

(** ** Keys and [get_dict] of a set *)

Lemma resolved_store_config (d : gmap string value) :
  _config (__init__ (dict_as_nested d) false) = d.
Proof. apply _flatten_dict_flat, keys_folded_false. Qed.

(** X19. [keys(levels)] of a set is [keys(levels)] of its resolved
    dictionary. When that dictionary holds nothing at or under the name
    [keys], the result is a list without duplicates of its keys cut to
    their first [levels] segments; without [levels] it lists exactly the
    keys that some layer stores, each once. *)
Theorem set_keys_are_the_resolved_keys h self levels :
  levels ≠ Some 0 →
  ConfigurationSet_as_dict h self !! "keys" = None →
  sub_view (ConfigurationSet_as_dict h self) "keys" = ∅ →
  ∃ l, ConfigurationSet_keys h self levels = Ok (KeysList l) ∧ NoDup l
       ∧ (∀ k, k ∈ l
               ↔ ∃ x, is_Some (ConfigurationSet_as_dict h self !! x)
                      ∧ k = PyStr.join "."
                              (take_levels levels (PyStr.split "." x)))
       ∧ (levels = None →
          ∀ k, k ∈ l ↔ ∃ c, c ∈ layers h self ∧ is_Some (_config c !! k)).
Proof.
  intros Hl Hk Hs. unfold ConfigurationSet_keys.
  rewrite keys_list; [|apply keys_folded_false|done|..];
    rewrite ?resolved_store_config; [|done..].
  eexists. split; [done|]. split; [apply NoDup_elements|].
  split; [apply elem_of_keys_list|].
  intros -> k. rewrite elem_of_keys_list. cbn [take_levels].
  rewrite <- first_defining_is_Some, <- as_dict_lookup. split.
  - intros (x & Hx & ->). by rewrite join_split.
  - intros Hx. exists k. by rewrite join_split.
Qed.

(** X20. [get_dict] differs between the two classes on a missing key. On a
    set whose layers keep their invariant, when no layer stores a key that
    is [item] or lies under [item + "."], [get_dict(item)] of the set raises
    [KeyError], where [get_dict(item)] of each layer returns the empty
    dictionary. When no layer stores [item] itself, the keys under
    [item + "."] form a plain sub-view in each layer that has some, and the
    keys that the resolved dictionary holds under [item + "."] form a plain
    sub-view, [get_dict(item)] of the set returns exactly these keys. *)
Theorem set_get_dict_raises_on_missing_key h self item :
  (layers h self ≠ [] →
   Forall (λ c, wf c ∧ ∀ k, is_Some (_config c !! k) → under item k = false)
          (layers h self) →
   ConfigurationSet_get_dict h self item = Raise KeyError
   ∧ Forall (λ c, get_dict c item = Ok ∅) (layers h self))
  ∧ (Forall (section_at item) (layers h self) →
     Exists (λ c, sub_view (_config c) item ≠ ∅) (layers h self) →
     plain (sub_view (ConfigurationSet_as_dict h self) item) →
     ConfigurationSet_get_dict h self item
     = Ok (sub_view (ConfigurationSet_as_dict h self) item)).
Proof.
  split.
  - intros Hne Hall. split.
    + unfold ConfigurationSet_get_dict, ConfigurationSet__getitem__.
      rewrite _from_configs_all_KeyError; [done|done|].
      eapply Forall_impl; [done|]. intros c [Hwf Hno].
      by apply (proj2 (__getitem___KeyError_iff c item Hwf)).
    + eapply Forall_impl; [done|]. intros c [Hwf Hno].
      apply no_key_under in Hno as [He Hk].
      unfold get_dict. rewrite _get_subset_spec by done.
      apply dict_is_empty_true in He. rewrite He.
      unfold dict_get_or_empty. by rewrite Hk.
  - intros Hall Hex Hp. unfold ConfigurationSet_get_dict.
    assert (ConfigurationSet__getitem__ h self item
            = Ok (VConf false (sub_view (ConfigurationSet_as_dict h self) item)))
      as ->.
    { unfold ConfigurationSet__getitem__.
      destruct (sub_views item (layers h self)) as [|d ds] eqn:Hsv.
      { exfalso. apply Exists_exists in Hex as (c & Hin & Hne).
        assert (sub_view (_config c) item ∈ sub_views item (layers h self))
          as Hd.
        { unfold sub_views. apply list_elem_of_omap. exists c. split; [done|].
          apply dict_is_empty_false in Hne. by rewrite Hne. }
        rewrite Hsv in Hd. by apply elem_of_nil in Hd. }
      rewrite (_from_configs_merge_plain _ _ d ds).
      - do 2 f_equal. apply map_eq. intros r.
        by rewrite sub_view_lookup, as_dict_lookup, <- Hsv, sub_views_union.
      - by rewrite layer_values_section_at, Hsv.
      - rewrite <- Hsv. by apply sub_views_plain. }
    rewrite bind_Ok. cbn [py_dict].
    rewrite dict_update_Configuration_plain by done.
    unfold dict_update_dict. by rewrite (right_id_L ∅ (∪)).
Qed.

(** ** Assigning a mapping *)







(** ** Iteration ends *)

(** X22. Iterating a store ends. [iter(self)] descends through the stores
    that it finds under the name [keys]; the length of the longest key
    bounds the descent: with that bound or any larger one the result is the
    same, and it is never the exhaustion of the bound. On a store that keeps
    its invariant and holds nothing at or under the name [keys], it yields
    the stored keys, each once. *)
Theorem iteration_ends self :
  (∀ n, max_key_length (_config self) ≤ n → iter_fuel n self = __iter__ self)
  ∧ __iter__ self ≠ Raise RecursionError
  ∧ (wf self → _config self !! "keys" = None →
     sub_view (_config self) "keys" = ∅ →
     ∃ l, __iter__ self = Ok l ∧ NoDup l
          ∧ ∀ k, k ∈ l ↔ is_Some (_config self !! k)).
Proof.
  split; [intros n; apply __iter___more_fuel|].
  split; [apply __iter___terminates|].
  intros Hwf Hk Hs. eexists. split; [|split].
  - unfold __iter__. rewrite iter_fuel_unfold.
    by rewrite (keys_list self None Hwf).
  - apply NoDup_elements.
  - intros k. rewrite elem_of_keys_list. cbn [take_levels]. split.
    + intros (x & Hx & ->). by rewrite join_split.
    + intros Hx. exists k. by rewrite join_split.
Qed.

(** ** The boolean cast of values that are no strings *)

(** A digit or the minus sign. *)
Definition numeric_char (c : ascii) : bool :=
  let n := N_of_ascii c in
  ((48 <=? n) && (n <=? 57) || (n =? 45))%N.

Fixpoint numeric (s : string) : bool :=
  match s with
  | EmptyString => true
  | String c s' => numeric_char c && numeric s'
  end.

Lemma numeric_char_tidy c :
  numeric_char c = true → PyStr.isspace c = false ∧ PyStr.lower_char c = c.
Proof. by destruct c as [[] [] [] [] [] [] [] []]. Qed.

Lemma numeric_lstrip s : numeric s = true → PyStr.lstrip s = s.
Proof.
  destruct s as [|c s]; [done|]. simpl. intros [Hc _]%andb_true_iff.
  by destruct (numeric_char_tidy c Hc) as [-> _].
Qed.

Lemma numeric_rstrip s : numeric s = true → PyStr.rstrip s = s.
Proof.
  induction s as [|c s IH]; [done|]. simpl. intros [Hc Hs]%andb_true_iff.
  rewrite IH by done. destruct (numeric_char_tidy c Hc) as [-> _].
  by destruct s.
Qed.

Lemma numeric_lower s : numeric s = true → PyStr.lower s = s.
Proof.
  induction s as [|c s IH]; [done|]. simpl. intros [Hc Hs]%andb_true_iff.
  rewrite IH by done. by destruct (numeric_char_tidy c Hc) as [_ ->].
Qed.

Lemma pretty_N_char_numeric x : numeric_char (pretty_N_char x) = true.
Proof. unfold pretty_N_char. by repeat case_match. Qed.

Lemma pretty_N_go_numeric x s :
  numeric s = true → numeric (pretty_N_go x s) = true.
Proof.
  revert s. induction (N.lt_wf_0 x) as [x _ IH]; intros s Hs.
  destruct (decide (x = 0)%N) as [->|Hx]; [by rewrite pretty_N_go_0|].
  rewrite pretty_N_go_step by lia. apply IH.
  - apply N.div_lt; lia.
  - simpl. by rewrite pretty_N_char_numeric.
Qed.

Lemma pretty_N_numeric (x : N) : numeric (pretty x) = true.
Proof.
  unfold pretty, pretty_N. case_decide; [done|]. by apply pretty_N_go_numeric.
Qed.

Lemma pretty_Z_numeric (z : Z) : numeric (pretty z) = true.
Proof.
  destruct z as [|p|p]; [done|apply pretty_N_numeric|].
  change (pretty (Z.neg p)) with ("-" +:+ pretty (N.pos p)).
  rewrite string_app_cons, string_app_nil_l. simpl. apply pretty_N_numeric.
Qed.

Lemma pretty_N_go_length x s :
  String.length s ≤ String.length (pretty_N_go x s).
Proof.
  revert s. induction (N.lt_wf_0 x) as [x _ IH]; intros s.
  destruct (decide (x = 0)%N) as [->|Hx]; [by rewrite pretty_N_go_0|].
  rewrite pretty_N_go_step by lia.
  etrans; [|apply IH; apply N.div_lt; lia]. simpl. lia.
Qed.

Lemma pretty_Z_nonempty (z : Z) : pretty z ≠ "".
Proof.
  destruct z as [|p|p]; [done| |done].
  unfold pretty, pretty_Z, pretty, pretty_positive, pretty, pretty_N.
  case_decide; [done|]. rewrite pretty_N_go_step by lia. intros Heq.
  pose proof (pretty_N_go_length (N.pos p `div` 10)
                (String (pretty_N_char (N.pos p `mod` 10)) "")) as Hlen.
  rewrite Heq in Hlen. simpl in Hlen. lia.
Qed.

(** X23. [as_bool] of values that are no strings: [None] is [False], a
    boolean is itself, and an integer goes through [str]: [1] is [True],
    [0] is [False], and every other integer raises [ValueError]. *)
Theorem as_bool_of_none_bool_int :
  as_bool VNone = Ok false
  ∧ (∀ b, as_bool (VBool b) = Ok b)
  ∧ ∀ z, as_bool (VInt z)
         = if decide (z = 1%Z) then Ok true
           else if decide (z = 0%Z) then Ok false
           else Raise ValueError.
Proof.
  split; [done|]. split; [done|]. intros z.
  destruct (decide (z = 1%Z)) as [->|H1]; [by vm_compute|].
  destruct (decide (z = 0%Z)) as [->|H0]; [by vm_compute|].
  unfold as_bool, py_str. rewrite bind_Ok.
  pose proof (pretty_Z_numeric z) as Hnum.
  unfold PyStr.strip.
  rewrite (numeric_lstrip _ Hnum), (numeric_rstrip _ Hnum),
    (numeric_lower _ Hnum).
  assert (pretty z ∉ TRUTH_TEXT) as Ht.
  { unfold TRUTH_TEXT. rewrite elem_of_list_to_set, !elem_of_cons, elem_of_nil.
    intros [H|[H|[H|[H|[H|[H|[]]]]]]];
      try (rewrite H in Hnum; discriminate Hnum).
    apply H1. by apply (inj pretty). }
  assert (pretty z ∉ FALSE_TEXT) as Hf.
  { unfold FALSE_TEXT. rewrite elem_of_list_to_set, !elem_of_cons, elem_of_nil.
    intros [H|[H|[H|[H|[H|[H|[H|[]]]]]]]];
      try (rewrite H in Hnum; discriminate Hnum).
    - apply H0. by apply (inj pretty).
    - by apply (pretty_Z_nonempty z). }
  rewrite (bool_decide_eq_true_2 (pretty z ∉ TRUTH_TEXT)) by done.
  by rewrite (bool_decide_eq_true_2 (pretty z ∉ FALSE_TEXT)) by done.
Qed.

(** ** [pop] on a set *)

(** [self.pop(prefix, value)] on a set: the method of [Configuration], in
    which [self[prefix]] and [del self[prefix]] are those of the set. *)
Definition ConfigurationSet_pop (h : gmap nat Configuration)
  (self : ConfigurationSet) (prefix : string)
  : value → pyresult (value * gmap nat Configuration) := λ value,
  match ConfigurationSet__getitem__ h self prefix with
  | Ok v =>
      match ConfigurationSet__delitem__ h self prefix with
      | Ok h' => Ok (v, h')
      | Raise KeyError =>
          match v with VNone => Raise KeyError | _ => Ok (v, h) end
      | Raise e => Raise e
      end
  | Raise KeyError =>
      match value with VNone => Raise KeyError | _ => Ok (value, h) end
  | Raise e => Raise e
  end.

Lemma _from_configs_Ok call cs v :
  _from_configs call cs = Ok v → ∃ c v', c ∈ cs ∧ call c = Ok v'.
Proof.
  unfold _from_configs. rewrite collect_values_spec.
  destruct (layer_values call cs) as [|v0 vs] eqn:Hv; [done|]. intros _.
  assert (v0 ∈ layer_values call cs) as Hin by (rewrite Hv; apply list_elem_of_here).
  unfold layer_values in Hin. apply list_elem_of_omap in Hin as (c & Hc & Hcall).
  exists c. destruct (call c) as [v'|]; [|done]. by exists v'.
Qed.

(** X24. [pop(prefix, default)] on a set whose layers keep their invariant.
    When [self[prefix]] returns, [pop] returns the same value and deletes
    in every layer: the resolved dictionary loses exactly the keys that are
    [prefix] or lie under [prefix + "."], so the value of a lower layer does
    not take the place of the one that was popped. When the resolved
    dictionary holds no such key, [pop] raises [KeyError] for the default
    [None] and returns any other default, leaving the heap as it was. *)
Theorem set_pop_deletes_in_every_layer h self prefix default :
  (∀ l c, l ∈ _configs self → h !! l = Some c → wf c) →
  (∀ v, ConfigurationSet__getitem__ h self prefix = Ok v →
     ∃ h', ConfigurationSet_pop h self prefix default = Ok (v, h')
           ∧ (∀ k, ConfigurationSet_as_dict h' self !! k
                   = if under prefix k then None
                     else ConfigurationSet_as_dict h self !! k)
           ∧ ∀ l, l ∉ _configs self → h' !! l = h !! l)
  ∧ (layers h self ≠ [] →
     (∀ k, is_Some (ConfigurationSet_as_dict h self !! k) →
           under prefix k = false) →
     ConfigurationSet_pop h self prefix default
     = match default with
       | VNone => Raise KeyError
       | _ => Ok (default, h)
       end).
Proof.
  intros Hwf.
  destruct (delitem_layers_resolved h self prefix Hwf)
    as (h1 & r & Hrun & Hr & Hk & Hout).
  assert (∀ c, c ∈ layers h self → wf c) as Hwfl.
  { intros c Hc. unfold layers in Hc.
    apply list_elem_of_omap in Hc as (l & Hl & Hc). by apply (Hwf l). }
  split.
  - intros v Hg. unfold ConfigurationSet_pop, ConfigurationSet__delitem__.
    rewrite Hg, Hrun, bind_Ok.
    assert (r = true) as ->.
    { apply Hr. apply _from_configs_Ok in Hg as (c & v' & Hc & Hcall).
      destruct (__getitem___Ok_under c prefix v' (Hwfl c Hc) Hcall)
        as (k & Hin & Hu).
      exists k. split; [|done]. rewrite as_dict_lookup.
      apply first_defining_is_Some. eauto. }
    by exists h1.
  - intros Hne Hno. unfold ConfigurationSet_pop, ConfigurationSet__getitem__.
    rewrite _from_configs_all_KeyError; [done|done|].
    apply Forall_forall. intros c Hc.
    apply (proj2 (__getitem___KeyError_iff c prefix (Hwfl c Hc))).
    intros k Hin. apply Hno. rewrite as_dict_lookup.
    apply first_defining_is_Some. eauto.
Qed.

(** ** [config_from_env] *)

(** [c in chars] for one character *)
Fixpoint has_char (chars : string) (c : ascii) : bool :=
  match chars with
  | EmptyString => false
  | String a chars' => bool_decide (a = c) || has_char chars' c
  end.

(** [s.replace(old, new)] for a non-empty [old]: the occurrences of [old]
    are found from the left and do not overlap; [skip] counts the characters
    of the occurrence just replaced that are still to be passed. *)
Fixpoint replace_skip (old new : string) (skip : nat) (s : string) : string :=
  match s with
  | EmptyString => EmptyString
  | String c s' =>
      match skip with
      | S n => replace_skip old new n s'
      | O =>
          if PyStr.startswith s old
          then new +:+ replace_skip old new (String.length old - 1) s'
          else String c (replace_skip old new 0 s')
      end
  end.

(** [s.replace(old, new)]; the empty [old] is found before every character
    and at the end. *)
Definition replace (old new s : string) : string :=
  match old with
  | EmptyString =>
      new +:+ (fix go (s : string) : string :=
                 match s with
                 | EmptyString => EmptyString
                 | String c s' => String c (new +:+ go s')
                 end) s
  | String _ _ => replace_skip old new 0 s
  end.

(** [s.lstrip(chars)] *)
Fixpoint lstrip_chars (chars s : string) : string :=
  match s with
  | EmptyString => EmptyString
  | String c s' => if has_char chars c then lstrip_chars chars s' else s
  end.

(** [s.rstrip(chars)] *)
Fixpoint rstrip_chars (chars s : string) : string :=
  match s with
  | EmptyString => EmptyString
  | String c s' =>
      match rstrip_chars chars s' with
      | EmptyString => if has_char chars c then EmptyString
                       else String c EmptyString
      | r => String c r
      end
  end.

(** [s.strip(chars)] *)
Definition strip_chars (chars s : string) : string :=
  rstrip_chars chars (lstrip_chars chars s).

(** [result[k] = v] on a dictionary kept in insertion order: a key that is
    already there keeps its place. *)
Fixpoint dict_setitem (k v : string) (result : list (string * string))
  : list (string * string) :=
  match result with
  | [] => [(k, v)]
  | (k', v') :: rest =>
      if decide (k' = k) then (k, v) :: rest
      else (k', v') :: dict_setitem k v rest
  end.

(** [key[len(prefix):].replace(separator, ".").strip(".")] *)
Definition env_key (prefix separator key : string) : string :=
  strip_chars "."
    (replace separator "." (PyStr.slice_from (String.length prefix) key)).

(** The dictionary [result] that the loop of [config_from_env] builds from
    [os.environ.items()]. *)
Definition env_result (environ : list (string * string))
  (prefix separator : string) : list (string * string) :=
  foldl (λ result kv,
           if PyStr.startswith kv.1 (prefix +:+ separator)
           then dict_setitem (env_key prefix separator kv.1) kv.2 result
           else result)
        [] environ.

(** [config_from_env(prefix, separator, lowercase_keys=...)], with the
    environment [os.environ.items()] as an argument. *)
Definition config_from_env (environ : list (string * string))
  (prefix separator : string) (lowercase_keys : bool) : Configuration :=
  __init__ ((λ kv, (kv.1, Leaf (VStr kv.2)))
              <$> env_result environ prefix separator)
           lowercase_keys.

Lemma elem_of_dict_setitem k v result k' v' :
  (k', v') ∈ dict_setitem k v result →
  (k', v') = (k, v) ∨ (k', v') ∈ result.
Proof.
  induction result as [|[k0 v0] rest IH]; cbn [dict_setitem].
  { intros ?%list_elem_of_singleton. by left. }
  destruct (decide (k0 = k)) as [->|Hne]; rewrite !elem_of_cons.
  - intros [?|?]; [by left|by right; right].
  - intros [?|Hin]; [by right; left|].
    destruct (IH Hin) as [?|?]; [by left|by right; right].
Qed.

Lemma dict_setitem_here k v result : (k, v) ∈ dict_setitem k v result.
Proof.
  induction result as [|[k0 v0] rest IH]; cbn [dict_setitem].
  { apply list_elem_of_here. }
  destruct (decide (k0 = k)); [apply list_elem_of_here|].
  by apply list_elem_of_further.
Qed.

Lemma dict_setitem_other k v result k' v' :
  k' ≠ k → (k', v') ∈ result → (k', v') ∈ dict_setitem k v result.
Proof.
  intros Hne. induction result as [|[k0 v0] rest IH]; cbn [dict_setitem].
  { by intros ?%elem_of_nil. }
  destruct (decide (k0 = k)) as [->|Hk0]; rewrite !elem_of_cons.
  - intros [[= -> ->]|?]; [done|by right].
  - intros [?|?]; [by left|right; by apply IH].
Qed.

(** Every entry of [result] comes from a variable that passed the test. *)
Lemma env_result_sound environ prefix separator k v :
  (k, v) ∈ env_result environ prefix separator →
  ∃ name, (name, v) ∈ environ
          ∧ PyStr.startswith name (prefix +:+ separator) = true
          ∧ k = env_key prefix separator name.
Proof.
  unfold env_result.
  induction environ as [|[name s] environ IH] using rev_ind.
  { by intros ?%elem_of_nil. }
  rewrite foldl_app. cbn [foldl fst snd].
  destruct (PyStr.startswith name (prefix +:+ separator)) eqn:Hs.
  - intros [[= -> ->]|Hin]%elem_of_dict_setitem.
    + exists name. split; [|done]. apply elem_of_app. right.
      apply list_elem_of_here.
    + destruct (IH Hin) as (name' & ? & ? & ?). exists name'.
      split; [|done]. apply elem_of_app. by left.
  - intros Hin. destruct (IH Hin) as (name' & ? & ? & ?). exists name'.
    split; [|done]. apply elem_of_app. by left.
Qed.

(** A variable that passed the test has its entry in [result], when the
    variables that give the same key have the same value. *)
Lemma env_result_complete environ prefix separator name v :
  (name, v) ∈ environ →
  PyStr.startswith name (prefix +:+ separator) = true →
  (∀ name' v', (name', v') ∈ environ →
               PyStr.startswith name' (prefix +:+ separator) = true →
               env_key prefix separator name' = env_key prefix separator name →
               v' = v) →
  (env_key prefix separator name, v) ∈ env_result environ prefix separator.
Proof.
  unfold env_result.
  induction environ as [|[name0 s0] environ IH] using rev_ind.
  { by intros ?%elem_of_nil. }
  intros Hin Hs Hf. rewrite foldl_app. cbn [foldl fst snd].
  destruct (PyStr.startswith name0 (prefix +:+ separator)) eqn:Hs0.
  - destruct (decide (env_key prefix separator name0
                      = env_key prefix separator name)) as [Heq|Hne].
    + rewrite Heq.
      rewrite (Hf name0 s0); [apply dict_setitem_here| |done|done].
      apply elem_of_app. right. apply list_elem_of_here.
    + apply dict_setitem_other; [done|]. apply IH; [|done|].
      * apply elem_of_app in Hin as [?|[= -> ->]%list_elem_of_singleton];
          [done|]. by destruct Hne.
      * intros name' v' Hin'. apply Hf. apply elem_of_app. by left.
  - apply IH; [|done|].
    + apply elem_of_app in Hin as [?|[= -> ->]%list_elem_of_singleton];
        [done|]. by rewrite Hs in Hs0.
    + intros name' v' Hin'. apply Hf. apply elem_of_app. by left.
Qed.

Lemma dotted_leaves_of_strings lowercase (result : list (string * string)) :
  dotted_leaves lowercase (Dict ((λ kv, (kv.1, Leaf (VStr kv.2))) <$> result))
  = (λ kv, (key_case lowercase kv.1, VStr kv.2)) <$> result.
Proof.
  induction result as [|[k v] result IH]; [done|].
  rewrite !fmap_cons. cbn [fst snd].
  by rewrite dotted_leaves_cons_leaf, IH.
Qed.

Lemma lstrip_chars_head chars s a r :
  lstrip_chars chars s = String a r → has_char chars a = false.
Proof.
  induction s as [|c s IH]; [done|]. cbn [lstrip_chars].
  destruct (has_char chars c) eqn:Hc; [done|]. by intros [= <- _].
Qed.

Lemma rstrip_chars_head chars s a r :
  rstrip_chars chars s = String a r → ∃ r', s = String a r'.
Proof.
  destruct s as [|c s]; [done|]. cbn [rstrip_chars].
  destruct (rstrip_chars chars s).
  - destruct (has_char chars c); [done|]. intros [= <- _]. by exists s.
  - intros [= <- _]. by exists s.
Qed.

Lemma rstrip_chars_last chars s r a :
  rstrip_chars chars s = r +:+ String a "" → has_char chars a = false.
Proof.
  revert r. induction s as [|c s IH]; intros r.
  { by destruct r. }
  cbn [rstrip_chars]. destruct (rstrip_chars chars s) as [|c' t] eqn:Ht.
  - destruct (has_char chars c) eqn:Hc; [by destruct r|].
    destruct r as [|b [|b' r]]; [|done|done]. by intros [= <-].
  - destruct r as [|b r]; [done|]. rewrite string_app_cons.
    intros [= _ Hr]. by apply (IH r).
Qed.

Lemma strip_chars_ends chars s r a :
  (strip_chars chars s = String a r → has_char chars a = false)
  ∧ (strip_chars chars s = r +:+ String a "" → has_char chars a = false).
Proof.
  unfold strip_chars. split; [|apply rstrip_chars_last].
  intros (r' & Hl)%rstrip_chars_head. by apply lstrip_chars_head in Hl.
Qed.

Lemma lower_char_dot c : PyStr.lower_char c = "."%char → c = "."%char.
Proof.
  destruct c as [[] [] [] [] [] [] [] []]; vm_compute; congruence.
Qed.

Lemma key_case_head lowercase k r :
  key_case lowercase k = "." +:+ r → ∃ r', k = "." +:+ r'.
Proof.
  destruct lowercase; cbn [key_case]; [|by exists r].
  destruct k as [|c k]; [done|]. cbn [PyStr.lower].
  intros [= Hc _]. apply lower_char_dot in Hc as ->. by exists k.
Qed.

Lemma key_case_last lowercase k r :
  key_case lowercase k = r +:+ "." → ∃ r', k = r' +:+ ".".
Proof.
  destruct lowercase; cbn [key_case]; [|by exists r].
  revert r. induction k as [|c k IH]; intros r.
  { by destruct r. }
  cbn [PyStr.lower]. destruct r as [|b r].
  - destruct k; [|done]. intros [= Hc]. apply lower_char_dot in Hc as ->.
    by exists "".
  - rewrite string_app_cons. intros [= _ Hk].
    destruct (IH r Hk) as [r' ->]. by exists (String c r').
Qed.

Lemma _flatten_dict_env_sound lowercase environ prefix separator k v :
  _flatten_dict lowercase
    ((λ kv, (kv.1, Leaf (VStr kv.2))) <$> env_result environ prefix separator)
  !! k = Some v →
  ∃ name s, (name, s) ∈ environ
            ∧ PyStr.startswith name (prefix +:+ separator) = true
            ∧ k = key_case lowercase (env_key prefix separator name)
            ∧ v = VStr s.
Proof.
  intros Hk. apply _flatten_dict_sound in Hk. rewrite dotted_leaves_of_strings in Hk.
  apply list_elem_of_fmap in Hk as ([k0 s] & [= -> ->] & Hin).
  apply env_result_sound in Hin as (name & ? & ? & ->). by exists name, s.
Qed.

(** X25. [config_from_env] over an environment. Every entry of the store
    comes from a variable whose name starts with [prefix + separator]: its
    key is the name without its first [len(prefix)] characters, with the
    separators replaced by dots and the dots at both ends stripped (and
    case-folded under the flag), and its value is the string of the
    variable. Such a variable is stored under that key with its value
    whenever the variables that give the same key have the same value. No
    stored key starts or ends with a dot. *)
Theorem config_from_env_stores_the_prefixed_variables
  environ prefix separator lowercase_keys :
  (∀ k v,
     _config (config_from_env environ prefix separator lowercase_keys) !! k
     = Some v →
     ∃ name s, (name, s) ∈ environ
               ∧ PyStr.startswith name (prefix +:+ separator) = true
               ∧ k = key_case lowercase_keys (env_key prefix separator name)
               ∧ v = VStr s)
  ∧ (∀ name s,
       (name, s) ∈ environ →
       PyStr.startswith name (prefix +:+ separator) = true →
       (∀ name' s',
          (name', s') ∈ environ →
          PyStr.startswith name' (prefix +:+ separator) = true →
          key_case lowercase_keys (env_key prefix separator name')
          = key_case lowercase_keys (env_key prefix separator name) →
          s' = s) →
       _config (config_from_env environ prefix separator lowercase_keys)
       !! key_case lowercase_keys (env_key prefix separator name)
       = Some (VStr s))
  ∧ (∀ k r,
       is_Some (_config (config_from_env environ prefix separator
                           lowercase_keys) !! k) →
       k ≠ "." +:+ r ∧ k ≠ r +:+ ".").
Proof.
  unfold config_from_env, __init__. cbn [_config].
  split; [apply _flatten_dict_env_sound|]. split.
  - intros name s Hin Hs Hf. apply _flatten_dict_complete.
    + rewrite dotted_leaves_of_strings. apply list_elem_of_fmap.
      exists (env_key prefix separator name, s). split; [done|].
      apply env_result_complete; [done|done|].
      intros name' s' Hin' Hs' Heq. apply (Hf name' s' Hin' Hs').
      by rewrite Heq.
    + intros v'. rewrite dotted_leaves_of_strings.
      intros ([k0 s'] & [= Hk ->] & Hin')%list_elem_of_fmap.
      apply env_result_sound in Hin' as (name' & Hin' & Hs' & ->).
      f_equal. by apply (Hf name' s' Hin' Hs').
  - intros k r [v Hk].
    apply _flatten_dict_env_sound in Hk as (name & s & _ & _ & -> & _).
    split.
    + intros (r' & Hr)%key_case_head. unfold env_key in Hr.
      by apply strip_chars_ends in Hr.
    + intros (r' & Hr)%key_case_last. unfold env_key in Hr.
      by apply strip_chars_ends in Hr.
Qed.

Lemma replace_skip_pass old new (x t : string) :
  replace_skip old new (String.length x) (x +:+ t) = replace_skip old new 0 t.
Proof.
  induction x as [|c x IH]; [by destruct t|].
  rewrite string_app_cons. cbn [String.length replace_skip]. apply IH.
Qed.

Lemma replace_skip_occurrence c old' new t :
  replace_skip (String c old') new 0 (String c old' +:+ t)
  = new +:+ replace_skip (String c old') new 0 t.
Proof.
  rewrite string_app_cons. cbn [replace_skip].
  rewrite <- string_app_cons, startswith_app. cbn [String.length].
  replace (S (String.length old') - 1) with (String.length old') by lia.
  by rewrite replace_skip_pass.
Qed.

Lemma replace_skip_free c old' new (x t : string) :
  has_char x c = false →
  replace_skip (String c old') new 0 (x +:+ t)
  = x +:+ replace_skip (String c old') new 0 t.
Proof.
  induction x as [|a x IH]; [done|]. cbn [has_char].
  intros [Ha Hx]%orb_false_iff. apply bool_decide_eq_false in Ha.
  rewrite !string_app_cons. cbn [replace_skip PyStr.startswith].
  rewrite bool_decide_eq_false_2 by congruence. by rewrite IH.
Qed.

Lemma replace_skip_join c old' new segs :
  Forall (λ seg, has_char seg c = false) segs →
  replace_skip (String c old') new 0 (PyStr.join (String c old') segs)
  = PyStr.join new segs.
Proof.
  induction segs as [|a [|b segs] IH]; [done| |].
  - intros [Ha _]%Forall_cons. cbn [PyStr.join].
    rewrite <- (string_app_nil_r a) at 1.
    rewrite replace_skip_free by done. apply string_app_nil_r.
  - intros [Ha Hrest]%Forall_cons. rewrite !join_cons.
    rewrite replace_skip_free by done.
    by rewrite replace_skip_occurrence, IH.
Qed.

Lemma rstrip_chars_free chars s :
  (∀ c, has_char s c = true → has_char chars c = false) →
  rstrip_chars chars s = s.
Proof.
  induction s as [|a s IH]; [done|]. intros Hs. cbn [rstrip_chars].
  rewrite IH.
  - destruct s; [|done]. rewrite Hs; [done|]. cbn [has_char].
    by rewrite bool_decide_eq_true_2.
  - intros c Hc. apply Hs. cbn [has_char]. rewrite Hc. apply orb_true_r.
Qed.

Lemma rstrip_chars_app chars (x t : string) :
  t ≠ "" → rstrip_chars chars t = t → rstrip_chars chars (x +:+ t) = x +:+ t.
Proof.
  intros Hne Ht. induction x as [|a x IH]; [done|].
  rewrite string_app_cons. cbn [rstrip_chars]. rewrite IH.
  destruct (x +:+ t) eqn:Hx; [|done]. by destruct x, t.
Qed.

Lemma has_char_dot c : has_char "." c = true ↔ c = "."%char.
Proof.
  cbn [has_char]. rewrite orb_false_r, bool_decide_eq_true. split; congruence.
Qed.

Lemma rstrip_chars_join segs :
  Forall (λ seg, seg ≠ "" ∧ has_char seg "." = false) segs →
  rstrip_chars "." (PyStr.join "." segs) = PyStr.join "." segs.
Proof.
  induction segs as [|a [|b segs] IH]; [done| |].
  - intros [[_ Ha] _]%Forall_cons. cbn [PyStr.join].
    apply rstrip_chars_free.
    intros c Hc. destruct (has_char "." c) eqn:Hd; [|done].
    apply has_char_dot in Hd as ->. congruence.
  - intros [_ Hrest]%Forall_cons. rewrite join_cons, <- string_app_assoc.
    apply rstrip_chars_app; [|by apply IH].
    apply Forall_cons in Hrest as [[Hb _] _].
    destruct segs; [done|]. rewrite join_cons. by destruct b.
Qed.

Lemma env_key_of_segments prefix c sep' segs :
  segs ≠ [] →
  Forall (λ seg, seg ≠ "" ∧ has_char seg c = false
                 ∧ has_char seg "." = false) segs →
  env_key prefix (String c sep')
    (prefix +:+ String c sep' +:+ PyStr.join (String c sep') segs)
  = PyStr.join "." segs.
Proof.
  intros Hne Hsegs. unfold env_key. rewrite slice_from_app.
  cbn [replace]. rewrite replace_skip_occurrence, replace_skip_join.
  2:{ eapply Forall_impl; [done|]. by intros seg (_ & ? & _). }
  unfold strip_chars.
  assert (lstrip_chars "." ("." +:+ PyStr.join "." segs)
          = PyStr.join "." segs) as ->.
  { change ("." +:+ PyStr.join "." segs)
      with (String "." (PyStr.join "." segs)).
    cbn [lstrip_chars has_char]. rewrite bool_decide_eq_true_2 by done.
    cbn [orb]. destruct segs as [|a segs]; [done|].
    apply Forall_cons in Hsegs as [(Ha & _ & Hd) _].
    destruct a as [|a0 a]; [done|].
    assert (has_char "." a0 = false) as Ha0.
    { destruct (has_char "." a0) eqn:Hd0; [|done].
      apply has_char_dot in Hd0 as ->. cbn [has_char] in Hd.
      by rewrite bool_decide_eq_true_2 in Hd. }
    destruct segs as [|b segs].
    - cbn [PyStr.join lstrip_chars]. by rewrite Ha0.
    - rewrite join_cons, string_app_cons. cbn [lstrip_chars].
      by rewrite Ha0. }
  apply rstrip_chars_join. eapply Forall_impl; [done|].
  by intros seg (? & _ & ?).
Qed.

(** X26. How [config_from_env] names a key. A variable named
    [prefix + separator + separator.join(segs)], where the separator is not
    empty and every segment is non-empty and holds neither the first
    character of the separator nor a dot, is stored under the dotted key
    [".".join(segs)] with its value (the key case-folded under the flag),
    whenever the variables that give the same key have the same value. *)
Theorem config_from_env_joins_the_segments_with_dots
  environ prefix c sep' lowercase_keys segs s :
  segs ≠ [] →
  Forall (λ seg, seg ≠ "" ∧ has_char seg c = false
                 ∧ has_char seg "." = false) segs →
  (prefix +:+ String c sep' +:+ PyStr.join (String c sep') segs, s)
  ∈ environ →
  (∀ name' s',
     (name', s') ∈ environ →
     PyStr.startswith name' (prefix +:+ String c sep') = true →
     key_case lowercase_keys (env_key prefix (String c sep') name')
     = key_case lowercase_keys (PyStr.join "." segs) →
     s' = s) →
  _config (config_from_env environ prefix (String c sep') lowercase_keys)
  !! key_case lowercase_keys (PyStr.join "." segs)
  = Some (VStr s).
Proof.
  intros Hne Hsegs Hin Hf.
  pose proof (env_key_of_segments prefix c sep' segs Hne Hsegs) as Hkey.
  unfold config_from_env, __init__. cbn [_config].
  apply _flatten_dict_complete.
  - rewrite dotted_leaves_of_strings. apply list_elem_of_fmap.
    exists (PyStr.join "." segs, s). split; [done|]. rewrite <- Hkey.
    apply env_result_complete; [done| |].
    + by rewrite <- string_app_assoc, startswith_app.
    + intros name' s' Hin' Hs' Heq. apply (Hf name' s' Hin' Hs').
      by rewrite Heq, Hkey.
  - intros v'. rewrite dotted_leaves_of_strings.
    intros ([k0 s'] & [= Hk ->] & Hin')%list_elem_of_fmap.
    apply env_result_sound in Hin' as (name' & Hin' & Hs' & ->).
    f_equal. by apply (Hf name' s' Hin' Hs').
Qed.

End Embedding.

(** ** Worked examples *)

(** A rank that leaves the keys of a set in the order of the dictionary. *)
Definition insertion_rank : string → nat := λ _, 0.

(** A [__str__] that is never reached in the examples. *)
Definition str_unused : Configuration → pyresult string := λ _, Raise TypeError.

(** [Configuration(dict(items))] for a flat dictionary. *)
Definition store (items : list (string * value)) : Configuration :=
  __init__ insertion_rank ((λ kv, (kv.1, Leaf kv.2)) <$> items) false.

(** The store of C1: the key [a] and a key under [a + "."]. *)
Definition leaf_and_prefix : Configuration :=
  store [("a", VInt 1); ("a.b", VInt 2)].

(** C1 fails as stated: [a] is a stored key, yet [self["a"]] is the sub-store
    of the keys under [a.], not the value stored at [a]. *)
Lemma C1_exact_key_shadowed_by_prefix :
  _config leaf_and_prefix !! "a" = Some (VInt 1)
  ∧ __getitem__ insertion_rank leaf_and_prefix "a"
    = Ok (VConf false {["b" := VInt 2]}).
Proof. split; vm_compute; reflexivity. Qed.

Lemma C1_getitem_prefix_before_exact_witness :
  wf leaf_and_prefix
  ∧ __getitem__ insertion_rank leaf_and_prefix "a"
    = Ok (VConf false (sub_view (_config leaf_and_prefix) "a")).
Proof.
  split; [apply keys_folded_false|].
  destruct (C1_getitem_prefix_before_exact insertion_rank leaf_and_prefix "a"
              (keys_folded_false _)) as [H _].
  apply H, dict_is_empty_false. vm_compute. reflexivity.
Defined.

(** C3 fails as stated: after [self["a"] = 5] on a store that holds [a.b],
    [self["a"]] is the sub-store of the keys under [a.], not 5. *)
Lemma C3_set_then_get_returns_sub_view :
  __getitem__ insertion_rank
    (__setitem__ insertion_rank (store [("a.b", VInt 1)]) "a" (Leaf (VInt 5)))
    "a"
  = Ok (VConf false {["b" := VInt 1]}).
Proof. vm_compute. reflexivity. Qed.

Lemma C3_absent_key_and_set_then_get_witness :
  wf (store [("x", VInt 1)])
  ∧ __getitem__ insertion_rank (store [("x", VInt 1)]) "a" = Raise KeyError
  ∧ __getitem__ insertion_rank
      (__setitem__ insertion_rank (store [("x", VInt 1)]) "a" (Leaf (VInt 5)))
      "a"
    = Ok (VInt 5).
Proof.
  split; [apply keys_folded_false|].
  destruct (C3_absent_key_and_set_then_get insertion_rank
              (store [("x", VInt 1)]) "a" (keys_folded_false _)) as [H1 H2].
  split.
  - apply H1; [vm_compute; reflexivity|].
    apply dict_is_empty_true. vm_compute. reflexivity.
  - apply H2; [reflexivity|reflexivity|].
    apply dict_is_empty_true. vm_compute. reflexivity.
Defined.

(** The store of the delete example. *)
Definition three_keys : Configuration :=
  store [("a.b.c", VInt 1); ("a.b.d", VInt 2); ("a.x", VInt 3)].

(** The example of C5: [del self["a.b"]] removes [a.b.c] and [a.b.d] and
    leaves [a.x]; a second [del self["a.b"]] fails. *)
Example delitem_prefix_example :
  __delitem__ three_keys "a.b" = Ok (store [("a.x", VInt 3)])
  ∧ __delitem__ (store [("a.x", VInt 3)]) "a.b" = Raise KeyError.
Proof. split; vm_compute; reflexivity. Qed.

Lemma C5_delitem_removes_key_and_prefix_witness :
  wf three_keys
  ∧ ∃ self', __delitem__ three_keys "a.b" = Ok self'
             ∧ _lowercase self' = _lowercase three_keys
             ∧ ∀ k', _config self' !! k'
                     = if under "a.b" k' then None else _config three_keys !! k'.
Proof.
  split; [apply keys_folded_false|].
  destruct (C5_delitem_removes_key_and_prefix three_keys "a.b"
              (keys_folded_false _)) as [_ H].
  apply (H "a.b.c").
  - vm_compute. eauto.
  - reflexivity.
Defined.

(** The examples of C6. *)
Example get_bool_examples :
  get_bool insertion_rank str_unused (store [("k", VStr "Yes")]) "k" = Ok true
  ∧ get_bool insertion_rank str_unused (store [("k", VStr "off")]) "k" = Ok false
  ∧ get_bool insertion_rank str_unused (store [("k", VStr "maybe")]) "k"
    = Raise ValueError.
Proof. repeat split; vm_compute; reflexivity. Qed.

Lemma C6_get_bool_of_string_witness :
  __getitem__ insertion_rank (store [("k", VStr " Yes ")]) "k"
  = Ok (VStr " Yes ")
  ∧ trimmed " Yes " "Yes"
  ∧ get_bool insertion_rank str_unused (store [("k", VStr " Yes ")]) "k"
    = Ok true.
Proof.
  assert (__getitem__ insertion_rank (store [("k", VStr " Yes ")]) "k"
          = Ok (VStr " Yes ")) as H by (vm_compute; reflexivity).
  assert (trimmed " Yes " "Yes") as Ht by exact (strip_trimmed " Yes ").
  split; [exact H|]. split; [exact Ht|].
  destruct (C6_get_bool_of_string insertion_rank str_unused _ _ _ H)
    as [_ Hcast].
  rewrite (Hcast "Yes" Ht). vm_compute. reflexivity.
Defined.

(** C7 fails as stated: with case-folding on, a flat dictionary with an
    upper-case key does not come back equal; its key is lowered. *)
Lemma C7_flat_upper_case_key_is_lowered :
  _flatten_dict insertion_rank true (dict_as_nested {["A" := VInt 1]})
  = {["a" := VInt 1]}
  ∧ ({["a" := VInt 1]} : gmap string value) !! "A" = None.
Proof. split; vm_compute; reflexivity. Qed.

(** The two layers of the layering example: [L0] has priority. *)
Definition L0 : Configuration := store [("a.b", VInt 1); ("a.c", VInt 2)].
Definition L1 : Configuration := store [("a.b", VInt 9); ("a.d", VInt 4)].

(** The example of C2 holds: reading [a] gives [{b: 1, c: 2, d: 4}]. *)
Example layering_override_example :
  ConfigurationSet__getitem__ insertion_rank
    (<[0 := L0]> (<[1 := L1]> ∅)) (mkConfigurationSet [0; 1] false) "a"
  = Ok (VConf false (<["b" := VInt 1]> (<["c" := VInt 2]> {["d" := VInt 4]}))).
Proof. vm_compute. reflexivity. Qed.

(** C2 fails on the code: when the higher layer holds [a.b] both as a leaf
    and as a prefix, the merged view does not hold the leaf 1 under [b]: it
    holds the [Configuration] that [v["b"]] returns, because the merge reads
    each sub-view through [keys] and [__getitem__] ([result.update(v)])
    where [as_dict] reads [v.as_dict()]. This holds whatever the order of
    the sets. *)
Theorem C2_merge_reads_sub_views_through_getitem (set_rank : string → nat) :
  _from_configs set_rank (λ c, __getitem__ set_rank c "a")
    [__init__ set_rank [("a.b", Leaf (VInt 1)); ("a.b.c", Leaf (VInt 2))] false;
     __init__ set_rank [("a.b", Leaf (VInt 9)); ("a.d", Leaf (VInt 4))] false]
  = Ok (VConf false
          (<["b" := VConf false {["c" := VInt 2]}]>
             (<["b.c" := VInt 2]> {["d" := VInt 4]}))).
Proof. vm_compute. reflexivity. Qed.

(** The examples of C4: the first layer misses the key and the second holds
    a scalar; and both layers miss the key. *)
Example from_configs_examples :
  ConfigurationSet__getitem__ insertion_rank
    (<[0 := store [("x", VInt 1)]]> (<[1 := store [("k", VInt 7)]]> ∅))
    (mkConfigurationSet [0; 1] false) "k"
  = Ok (VInt 7)
  ∧ ConfigurationSet__getitem__ insertion_rank
      (<[0 := store [("x", VInt 1)]]> (<[1 := store [("y", VInt 7)]]> ∅))
      (mkConfigurationSet [0; 1] false) "k"
    = Raise KeyError.
Proof. split; vm_compute; reflexivity. Qed.

Lemma C8_writable_layer_invariant_witness :
  _writable (mkConfigurationSet [0; 1] false) = false
  ∧ run insertion_rank
      [SetItem "z" (Leaf (VInt 7)); Update [("a", Dict [("b", Leaf (VInt 5))])]]
      (<[0 := L0]> (<[1 := L1]> ∅), mkConfigurationSet [0; 1] false)
    = Ok (<[2 := store [("z", VInt 7); ("a.b", VInt 5)]]>
            (<[0 := L0]> (<[1 := L1]> ∅)),
          mkConfigurationSet [2; 0; 1] true).
Proof.
  split; [reflexivity|].
  destruct (C8_writable_layer_invariant insertion_rank
              (<[0 := L0]> (<[1 := L1]> ∅)) (mkConfigurationSet [0; 1] false)
              (SetItem "z" (Leaf (VInt 7)))
              [Update [("a", Dict [("b", Leaf (VInt 5))])]] eq_refl)
    as (_ & Hrun & _).
  rewrite Hrun. vm_compute. reflexivity.
Defined.

(** C10. With case-folding on, [Configuration({"A": {"B": 1}})] stores the
    single key [a.b]; lookups do not fold: [self["A.B"]] and [self["A"]]
    fail with [KeyError], and [self["a.b"]] returns 1. This holds whatever
    the order of the sets. *)
Theorem C10_case_folding_at_storage_only (set_rank : string → nat) :
  _config (__init__ set_rank [("A", Dict [("B", Leaf (VInt 1))])] true)
  = {["a.b" := VInt 1]}
  ∧ __getitem__ set_rank
      (__init__ set_rank [("A", Dict [("B", Leaf (VInt 1))])] true) "A.B"
    = Raise KeyError
  ∧ __getitem__ set_rank
      (__init__ set_rank [("A", Dict [("B", Leaf (VInt 1))])] true) "A"
    = Raise KeyError
  ∧ __getitem__ set_rank
      (__init__ set_rank [("A", Dict [("B", Leaf (VInt 1))])] true) "a.b"
    = Ok (VInt 1).
Proof. repeat split; vm_compute; reflexivity. Qed.

(** ** Worked examples of the further properties *)

(** The two layers of the layering example as a heap, and the set over
    them. *)
Definition two_layers : gmap nat Configuration := <[0 := L0]> (<[1 := L1]> ∅).
Definition both : ConfigurationSet := mkConfigurationSet [0; 1] false.

(** [scalars] and [plain] as tests. *)
Definition scalars_check (d : gmap string value) : bool :=
  forallb (λ kv, negb (is_Configuration kv.2)) (map_to_list d).

Definition plain_check (d : gmap string value) : bool :=
  match d !! "keys" with None => true | Some _ => false end
  && dict_is_empty (sub_view d "keys")
  && forallb (λ kv, negb (is_Configuration kv.2)
                    && dict_is_empty (sub_view d kv.1))
       (map_to_list d).

Lemma scalars_check_sound d : scalars_check d = true → scalars d.
Proof.
  unfold scalars_check. rewrite forallb_forall. intros Hd k v Hk.
  apply elem_of_map_to_list, list_elem_of_In in Hk.
  specialize (Hd _ Hk). cbn [snd] in Hd. by destruct (is_Configuration v).
Qed.

Lemma plain_check_sound d : plain_check d = true → plain d.
Proof.
  unfold plain_check. rewrite !andb_true_iff, forallb_forall.
  intros [[Hk Hs] Hd]. split; [by destruct (d !! "keys")|].
  split; [by apply dict_is_empty_true|]. intros k v Hkv.
  apply elem_of_map_to_list, list_elem_of_In in Hkv.
  specialize (Hd _ Hkv). cbn [fst snd] in Hd.
  apply andb_true_iff in Hd as [Hv He]. split.
  - by destruct (is_Configuration v).
  - by apply dict_is_empty_true.
Qed.

Lemma unfolded_heap_wf (h : gmap nat Configuration) :
  map_Forall (λ _ c, _lowercase c = false) h →
  ∀ l c, h !! l = Some c → wf c.
Proof.
  intros Hh l c Hc. unfold wf. rewrite (Hh l c Hc). apply keys_folded_false.
Qed.

Lemma two_layers_unfolded :
  map_Forall (λ _ c, _lowercase c = false) two_layers.
Proof.
  unfold two_layers.
  apply map_Forall_insert_2; [done|].
  apply map_Forall_insert_2; [done|]. apply map_Forall_empty.
Qed.

Lemma two_layers_wf l c :
  l ∈ _configs both → two_layers !! l = Some c → wf c.
Proof. intros _. apply unfolded_heap_wf, two_layers_unfolded. Qed.

Lemma layers_two_layers : layers two_layers both = [L0; L1].
Proof. reflexivity. Qed.

Lemma contains_iff_delitem_succeeds_witness :
  wf three_keys ∧ scalars (_config three_keys)
  ∧ (__contains__ insertion_rank three_keys "a.b" = Ok true
     ↔ ∃ self', __delitem__ three_keys "a.b" = Ok self').
Proof.
  assert (scalars (_config three_keys)) as Hs
    by (apply scalars_check_sound; vm_compute; reflexivity).
  split; [apply keys_folded_false|]. split; [exact Hs|].
  destruct (contains_iff_delitem_succeeds insertion_rank str_unused
              three_keys "a.b" (keys_folded_false _) Hs) as (_ & _ & H & _).
  exact H.
Defined.

Lemma get_dict_of_missing_key_is_empty_witness :
  wf (store [("x", VInt 1)])
  ∧ get_dict insertion_rank (store [("x", VInt 1)]) "a" = Ok ∅
  ∧ __getitem__ insertion_rank (store [("x", VInt 1)]) "a" = Raise KeyError.
Proof.
  split; [apply keys_folded_false|].
  destruct (get_dict_of_missing_key_is_empty insertion_rank str_unused
              (store [("x", VInt 1)]) "a" (keys_folded_false _))
    as (_ & H & _ & _).
  apply H; [|vm_compute; reflexivity].
  apply dict_is_empty_true. vm_compute. reflexivity.
Defined.

(** A [Configuration] stored as a value is read through [keys()] and
    [x[k]]: with the string [ab] stored in it under the name [keys],
    [get_dict] looks up [a] in it and raises [KeyError]. *)
Example get_dict_of_stored_Configuration :
  get_dict insertion_rank
    (store [("x", VConf false {["keys" := VStr "ab"]})]) "x"
  = Raise KeyError.
Proof. vm_compute. reflexivity. Qed.

Lemma pop_returns_the_read_and_removes_witness :
  wf three_keys
  ∧ ∃ self',
      pop insertion_rank three_keys "a.x" VNone = Ok (VInt 3, self')
      ∧ _lowercase self' = _lowercase three_keys
      ∧ ∀ k, _config self' !! k
             = if under "a.x" k then None else _config three_keys !! k.
Proof.
  split; [apply keys_folded_false|].
  destruct (pop_returns_the_read_and_removes insertion_rank str_unused
              three_keys "a.x" VNone (keys_folded_false _)) as [H _].
  apply H. vm_compute. reflexivity.
Defined.

Lemma setdefault_reads_or_writes_witness :
  wf (store [("x", VInt 1)])
  ∧ setdefault insertion_rank (store [("x", VInt 1)]) "x" (Leaf (VInt 5))
    = (store [("x", VInt 1)], Ok (VInt 1)).
Proof.
  split; [apply keys_folded_false|].
  destruct (setdefault_reads_or_writes insertion_rank str_unused
              (store [("x", VInt 1)]) "x" (keys_folded_false _)) as [H _].
  apply H. vm_compute. reflexivity.
Defined.

Lemma lookups_are_not_case_folded_witness :
  wf (__init__ insertion_rank [("a", Leaf (VInt 1))] true)
  ∧ PyStr.lower "A" ≠ "A"
  ∧ __getitem__ insertion_rank
      (__setitem__ insertion_rank
         (__init__ insertion_rank [("a", Leaf (VInt 1))] true)
         "A" (Leaf (VInt 2)))
      "A"
    = Raise KeyError.
Proof.
  split; [apply __init___wf|]. split; [done|].
  destruct (lookups_are_not_case_folded insertion_rank str_unused
              (__init__ insertion_rank [("a", Leaf (VInt 1))] true) "A"
              (VInt 2) (__init___wf _ _ _) eq_refl)
    as (_ & _ & _ & _ & H & _); [done|].
  exact H.
Defined.

Lemma keys_cut_to_levels_are_readable_witness :
  wf three_keys
  ∧ ∃ l, keys insertion_rank three_keys (Some 1) = Ok (KeysList l)
         ∧ NoDup l
         ∧ ∀ k, k ∈ l → __getitem__ insertion_rank three_keys k ≠ Raise KeyError.
Proof.
  split; [apply keys_folded_false|].
  destruct (keys_cut_to_levels_are_readable insertion_rank str_unused
              three_keys (Some 1) (keys_folded_false _)) as [H _]; [done|].
  destruct H as (l & Hl & Hnd & _ & _ & Hread).
  - vm_compute. reflexivity.
  - apply dict_is_empty_true. vm_compute. reflexivity.
  - exists l. split; [exact Hl|]. split; [exact Hnd|exact Hread].
Defined.

Lemma items_follow_keys_witness :
  wf three_keys
  ∧ ∃ l m, keys insertion_rank three_keys None = Ok (KeysList l)
           ∧ items insertion_rank three_keys None = Ok (ItemsDict m)
           ∧ ∀ k, is_Some (m !! k) ↔ k ∈ l.
Proof.
  split; [apply keys_folded_false|].
  destruct (items_follow_keys insertion_rank three_keys None
              (keys_folded_false _)) as (l & m & Hl & Hm & Hk & _).
  - done.
  - vm_compute. reflexivity.
  - apply dict_is_empty_true. vm_compute. reflexivity.
  - vm_compute. reflexivity.
  - apply dict_is_empty_true. vm_compute. reflexivity.
  - exists l, m. split; [exact Hl|]. split; [exact Hm|exact Hk].
Defined.

Lemma set_read_of_leaf_agrees_with_as_dict_witness :
  layers two_layers both ≠ []
  ∧ Forall (leaf_at "a.b") (layers two_layers both)
  ∧ ConfigurationSet__getitem__ insertion_rank two_layers both "a.b"
    = Ok (VInt 1).
Proof.
  assert (Forall (leaf_at "a.b") (layers two_layers both)) as Hall.
  { rewrite layers_two_layers.
    apply Forall_cons_2; [|apply Forall_cons_2; [|apply Forall_nil_2]];
      (split; [apply keys_folded_false|]);
      (split; [apply dict_is_empty_true; vm_compute; reflexivity|]);
      intros v Hv; vm_compute in Hv; injection Hv as <-; reflexivity. }
  assert (layers two_layers both ≠ []) as Hne
    by (rewrite layers_two_layers; discriminate).
  split; [exact Hne|]. split; [exact Hall|].
  destruct (set_read_of_leaf_agrees_with_as_dict insertion_rank two_layers
              both "a.b" VNone Hne Hall) as [H _].
  rewrite H. vm_compute. reflexivity.
Defined.

Lemma set_read_of_section_agrees_with_as_dict_witness :
  Forall (section_at "a") (layers two_layers both)
  ∧ ConfigurationSet__getitem__ insertion_rank two_layers both "a"
    = Ok (VConf false
            (sub_view (ConfigurationSet_as_dict two_layers both) "a")).
Proof.
  assert (Forall (section_at "a") (layers two_layers both)) as Hall.
  { rewrite layers_two_layers.
    apply Forall_cons_2; [|apply Forall_cons_2; [|apply Forall_nil_2]];
      (split; [apply keys_folded_false|]);
      (split; [vm_compute; reflexivity|]);
      right; apply plain_check_sound; vm_compute; reflexivity. }
  split; [exact Hall|].
  destruct (set_read_of_section_agrees_with_as_dict insertion_rank two_layers
              both "a" Hall) as [H _]; [|exact H].
  rewrite layers_two_layers. apply Exists_cons_hd.
  apply dict_is_empty_false. vm_compute. reflexivity.
Defined.

Lemma set_delitem_deletes_in_every_layer_witness :
  (∀ l c, l ∈ _configs both → two_layers !! l = Some c → wf c)
  ∧ ∃ h', ConfigurationSet__delitem__ two_layers both "a.b" = Ok h'
          ∧ ∀ k, ConfigurationSet_as_dict h' both !! k
                 = if under "a.b" k then None
                   else ConfigurationSet_as_dict two_layers both !! k.
Proof.
  split; [apply two_layers_wf|].
  pose proof (set_delitem_deletes_in_every_layer two_layers both "a.b"
                two_layers_wf) as (_ & _ & Hok).
  destruct (ConfigurationSet__delitem__ two_layers both "a.b")
    as [h'|e] eqn:Hd; [|by vm_compute in Hd].
  exists h'. split; [reflexivity|]. exact (proj1 (Hok h' eq_refl)).
Defined.

Lemma set_contains_iff_resolved_key_witness :
  Forall (λ c, wf c ∧ scalars (_config c)) (layers two_layers both)
  ∧ ∃ b, ConfigurationSet__contains__ insertion_rank two_layers both "a"
         = Ok b
         ∧ (b = true
            ↔ ∃ h', ConfigurationSet__delitem__ two_layers both "a" = Ok h').
Proof.
  assert (Forall (λ c, wf c ∧ scalars (_config c)) (layers two_layers both))
    as Hall.
  { rewrite layers_two_layers.
    apply Forall_cons_2; [|apply Forall_cons_2; [|apply Forall_nil_2]];
      (split; [apply keys_folded_false|]);
      apply scalars_check_sound; vm_compute; reflexivity. }
  split; [exact Hall|].
  destruct (set_contains_iff_resolved_key insertion_rank str_unused
              two_layers both "a" Hall) as (b & Hb & _ & Hiff).
  exists b. split; [exact Hb|exact Hiff].
Defined.

Lemma set_write_then_read_witness :
  is_Configuration (VInt 7) = false
  ∧ ∃ h' self',
      ConfigurationSet__setitem__ insertion_rank two_layers both "z"
        (Leaf (VInt 7))
      = Ok (h', self')
      ∧ ConfigurationSet__getitem__ insertion_rank h' self' "z"
        = Ok (VInt 7).
Proof.
  split; [reflexivity|].
  destruct (set_write_then_read insertion_rank two_layers both "z" (VInt 7)
              eq_refl) as [H _].
  destruct (H eq_refl eq_refl) as (h' & self' & Hw & Hr & _).
  exists h', self'. split; [exact Hw|exact Hr].
Defined.

Lemma set_copy_is_shallow_witness :
  (∀ l, l ∈ _configs both → is_Some (two_layers !! l))
  ∧ ConfigurationSet_copy both = Ok both
  ∧ ConfigurationSet_as_dict (ConfigurationSet_clear two_layers both) both
    = ∅.
Proof.
  assert (∀ l, l ∈ _configs both → is_Some (two_layers !! l)) as Hl.
  { intros l [->|[->|[]%elem_of_nil]%elem_of_cons]%elem_of_cons;
      vm_compute; eauto. }
  split; [exact Hl|]. split; [reflexivity|].
  destruct (set_copy_is_shallow insertion_rank two_layers both both "z"
              (Leaf (VInt 7)) Hl eq_refl) as (_ & _ & _ & _ & H).
  exact H.
Defined.

Lemma set_keys_are_the_resolved_keys_witness :
  ConfigurationSet_as_dict two_layers both !! "keys" = None
  ∧ ∃ l, ConfigurationSet_keys insertion_rank two_layers both None
         = Ok (KeysList l)
         ∧ NoDup l
         ∧ ∀ k, k ∈ l
                ↔ ∃ c, c ∈ layers two_layers both ∧ is_Some (_config c !! k).
Proof.
  split; [vm_compute; reflexivity|].
  destruct (set_keys_are_the_resolved_keys insertion_rank two_layers both
              None) as (l & Hl & Hnd & _ & Hk).
  - done.
  - vm_compute. reflexivity.
  - apply dict_is_empty_true. vm_compute. reflexivity.
  - exists l. split; [exact Hl|]. split; [exact Hnd|]. exact (Hk eq_refl).
Defined.

Lemma set_pop_deletes_in_every_layer_witness :
  (∀ l c, l ∈ _configs both → two_layers !! l = Some c → wf c)
  ∧ ∃ h', ConfigurationSet_pop insertion_rank two_layers both "a.b" VNone
          = Ok (VInt 1, h')
          ∧ ∀ k, ConfigurationSet_as_dict h' both !! k
                 = if under "a.b" k then None
                   else ConfigurationSet_as_dict two_layers both !! k.
Proof.
  split; [apply two_layers_wf|].
  destruct (set_pop_deletes_in_every_layer insertion_rank str_unused
              two_layers both "a.b" VNone two_layers_wf) as [H _].
  destruct (H (VInt 1)) as (h' & Hp & Hk & _); [vm_compute; reflexivity|].
  exists h'. split; [exact Hp|exact Hk].
Defined.

(** An environment with one variable under the prefix [APP]. *)
Definition two_variables : list (string * string) :=
  [("APP__DB__HOST", "localhost"); ("HOME", "/root")].

Lemma config_from_env_joins_the_segments_with_dots_witness :
  ("APP__DB__HOST", "localhost") ∈ two_variables
  ∧ _config (config_from_env insertion_rank two_variables "APP" "__" false)
    !! "DB.HOST"
    = Some (VStr "localhost").
Proof.
  split; [apply list_elem_of_here|].
  apply (config_from_env_joins_the_segments_with_dots insertion_rank
           two_variables "APP" "_" "_" false ["DB"; "HOST"] "localhost").
  - done.
  - apply Forall_cons_2; [|apply Forall_cons_2; [|apply Forall_nil_2]];
      (split; [discriminate|]); split; reflexivity.
  - apply list_elem_of_here.
  - intros name' s' Hin Hs _.
    apply elem_of_cons in Hin as [[= -> ->]|Hin]; [done|].
    apply list_elem_of_singleton in Hin as [= -> ->]. by vm_compute in Hs.
Defined.
